(** * The bus client and the change-capture service, embedded in Rocq

    A shallow embedding of
    - [event-bus/src/rabbitmq-event-bus.ts]   (class [RabbitMQEventBus]),
    - [command-bus/src/rabbitmq-command-bus.ts] (class [RabbitMQCommandBus]),
    - the change-data-capture service ([ChangeDataCapture], with the
      [audit.event_log] / [audit.cdc_position] schema it reads and writes).

    The TypeScript methods are [async] functions that mutate the bus object,
    talk to the broker and to PostgreSQL, and throw.  They are modelled as
    functions in a state-and-exception monad [M] over a [World]: the fields
    of the bus object, what the broker and the database hold, and a
    chronological [trace] of every externally visible effect (remote calls,
    handler invocations, timers, log lines).  What the outside world answers
    (does the handler reject, does the broker accept, ...) is read from an
    environment [Env] of oracles indexed by a logical clock [tick]. *)

From stdpp Require Import gmap strings list sorting pretty.
From Equations Require Import Equations.
From Stdlib Require Import ZArith Lia.

Local Open Scope Z_scope.
Local Open Scope string_scope.
Local Open Scope list_scope.

(** ** Data *)

(** A thrown JavaScript value, kept as its message. *)
Definition error : Type := string.

(** Outcome of a computation that may throw (a settled promise). *)
Inductive result (A : Type) : Type :=
| Ok (a : A)
| Throw (e : error).
Arguments Ok {A} a.
Arguments Throw {A} e.

Definition is_ok {A} (r : result A) : bool :=
  match r with Ok _ => true | Throw _ => false end.

(** JSON values as far as the service looks into them.  Numbers are kept as
    integers. *)
#[warnings="-register-all"]
Inductive json : Type :=
| JUndefined
| JNull
| JBool (b : bool)
| JNum (n : Z)
| JStr (s : string)
| JArr (items : list json)
| JObj (fields : list (string * json)).

(** [o.k] on a parsed object: [undefined] when the property is absent. *)
Fixpoint prop_lookup (k : string) (fields : list (string * json)) : json :=
  match fields with
  | [] => JUndefined
  | (k', v) :: rest => if String.eqb k k' then v else prop_lookup k rest
  end.

Definition get_prop (o : json) (k : string) : json :=
  match o with
  | JObj fields => prop_lookup k fields
  | _ => JUndefined
  end.

(** JavaScript truthiness, as used by [a || b]. *)
Definition truthy (v : json) : bool :=
  match v with
  | JUndefined | JNull => false
  | JBool b => b
  | JNum n => negb (Z.eqb n 0)
  | JStr s => negb (String.eqb s "")
  | JArr _ | JObj _ => true
  end.

Definition js_or (a b : json) : json := if truthy a then a else b.

(** [n || d] on an optional numeric configuration field. *)
Definition num_or (n : option Z) (d : Z) : Z :=
  match n with
  | None => d
  | Some v => if Z.eqb v 0 then d else v
  end.

(** [s || ''] on a string. *)
Definition str_or_empty (s : string) : string := s.

(** The [metadata] member of [DomainEvent] (shared/src/types/domain-event.ts). *)
Record Metadata : Type := {
  source : string;
  correlationId : string;
  userId : option string;
  tenantId : option string;
  version : Z
}.

(** [DomainEvent<T>]; [DomainCommand<T>] has the same members. *)
Record DomainEvent : Type := {
  e_id : string;
  e_type : string;
  e_entity : string;
  e_timestamp : string;
  e_data : json;
  e_metadata : Metadata
}.

Definition DomainCommand : Type := DomainEvent.

(** A handler object ([IEventHandler] / [ICommandHandler]) is known by its
    reference; [indexOf] and [!==] compare references. *)
Definition Handler : Type := nat.

(** [amqp.Message]: the delivery tag of [msg.fields] and the body. *)
Record Message : Type := {
  deliveryTag : nat;
  content : string
}.

(** What the code hands to [channel.nack]: a broker message, or (through the
    cast [as unknown as amqp.Message]) a parsed envelope. *)
Inductive NackArg : Type :=
| ArgMessage (m : Message)
| ArgEnvelope (e : DomainEvent).

(** A 128-bit [uuid], ordered as PostgreSQL orders the type. *)
Definition uuid : Type := N.

(** The [TEXT] column [audit.cdc_position.last_lsn]: the text of a uuid, or
    any other text (['0'], the empty text, ...); [None] is SQL [NULL]. *)
Inductive lsn_text : Type :=
| LsnUuid (u : uuid)
| LsnOther (s : string).

(** A row of [audit.event_log], with the columns the service reads. *)
Record Row : Type := {
  r_id : uuid;
  r_event_type : string;
  r_entity_type : string;
  r_data : string;
  r_correlation_id : string
}.

(** The three statements the service sends to PostgreSQL. *)
Inductive Query : Type :=
| SelectPositions
| SelectEventLog (entity_type : string) (after : option lsn_text)
| UpsertPosition (table_name : string) (last_lsn : uuid).

Inductive LogLevel : Type := LDebug | LInfo | LWarn | LError.

(** Externally visible effects, in the order they happen.  A log line keeps
    its level, its message (with [${..}] left as written) and the numbers
    interpolated into it. *)
Inductive effect : Type :=
| ELog (level : LogLevel) (message : string) (args : list Z)
| ESetTimeout (ms : Z)
| EAmqpConnect (url : string)
| ECreateChannel
| EPrefetch (count : Z)
| EAssertExchange (name kind : string)
| EAssertQueue (name : string) (deadLetterExchange : option string)
    (messageTtl : option Z)
| EBindQueue (queue exchange routingKey : string)
| EConsume (queue : string) (h : Handler)
| EPublish (exchange routingKey body : string) (headers : list (string * string))
| EGet (queue : string)
| EAck (tag : nat)
| ENack (tag : nat) (allUpTo requeue : bool)
| EHandle (h : Handler) (event : DomainEvent)
| EPoolConnect
| EQuery (q : Query)
| ERelease.

(** The awaited steps of the [try] block of [connect], and what the broker
    answers to one run of the block: the step that rejects, if any. *)
Inductive ConnectStep : Type :=
| StepConnect
| StepCreateChannel
| StepPrefetch
| StepAssertMain
| StepAssertDlx
| StepAssertDlq
| StepBindDlq.

Definition step_eqb (a b : ConnectStep) : bool :=
  match a, b with
  | StepConnect, StepConnect
  | StepCreateChannel, StepCreateChannel
  | StepPrefetch, StepPrefetch
  | StepAssertMain, StepAssertMain
  | StepAssertDlx, StepAssertDlx
  | StepAssertDlq, StepAssertDlq
  | StepBindDlq, StepBindDlq => true
  | _, _ => false
  end.

(** What [channel.publish] does: returns [true], returns [false] (write
    buffer full), or throws. *)
Inductive SendOutcome : Type :=
| SendTrue
| SendFalse
| SendThrows (e : error).

(** The environment: library functions and the answers of the outside
    world.  The [nat] argument is the value of the clock at the call. *)
Record Env : Type := {
  JSON_stringify : DomainEvent -> result string;
  JSON_parse_event : string -> result DomainEvent;
  JSON_parse : string -> result json;
  entityType : Handler -> string;
  handle_outcome : nat -> Handler -> DomainEvent -> result unit;
  connect_outcome : nat -> option (ConnectStep * error);
  rpc_outcome : nat -> result unit;
  send_outcome : nat -> SendOutcome;
  query_outcome : nat -> result unit;
  uuidv4 : nat -> string;
  now : nat -> string
}.

(** ** The world *)

(** The mutable fields of a bus object. *)
Record Bus : Type := {
  connection : option nat;
  channel : option nat;
  isConnected : bool;
  handlers : gmap string (list Handler)
}.

(** What the broker holds for this channel: declared queues, bindings,
    installed consumers (queue and the handler its callback closes over),
    ready messages per queue, and deliveries not yet acknowledged. *)
Record Broker : Type := {
  queues : list string;
  bindings : list (string * string * string);
  consumers : list (string * Handler);
  ready : gmap string (list Message);
  unacked : list (string * Message)
}.

(** The two tables of schema [audit]. *)
Record Db : Type := {
  event_log : list Row;
  cdc_position : gmap string (option lsn_text)
}.

(** Everything a method can read or change.  There is one bus object: every
    statement below is about one bus (the event bus, the command bus, or the
    event bus a change-capture service owns) at a time. *)
Record World : Type := {
  bus : Bus;
  broker : Broker;
  db : Db;
  tick : nat;
  trace : list effect
}.

Definition set_bus (f : Bus -> Bus) (w : World) : World :=
  {| bus := f (bus w); broker := broker w; db := db w;
     tick := tick w; trace := trace w |}.

Definition set_broker (f : Broker -> Broker) (w : World) : World :=
  {| bus := bus w; broker := f (broker w); db := db w;
     tick := tick w; trace := trace w |}.

Definition set_db (f : Db -> Db) (w : World) : World :=
  {| bus := bus w; broker := broker w; db := f (db w);
     tick := tick w; trace := trace w |}.

Definition next_tick (w : World) : World :=
  {| bus := bus w; broker := broker w; db := db w;
     tick := S (tick w); trace := trace w |}.

Definition emit (e : effect) (w : World) : World :=
  {| bus := bus w; broker := broker w; db := db w;
     tick := tick w; trace := trace w ++ [e] |}.

Definition with_connection (c : option nat) (b : Bus) : Bus :=
  {| connection := c; channel := channel b;
     isConnected := isConnected b; handlers := handlers b |}.

Definition with_channel (c : option nat) (b : Bus) : Bus :=
  {| connection := connection b; channel := c;
     isConnected := isConnected b; handlers := handlers b |}.

Definition with_isConnected (v : bool) (b : Bus) : Bus :=
  {| connection := connection b; channel := channel b;
     isConnected := v; handlers := handlers b |}.

Definition with_handlers (h : gmap string (list Handler)) (b : Bus) : Bus :=
  {| connection := connection b; channel := channel b;
     isConnected := isConnected b; handlers := h |}.

Definition with_queues (q : list string) (b : Broker) : Broker :=
  {| queues := q; bindings := bindings b; consumers := consumers b;
     ready := ready b; unacked := unacked b |}.

Definition with_bindings (x : list (string * string * string)) (b : Broker) : Broker :=
  {| queues := queues b; bindings := x; consumers := consumers b;
     ready := ready b; unacked := unacked b |}.

Definition with_consumers (c : list (string * Handler)) (b : Broker) : Broker :=
  {| queues := queues b; bindings := bindings b; consumers := c;
     ready := ready b; unacked := unacked b |}.

Definition with_ready (r : gmap string (list Message)) (b : Broker) : Broker :=
  {| queues := queues b; bindings := bindings b; consumers := consumers b;
     ready := r; unacked := unacked b |}.

Definition with_unacked (u : list (string * Message)) (b : Broker) : Broker :=
  {| queues := queues b; bindings := bindings b; consumers := consumers b;
     ready := ready b; unacked := u |}.

Definition with_cdc_position (p : gmap string (option lsn_text)) (d : Db) : Db :=
  {| event_log := event_log d; cdc_position := p |}.

(** ** The monad of [async] methods *)

Definition M (A : Type) : Type := World -> result A * World.

Definition ret {A} (a : A) : M A := fun w => (Ok a, w).

Definition throw {A} (e : error) : M A := fun w => (Throw e, w).

Definition bind {A B} (m : M A) (k : A -> M B) : M B :=
  fun w =>
    match m w with
    | (Ok a, w') => k a w'
    | (Throw e, w') => (Throw e, w')
    end.

(** [try { m } catch (error) { h error }] *)
Definition try_catch {A} (m : M A) (h : error -> M A) : M A :=
  fun w =>
    match m w with
    | (Ok a, w') => (Ok a, w')
    | (Throw e, w') => h e w'
    end.

(** [try { m } finally { f }], for a [finally] block that does not throw. *)
Definition try_finally {A} (m : M A) (f : World -> World) : M A :=
  fun w => let '(r, w') := m w in (r, f w').

(** Lift a promise that is already settled. *)
Definition settle {A} (r : result A) : M A := fun w => (r, w).

(** An effect that cannot fail. *)
Definition act (f : World -> World) : M unit := fun w => (Ok tt, f w).

Declare Scope bus_scope.
Delimit Scope bus_scope with bus.
Notation "x <- m ;; k" := (bind m (fun x => k))
  (at level 100, m at next level, right associativity) : bus_scope.
Notation "m ;;; k" := (bind m (fun _ => k))
  (at level 100, right associativity) : bus_scope.
Local Open Scope bus_scope.

Definition logger (level : LogLevel) (message : string) (args : list Z) : M unit :=
  act (emit (ELog level message args)).

(** [await new Promise((resolve) => setTimeout(resolve, ms))] *)
Definition sleep (ms : Z) : M unit := act (emit (ESetTimeout ms)).

Definition remove_delivery (tag : nat) (u : list (string * Message))
  : list (string * Message) :=
  filter (fun d => deliveryTag (snd d) ≠ tag) u.

Definition requeue_delivery (tag : nat) (u : list (string * Message))
  (r : gmap string (list Message)) : gmap string (list Message) :=
  foldr (fun d acc =>
           if decide (deliveryTag (snd d) = tag)
           then <[fst d := snd d :: default [] (acc !! fst d)]> acc
           else acc) r u.

(** [channel.ack(msg)].  Acknowledgements are written to the channel
    without waiting for the broker; on the open channel a delivery arrived
    on they do not throw. *)
Definition channel_ack (msg : Message) : M unit :=
  act (fun w =>
    emit (EAck (deliveryTag msg))
      (set_broker (fun b => with_unacked (remove_delivery (deliveryTag msg) (unacked b)) b) w)).

(** [channel.nack(message, allUpTo, requeue)].  The client library reads
    [message.fields.deliveryTag]; an envelope has no [fields] member, and
    reading a property of [undefined] throws a [TypeError]. *)
Definition channel_nack (arg : NackArg) (allUpTo requeue : bool) : M unit :=
  match arg with
  | ArgMessage msg =>
      act (fun w =>
        let tag := deliveryTag msg in
        emit (ENack tag allUpTo requeue)
          (set_broker (fun b =>
             with_unacked (remove_delivery tag (unacked b))
               (if requeue
                then with_ready (requeue_delivery tag (unacked b) (ready b)) b
                else b)) w))
  | ArgEnvelope _ =>
      throw "TypeError: Cannot read properties of undefined (reading 'deliveryTag')"
  end.

(** [channel.get(queue, { noAck: false })]: the head of the queue becomes an
    unacknowledged delivery; [None] is the [false] of an empty queue. *)
Definition channel_get (queue : string) : M (option Message) :=
  fun w =>
    let w1 := emit (EGet queue) w in
    match default [] (ready (broker w1) !! queue) with
    | [] => (Ok None, w1)
    | msg :: rest =>
        (Ok (Some msg),
         set_broker (fun b =>
           with_unacked (unacked b ++ [(queue, msg)])
             (with_ready (<[queue := rest]> (ready b)) b)) w1)
    end.

(** A remote call on the channel ([assertQueue], [bindQueue], [consume]):
    the broker accepts it, or the promise rejects. *)
Definition rpc (env : Env) (e : effect) (f : Broker -> Broker) : M unit :=
  fun w =>
    match rpc_outcome env (tick w) with
    | Ok _ => (Ok tt, next_tick (emit e (set_broker f w)))
    | Throw err => (Throw err, next_tick w)
    end.

(** [channel.publish(exchange, routingKey, content, options)] *)
Definition channel_publish (env : Env) (exchange routingKey body : string)
  (headers : list (string * string)) : M bool :=
  fun w =>
    match send_outcome env (tick w) with
    | SendTrue => (Ok true, next_tick (emit (EPublish exchange routingKey body headers) w))
    | SendFalse => (Ok false, next_tick (emit (EPublish exchange routingKey body headers) w))
    | SendThrows e => (Throw e, next_tick w)
    end.

(** [handler.handle(event)] *)
Definition handler_handle (env : Env) (h : Handler) (event : DomainEvent) : M unit :=
  fun w => (handle_outcome env (tick w) h event, next_tick (emit (EHandle h event) w)).

(** [xs.map(f)] for an [async] [f] without suspension point: every call
    runs to its end, in order, whatever the others did, and leaves a
    settled promise. *)
Fixpoint map_settled {A B} (f : A -> M B) (xs : list A) (w : World)
  : list (result B) * World :=
  match xs with
  | [] => ([], w)
  | x :: rest =>
      let '(r, w1) := f x w in
      let '(rs, w2) := map_settled f rest w1 in
      (r :: rs, w2)
  end.

(** [await Promise.allSettled(xs.map(f))]: never rejects. *)
Definition allSettled {A B} (f : A -> M B) (xs : list A) : M (list (result B)) :=
  fun w => let '(rs, w') := map_settled f xs w in (Ok rs, w').

(** [xs.forEach(f)]: stops at the first call that throws. *)
Fixpoint forEach {A} (f : A -> M unit) (xs : list A) : M unit :=
  match xs with
  | [] => ret tt
  | x :: rest => f x ;;; forEach f rest
  end.

(** [xs.indexOf(x)]; [None] is [-1]. *)
Fixpoint indexOf (x : Handler) (xs : list Handler) : option nat :=
  match xs with
  | [] => None
  | y :: rest => if decide (y = x) then Some 0%nat else S <$> indexOf x rest
  end.

(** The first rejection among settled promises, as [Promise.all] reports it. *)
Fixpoint first_rejection {A} (rs : list (result A)) : option error :=
  match rs with
  | [] => None
  | Ok _ :: rest => first_rejection rest
  | Throw e :: _ => Some e
  end.

Definition rejected {A} (r : result A) : bool := negb (is_ok r).

(** [RabbitMQConfig] / [RabbitMQCommandBusConfig] as passed to the
    constructor, and the [Required<..>] record the constructor stores. *)
Record RabbitMQConfig : Type := {
  url : string;
  prefetch : option Z;
  maxRetries : option Z;
  retryDelayMs : option Z
}.

Record Config : Type := {
  cfg_url : string;
  cfg_prefetch : Z;
  cfg_maxRetries : Z;
  cfg_retryDelayMs : Z
}.

Definition constructor (config : RabbitMQConfig) : Config :=
  {| cfg_url := url config;
     cfg_prefetch := num_or (prefetch config) 10;
     cfg_maxRetries := num_or (maxRetries config) 3;
     cfg_retryDelayMs := num_or (retryDelayMs config) 5000 |}.

(** ** Connection management, common to both buses

    [RabbitMQEventBus.connect] and [RabbitMQCommandBus.connect] (and the two
    private set-up methods) are the same code up to the names of the
    exchanges and the wording of the log lines, collected in [Names]. *)

Record Names : Type := {
  MAIN_EXCHANGE : string;
  DLX_EXCHANGE : string;
  DLQ_QUEUE : string;
  msg_already : string;
  msg_connecting : string;
  msg_connected : string;
  msg_exchanges : string;
  msg_dlq : string;
  msg_failed : string
}.

Section Connection.
Variable env : Env.
Variable config : Config.
Variable names : Names.

(** One awaited step of the [try] block, against the answer [o] of the
    broker to this run of the block. *)
Definition await_step (o : option (ConnectStep * error)) (s : ConnectStep)
  (e : effect) : M unit :=
  fun w =>
    match o with
    | Some (s', err) => if step_eqb s s' then (Throw err, w) else (Ok tt, emit e w)
    | None => (Ok tt, emit e w)
    end.

Definition setupExchanges (o : option (ConnectStep * error)) : M unit :=
  fun w =>
    match channel (bus w) with
    | None => throw "Channel not initialized" w
    | Some _ =>
        (await_step o StepAssertMain (EAssertExchange (MAIN_EXCHANGE names) "topic") ;;;
         await_step o StepAssertDlx (EAssertExchange (DLX_EXCHANGE names) "topic") ;;;
         logger LDebug (msg_exchanges names) []) w
    end.

Definition setupDLQ (o : option (ConnectStep * error)) : M unit :=
  fun w =>
    match channel (bus w) with
    | None => throw "Channel not initialized" w
    | Some _ =>
        (await_step o StepAssertDlq (EAssertQueue (DLQ_QUEUE names) None None) ;;;
         act (set_broker (fun b => with_queues (queues b ++ [DLQ_QUEUE names]) b)) ;;;
         await_step o StepBindDlq (EBindQueue (DLQ_QUEUE names) (DLX_EXCHANGE names) "") ;;;
         act (set_broker (fun b =>
                with_bindings (bindings b ++ [(DLQ_QUEUE names, DLX_EXCHANGE names, "")]) b)) ;;;
         logger LDebug (msg_dlq names) []) w
    end.

(** The connection's ['error'] and ['close'] listeners. *)
Definition on_connection_error : World -> World :=
  fun w => set_bus (with_isConnected false) (emit (ELog LError "RabbitMQ connection error" []) w).

Definition on_connection_close : World -> World :=
  fun w => set_bus (with_isConnected false) (emit (ELog LWarn "RabbitMQ connection closed" []) w).

(** The body of [try] in [connect], at loop counter [retries]. *)
Definition connect_try (retries : Z) : M unit :=
  fun w =>
    let o := connect_outcome env (tick w) in
    let c := tick w in
    (logger LInfo (msg_connecting names) [retries + 1] ;;;
     act next_tick ;;;
     await_step o StepConnect (EAmqpConnect (cfg_url config)) ;;;
     act (set_bus (with_connection (Some c))) ;;;
     await_step o StepCreateChannel ECreateChannel ;;;
     act (set_bus (with_channel (Some c))) ;;;
     await_step o StepPrefetch (EPrefetch (cfg_prefetch config)) ;;;
     setupExchanges o ;;;
     setupDLQ o ;;;
     act (set_bus (with_isConnected true)) ;;;
     logger LInfo (msg_connected names) []) w.

(** [const maxRetries = 5] of [connect]. *)
Definition connect_maxRetries : Z := 5.

(** [while (retries < maxRetries) { try { .. return } catch { .. } }] *)
Equations? connect_loop (retries : Z) (w : World) : result unit * World
  by wf (Z.to_nat (connect_maxRetries - retries)) lt :=
connect_loop retries w with Z_lt_dec retries connect_maxRetries => {
  | right _ => (Ok tt, w)
  | left _ with connect_try retries w => {
    | (Ok _, w1) => (Ok tt, w1)
    | (Throw _, w1) =>
        let retries' := retries + 1 in
        let delayMs := Z.min (1000 * 2 ^ retries') 30000 in
        let w2 := emit (ELog LWarn "RabbitMQ connection failed, retrying in ${delayMs}ms..."
                          [delayMs; retries']) w1 in
        if Z.geb retries' connect_maxRetries
        then (Throw (msg_failed names), w2)
        else connect_loop retries' (emit (ESetTimeout delayMs) w2) } }.
Proof. unfold connect_maxRetries in *. lia. Qed.

Definition connect : M unit :=
  fun w =>
    if isConnected (bus w) && bool_decide (is_Some (connection (bus w)))
    then logger LInfo (msg_already names) [] w
    else connect_loop 0 w.

End Connection.

(** ** Starting up and shutting down

    [disconnect], and [start] and [stop] of the change-capture service, make
    calls that the dispatcher and the scan never make: closing the channel
    and the connection, ending the pool, the [SELECT 1] probe, launching the
    polling loop, opening the HTTP port, ending the process.  They run on a process: the world, the service's
    [isRunning] flag, and the chronological list of the calls that took
    effect, which holds the effects of the world with these calls put in
    where they happen. *)

Inductive call : Type :=
| Effect (e : effect)
| ChannelClose          (* [channel.close()] *)
| ConnectionClose       (* [connection.close()] *)
| PoolEnd               (* [pool.end()] *)
| QueryProbe            (* [client.query('SELECT 1')] *)
| StartPolling          (* [this.poll()], not awaited *)
| Listen (port : Z)     (* [app.listen(port, ..)] *)
| OnSignal (signal : string)   (* [process.on(signal, ..)] *)
| Exit (code : Z).      (* [process.exit(code)] *)

Record Process : Type := {
  world : World;
  isRunning : bool;
  calls : list call
}.

Definition Proc (A : Type) : Type := Process -> result A * Process.

Definition retP {A} (a : A) : Proc A := fun p => (Ok a, p).

Definition throwP {A} (e : error) : Proc A := fun p => (Throw e, p).

Definition bindP {A B} (m : Proc A) (k : A -> Proc B) : Proc B :=
  fun p =>
    match m p with
    | (Ok a, p') => k a p'
    | (Throw e, p') => (Throw e, p')
    end.

(** [try { m } catch (error) { h error }] *)
Definition try_catchP {A} (m : Proc A) (h : error -> Proc A) : Proc A :=
  fun p =>
    match m p with
    | (Ok a, p') => (Ok a, p')
    | (Throw e, p') => h e p'
    end.

(** A method of the bus or of the scan, run inside the process: the effects
    it adds to the trace are appended to the list of calls. *)
Definition lift {A} (m : M A) : Proc A :=
  fun p =>
    let '(r, w') := m (world p) in
    (r, {| world := w'; isRunning := isRunning p;
           calls := calls p ++ (Effect <$> drop (length (trace (world p))) (trace w')) |}).

(** An awaited call to the outside that takes effect, or whose promise
    rejects; the clock moves either way. *)
Definition remote (outcome : nat -> result unit) (c : call) : Proc unit :=
  fun p =>
    let p' := fun cs => {| world := next_tick (world p); isRunning := isRunning p;
                           calls := calls p ++ cs |} in
    match outcome (tick (world p)) with
    | Ok _ => (Ok tt, p' [c])
    | Throw e => (Throw e, p' [])
    end.

(** [if (cond) { await m }] *)
Definition whenP (cond : Process -> bool) (m : Proc unit) : Proc unit :=
  fun p => if cond p then m p else (Ok tt, p).

(** [this.isRunning = v] *)
Definition set_isRunning (v : bool) : Proc unit :=
  fun p => (Ok tt, {| world := world p; isRunning := v; calls := calls p |}).

(** A call that cannot fail and is not awaited. *)
Definition mark (c : call) : Proc unit :=
  fun p => (Ok tt, {| world := world p; isRunning := isRunning p;
                      calls := calls p ++ [c] |}).

Declare Scope proc_scope.
Delimit Scope proc_scope with proc.
Notation "x <- m ;; k" := (bindP m (fun x => k))
  (at level 100, m at next level, right associativity) : proc_scope.
Notation "m ;;; k" := (bindP m (fun _ => k))
  (at level 100, right associativity) : proc_scope.

(** [this.channel] and [this.connection] as conditions. *)
Definition has_channel (p : Process) : bool :=
  bool_decide (is_Some (channel (bus (world p)))).

Definition has_connection (p : Process) : bool :=
  bool_decide (is_Some (connection (bus (world p)))).

(** ** [RabbitMQEventBus] *)

Module EventBus.

Definition names : Names :=
  {| MAIN_EXCHANGE := "agentic.events";
     DLX_EXCHANGE := "agentic.dlx";
     DLQ_QUEUE := "agentic.dlq";
     msg_already := "Already connected to RabbitMQ";
     msg_connecting := "Connecting to RabbitMQ...";
     msg_connected := "✓ Connected to RabbitMQ";
     msg_exchanges := "✓ Exchanges configured";
     msg_dlq := "✓ Dead Letter Queue configured";
     msg_failed := "Failed to connect to RabbitMQ after 5 attempts" |}.

Section Methods.
Variable env : Env.
Variable config : Config.

Definition connect : M unit := connect env config names.

(** [publish(event)] *)
Definition publish (event : DomainEvent) : M unit :=
  fun w =>
    match channel (bus w) with
    | None => throw "Channel not initialized" w
    | Some _ =>
        try_catch
          (message <- settle (JSON_stringify env event) ;;
           let routingKey := e_entity event +:+ "." +:+ e_type event in
           ok <- channel_publish env (MAIN_EXCHANGE names) routingKey message
                   [("x-event-id", e_id event);
                    ("x-correlation-id", correlationId (e_metadata event))] ;;
           (if ok : bool then ret tt
            else logger LWarn "Publisher backpressure detected" []) ;;;
           logger LDebug "Event published" [])
          (fun error =>
             logger LError "Failed to publish event" [] ;;;
             throw error) w
    end.

(** [publishBatch(events)] *)
Definition publishBatch (events : list DomainEvent) : M unit :=
  results <- allSettled publish events ;;
  let failed := filter (fun r => rejected r = true) results in
  if Nat.ltb 0 (length failed)
  then logger LWarn "${failed.length}/${events.length} events failed to publish"
         [Z.of_nat (length failed); Z.of_nat (length events)]
  else ret tt.

(** [handleWithRetry(handler, event, attempt = 1)] *)
Equations? handleWithRetry (handler : Handler) (event : DomainEvent)
  (attempt : Z) (w : World) : result unit * World
  by wf (Z.to_nat (cfg_maxRetries config - attempt)) lt :=
handleWithRetry handler event attempt w with handler_handle env handler event w => {
  | (Ok _, w1) => (Ok tt, w1)
  | (Throw error, w1) with Z_lt_dec attempt (cfg_maxRetries config) => {
    | left _ =>
        let delayMs := cfg_retryDelayMs config * 2 ^ (attempt - 1) in
        handleWithRetry handler event (attempt + 1)
          (emit (ESetTimeout delayMs)
             (emit (ELog LWarn "Handler failed, retrying in ${delayMs}ms..."
                      [delayMs; attempt]) w1))
    | right _ =>
        (Throw error,
         emit (ELog LError "Handler failed after all retries"
                 [cfg_maxRetries config]) w1) } }.
Proof. lia. Qed.

(** The callback that [subscribe] hands to [channel.consume]; it closes over
    [handler].  [None] is the [null] the client library passes when the
    consumer is cancelled. *)
Definition onMessage (handler : Handler) (msg : option Message) : M unit :=
  match msg with
  | None => ret tt
  | Some msg =>
      try_catch
        (event <- settle (JSON_parse_event env (content msg)) ;;
         logger LDebug "Processing event" [] ;;;
         handleWithRetry handler event 1 ;;;
         channel_ack msg ;;;
         logger LDebug "Event processed successfully" [])
        (fun error =>
           logger LError "Error processing event" [] ;;;
           channel_nack (ArgMessage msg) false false)
  end.

(** [subscribe(handler, eventType)] *)
Definition subscribe (handler : Handler) (eventType : string) : M unit :=
  fun w =>
    match channel (bus w) with
    | None => throw "Channel not initialized" w
    | Some _ =>
        try_catch
          (let queueName := "agentic." +:+ entityType env handler +:+ "." +:+ eventType in
           let routingKey := entityType env handler +:+ "." +:+ eventType in
           rpc env (EAssertQueue queueName (Some (DLX_EXCHANGE names))
                      (Some (24 * 60 * 60 * 1000)))
             (fun b => with_queues (queues b ++ [queueName]) b) ;;;
           rpc env (EBindQueue queueName (MAIN_EXCHANGE names) routingKey)
             (fun b => with_bindings
                         (bindings b ++ [(queueName, MAIN_EXCHANGE names, routingKey)]) b) ;;;
           act (set_bus (fun b =>
                  with_handlers
                    (<[eventType := default [] (handlers b !! eventType) ++ [handler]]>
                       (handlers b)) b)) ;;;
           rpc env (EConsume queueName handler)
             (fun b => with_consumers (consumers b ++ [(queueName, handler)]) b) ;;;
           logger LInfo "✓ Handler subscribed" [])
          (fun error =>
             logger LError "Failed to subscribe handler" [] ;;;
             throw error) w
    end.

(** The broker delivers [msg] from [queue] to a consumer installed on it:
    the delivery is outstanding until acknowledged, and the consumer's
    callback runs with the handler it was created with. *)
Definition deliver (queue : string) (handler : Handler) (msg : Message) : M unit :=
  fun w =>
    if bool_decide ((queue, handler) ∈ consumers (broker w))
    then onMessage handler (Some msg)
           (set_broker (fun b => with_unacked (unacked b ++ [(queue, msg)]) b) w)
    else (Ok tt, w).

(** [unsubscribe(handler, eventType)] *)
Definition unsubscribe (handler : Handler) (eventType : string) : M unit :=
  fun w =>
    let handlers_ := default [] (handlers (bus w) !! eventType) in
    match indexOf handler handlers_ with
    | Some index =>
        logger LInfo "✓ Handler unsubscribed" []
          (set_bus (fun b =>
             with_handlers (<[eventType := delete index handlers_]> (handlers b)) b) w)
    | None => (Ok tt, w)
    end.

(** The [for] loop of [getDLQMessages]. *)
Equations? getDLQMessages_loop (limit i : Z) (messages : list DomainEvent)
  (w : World) : result (list DomainEvent) * World
  by wf (Z.to_nat (limit - i)) lt :=
getDLQMessages_loop limit i messages w with Z_lt_dec i limit => {
  | right _ => (Ok messages, w)
  | left _ with channel_get (DLQ_QUEUE names) w => {
    | (Throw e, w1) => (Throw e, w1)
    | (Ok None, w1) => (Ok messages, w1)
    | (Ok (Some msg), w1) with JSON_parse_event env (content msg) => {
      | Ok event => getDLQMessages_loop limit (i + 1) (messages ++ [event]) w1
      | Throw _ =>
          getDLQMessages_loop limit (i + 1) messages
            (emit (ELog LWarn "Invalid message format in DLQ" []) w1) } } }.
Proof. all: lia. Qed.

(** [getDLQMessages(limit = 10)] *)
Definition getDLQMessages (limit : option Z) : M (list DomainEvent) :=
  fun w =>
    match channel (bus w) with
    | None => throw "Channel not initialized" w
    | Some _ =>
        (messages <- getDLQMessages_loop (default 10 limit) 0 [] ;;
         forEach (fun _ : DomainEvent =>
                    fun w' =>
                      match channel (bus w'), messages !! 0%nat with
                      | Some _, Some first => channel_nack (ArgEnvelope first) false true w'
                      | _, _ => (Ok tt, w')
                      end) messages ;;;
         ret messages) w
    end.

(** [isHealthy()] *)
Definition isHealthy (w : World) : bool :=
  isConnected (bus w) && bool_decide (is_Some (channel (bus w))).

(** What [getStatus()] returns.  The array [queues] holds one label per key
    of the handler registry, in the order the keys were inserted; the model
    keeps the labels by key and not their order. *)
Record Status : Type := {
  connected : bool;
  handlersCount : nat;
  queues : gmap string string
}.

(** The label
    [`${handlers[0]?.entityType()}.${eventType} (${handlers.length} handlers)`]. *)
Definition queue_label (eventType : string) (handlers_ : list Handler) : string :=
  match head handlers_ with
  | Some first => entityType env first
  | None => "undefined"
  end +:+ "." +:+ eventType +:+ " (" +:+ pretty (length handlers_) +:+ " handlers)".

(** [getStatus()] *)
Definition getStatus (w : World) : Status :=
  {| connected := isConnected (bus w);
     handlersCount :=
       map_fold (fun _ arr sum => (sum + length arr)%nat) 0%nat (handlers (bus w));
     queues := map_imap (fun eventType handlers_ => Some (queue_label eventType handlers_))
                 (handlers (bus w)) |}.

(** [disconnect()].  What the connection's [close] listener does when the
    client library runs it is [on_connection_close], a step of its own. *)
Definition disconnect : Proc unit :=
  try_catchP
    (whenP has_channel (remote (rpc_outcome env) ChannelClose) ;;;
     whenP has_connection (remote (rpc_outcome env) ConnectionClose) ;;;
     lift (act (set_bus (with_isConnected false))) ;;;
     lift (logger LInfo "✓ Disconnected from RabbitMQ" []))%proc
    (fun error =>
       (lift (logger LError "Error disconnecting from RabbitMQ" []) ;;;
        throwP error)%proc).

End Methods.
End EventBus.

(** ** [RabbitMQCommandBus] *)

Module CommandBus.

Definition names : Names :=
  {| MAIN_EXCHANGE := "agentic.commands";
     DLX_EXCHANGE := "agentic.commands.dlx";
     DLQ_QUEUE := "agentic.commands.dlq";
     msg_already := "Already connected to RabbitMQ (CommandBus)";
     msg_connecting := "Connecting to RabbitMQ (CommandBus)...";
     msg_connected := "✓ Connected to RabbitMQ (CommandBus)";
     msg_exchanges := "✓ Command exchanges configured";
     msg_dlq := "✓ Dead Letter Queue (Commands) configured";
     msg_failed := "Failed to connect to RabbitMQ (CommandBus) after 5 attempts" |}.

Section Methods.
Variable env : Env.
Variable config : Config.

Definition connect : M unit := connect env config names.

(** [publish(command)] *)
Definition publish (command : DomainCommand) : M unit :=
  fun w =>
    match channel (bus w) with
    | None => throw "Channel not initialized" w
    | Some _ =>
        try_catch
          (message <- settle (JSON_stringify env command) ;;
           let routingKey := e_entity command +:+ "." +:+ e_type command in
           ok <- channel_publish env (MAIN_EXCHANGE names) routingKey message
                   [("x-command-id", e_id command);
                    ("x-correlation-id", correlationId (e_metadata command));
                    ("x-timestamp", e_timestamp command)] ;;
           (if ok : bool then ret tt
            else throw "Failed to publish command to RabbitMQ") ;;;
           logger LDebug "✓ Command published" [])
          (fun error =>
             logger LError "Failed to publish command" [] ;;;
             throw error) w
    end.

(** [await Promise.all(xs.map(f))]: every call has run when the await
    settles; it rejects with the first rejection. *)
Definition all {A B} (f : A -> M B) (xs : list A) : M unit :=
  fun w =>
    let '(rs, w') := map_settled f xs w in
    match first_rejection rs with
    | Some e => (Throw e, w')
    | None => (Ok tt, w')
    end.

(** [publishBatch(commands)] *)
Definition publishBatch (commands : list DomainCommand) : M unit :=
  try_catch
    (all publish commands ;;;
     logger LDebug "✓ ${commands.length} commands published in batch"
       [Z.of_nat (length commands)])
    (fun error =>
       logger LError "Failed to publish command batch" [] ;;;
       throw error).

(** The callback that [subscribe] hands to [channel.consume].  Its first log
    line reads [command.metadata.correlationId]; a body that parses but has
    no [metadata] throws there, inside the [try], and so counts as a body
    that does not deserialize. *)
Definition onMessage (handler : Handler) (msg : option Message) : M unit :=
  match msg with
  | None => ret tt
  | Some msg =>
      try_catch
        (command <- settle (JSON_parse_event env (content msg)) ;;
         logger LDebug "Command received" [] ;;;
         handler_handle env handler command ;;;
         channel_ack msg ;;;
         logger LDebug "Command processed successfully" [])
        (fun error =>
           logger LError "Error processing command" [] ;;;
           channel_nack (ArgMessage msg) false false)
  end.

(** [subscribe(handler, commandType)].  The queue is declared with the
    dead-letter exchange and the constant dead-letter routing key
    ['commands.dead-letter'] (not recorded in the effect), and without a
    message TTL. *)
Definition subscribe (handler : Handler) (commandType : string) : M unit :=
  fun w =>
    match channel (bus w) with
    | None => throw "Channel not initialized" w
    | Some _ =>
        try_catch
          (let queueName :=
             "agentic.commands." +:+ entityType env handler +:+ "." +:+ commandType in
           rpc env (EAssertQueue queueName (Some (DLX_EXCHANGE names)) None)
             (fun b => with_queues (queues b ++ [queueName]) b) ;;;
           let routingKey := entityType env handler +:+ "." +:+ commandType in
           rpc env (EBindQueue queueName (MAIN_EXCHANGE names) routingKey)
             (fun b => with_bindings
                         (bindings b ++ [(queueName, MAIN_EXCHANGE names, routingKey)]) b) ;;;
           act (set_bus (fun b =>
                  with_handlers
                    (<[commandType := default [] (handlers b !! commandType) ++ [handler]]>
                       (handlers b)) b)) ;;;
           rpc env (EConsume queueName handler)
             (fun b => with_consumers (consumers b ++ [(queueName, handler)]) b) ;;;
           logger LInfo "✓ Command handler subscribed" [])
          (fun error =>
             logger LError "Failed to subscribe to commands" [] ;;;
             throw error) w
    end.

(** The broker delivers [msg] from [queue] to a consumer installed on it. *)
Definition deliver (queue : string) (handler : Handler) (msg : Message) : M unit :=
  fun w =>
    if bool_decide ((queue, handler) ∈ consumers (broker w))
    then onMessage handler (Some msg)
           (set_broker (fun b => with_unacked (unacked b ++ [(queue, msg)]) b) w)
    else (Ok tt, w).

(** [unsubscribe(handler, commandType)] *)
Definition unsubscribe (handler : Handler) (commandType : string) : M unit :=
  try_catch
    (act (set_bus (fun b =>
            let handlers_ := default [] (handlers b !! commandType) in
            let filtered := filter (fun h => h ≠ handler) handlers_ in
            with_handlers (<[commandType := filtered]> (handlers b)) b)) ;;;
     logger LInfo "✓ Command handler unsubscribed" [])
    (fun error =>
       logger LError "Failed to unsubscribe from commands" [] ;;;
       throw error).

(** [isConnected_()] *)
Definition isConnected_ (w : World) : bool := isConnected (bus w).

(** [disconnect()]: unlike the event bus, the [catch] block only logs. *)
Definition disconnect : Proc unit :=
  try_catchP
    (whenP has_channel (remote (rpc_outcome env) ChannelClose) ;;;
     whenP has_connection (remote (rpc_outcome env) ConnectionClose) ;;;
     lift (act (set_bus (with_isConnected false))) ;;;
     lift (logger LInfo "✓ Disconnected from RabbitMQ (CommandBus)" []))%proc
    (fun error => lift (logger LError "Error disconnecting from RabbitMQ" [])).

End Methods.
End CommandBus.

(** ** [ChangeDataCapture] *)

Module CDC.

Record CDCConfig : Type := {
  postgresUrl : string;
  rabbitmqUrl : string;
  pollIntervalMs : option Z
}.

(** The configuration the constructor gives its [RabbitMQEventBus]. *)
Definition eventBusConfig (config : CDCConfig) : Config :=
  constructor {| url := rabbitmqUrl config; prefetch := Some 20;
                 maxRetries := None; retryDelayMs := None |}.

Definition cfg_pollIntervalMs (config : CDCConfig) : Z :=
  num_or (pollIntervalMs config) 5000.

(** [ORDER BY id ASC] *)
Definition id_le (a b : Row) : Prop := (r_id a <= r_id b)%N.

#[global] Instance id_le_dec (a b : Row) : Decision (id_le a b).
Proof. unfold id_le. apply _. Defined.

(** The optional conjunct [AND id > $2::uuid] of the query, on a row. *)
Definition after_bound (bound : option lsn_text) (row : Row) : Prop :=
  match bound with
  | None => True
  | Some (LsnUuid u) => (u < r_id row)%N
  | Some (LsnOther _) => False
  end.

#[global] Instance after_bound_dec (bound : option lsn_text) (row : Row) :
  Decision (after_bound bound row).
Proof. destruct bound as [[u|s]|]; simpl; apply _. Defined.

(** The rows [SELECT * FROM audit.event_log WHERE entity_type = $1
    [AND id > $2::uuid] ORDER BY id ASC] returns.  The cast [$2::uuid]
    fails on a text that is not a uuid. *)
Definition select_event_log (entity_type : string) (after : option lsn_text)
  (log : list Row) : result (list Row) :=
  match after with
  | Some (LsnOther _) => Throw "invalid input syntax for type uuid"
  | _ =>
      Ok (merge_sort id_le
            (filter (fun r => r_entity_type r = entity_type ∧ after_bound after r) log))
  end.

(** [row.last_lsn === '0' || !row.last_lsn ? '' : row.last_lsn] *)
Definition normalize_lsn (last_lsn : option lsn_text) : lsn_text :=
  match last_lsn with
  | None => LsnOther ""
  | Some (LsnUuid u) => LsnUuid u
  | Some (LsnOther s) =>
      if String.eqb s "0" || String.eqb s "" then LsnOther "" else LsnOther s
  end.

(** Truthiness of a position string: every text but the empty one. *)
Definition lsn_truthy (l : lsn_text) : bool :=
  match l with
  | LsnUuid _ => true
  | LsnOther s => negb (String.eqb s "")
  end.

(** What differs between [processClienteChanges], [processProdutoChanges]
    and [processPedidoChanges]: the entity name, the event type of the
    [criar..Event] constructor, the payload built from the parsed row data,
    and the log line. *)
Record Tracked : Type := {
  t_entity : string;
  t_type : string;
  t_payload : json -> json;
  t_published : string
}.

Definition Cliente : Tracked :=
  {| t_entity := "Cliente";
     t_type := "ClienteCriado";
     t_payload := fun data =>
       JObj [("clienteId", get_prop data "id");
             ("nome", get_prop data "nome");
             ("email", get_prop data "email");
             ("telefone", get_prop data "telefone");
             ("endereco", get_prop data "endereco")];
     t_published := "Cliente event published" |}.

Definition Produto : Tracked :=
  {| t_entity := "Produto";
     t_type := "ProdutoCriado";
     t_payload := fun data =>
       JObj [("produtoId", get_prop data "id");
             ("nome", get_prop data "nome");
             ("descricao", get_prop data "descricao");
             ("preco", get_prop data "preco");
             ("estoque", get_prop data "estoque");
             ("sku", get_prop data "sku")];
     t_published := "Produto event published" |}.

Definition Pedido : Tracked :=
  {| t_entity := "Pedido";
     t_type := "PedidoCriado";
     t_payload := fun data =>
       JObj [("pedidoId", get_prop data "id");
             ("clienteId", get_prop data "cliente_id");
             ("itens", js_or (get_prop data "itens") (JArr []));
             ("total", get_prop data "total");
             ("status", get_prop data "status");
             ("dataCriacao", get_prop data "created_at")];
     t_published := "Pedido event published" |}.

Section Service.
Variable env : Env.
Variable config : CDCConfig.

(** [await this.pool.connect()] *)
Definition pool_connect : M unit :=
  fun w =>
    match query_outcome env (tick w) with
    | Ok _ => (Ok tt, next_tick (emit EPoolConnect w))
    | Throw e => (Throw e, next_tick w)
    end.

(** [await client.query(..)]: the statement [q] takes effect ([update]) and
    answers ([answer], read before the update), or the promise rejects and
    nothing changes. *)
Definition client_query {A} (q : Query) (answer : Db -> result A)
  (update : Db -> Db) : M A :=
  fun w =>
    match query_outcome env (tick w) with
    | Throw e => (Throw e, next_tick w)
    | Ok _ =>
        match answer (db w) with
        | Throw e => (Throw e, next_tick w)
        | Ok a => (Ok a, next_tick (emit (EQuery q) (set_db update w)))
        end
    end.

(** The [criar..Event] constructors of shared/src/events/domain-events.ts. *)
Definition criarEvent (t : Tracked) (data : json) (correlationId source : string)
  : M DomainEvent :=
  fun w =>
    (Ok {| e_id := uuidv4 env (tick w);
           e_type := t_type t;
           e_entity := t_entity t;
           e_timestamp := now env (tick w);
           e_data := data;
           e_metadata := {| source := source; correlationId := correlationId;
                            userId := None; tenantId := None; version := 1 |} |},
     next_tick w).

(** [data.id] and the like throw on [null]. *)
Definition object_of (data : json) : M json :=
  match data with
  | JNull | JUndefined => throw "TypeError: Cannot read properties of null"
  | _ => ret data
  end.

(** The body of [for (const row of result.rows)]. *)
Definition process_row (t : Tracked) (row : Row) : M unit :=
  if String.eqb (r_event_type row) "INSERT"
  then
    parsed <- settle (JSON_parse env (r_data row)) ;;
    data <- object_of parsed ;;
    event <- criarEvent t (t_payload t data) (str_or_empty (r_correlation_id row)) "cdc" ;;
    EventBus.publish env event ;;;
    client_query (UpsertPosition (t_entity t) (r_id row)) (fun _ => Ok tt)
      (fun d => with_cdc_position
                  (<[t_entity t := Some (LsnUuid (r_id row))]> (cdc_position d)) d) ;;;
    logger LDebug (t_published t) []
  else ret tt.

Fixpoint process_rows (t : Tracked) (rows : list Row) : M unit :=
  match rows with
  | [] => ret tt
  | row :: rest => process_row t row ;;; process_rows t rest
  end.

(** The common text of the three [process..Changes] methods. *)
Definition processChanges (t : Tracked) (positions : gmap string lsn_text) : M unit :=
  let lastPosition := default (LsnOther "") (positions !! t_entity t) in
  let after := if lsn_truthy lastPosition then Some lastPosition else None in
  rows <- client_query (SelectEventLog (t_entity t) after)
            (fun d => select_event_log (t_entity t) after (event_log d))
            (fun d => d) ;;
  process_rows t rows.

Definition processClienteChanges : gmap string lsn_text -> M unit := processChanges Cliente.
Definition processProdutoChanges : gmap string lsn_text -> M unit := processChanges Produto.
Definition processPedidoChanges : gmap string lsn_text -> M unit := processChanges Pedido.

(** [checkForChanges()] *)
Definition checkForChanges : M unit :=
  pool_connect ;;;
  try_finally
    (positionResult <- client_query SelectPositions
                         (fun d => Ok (cdc_position d)) (fun d => d) ;;
     let positions := normalize_lsn <$> positionResult in
     processClienteChanges positions ;;;
     processProdutoChanges positions ;;;
     processPedidoChanges positions)
    (emit ERelease).

(** One turn of the [while (this.isRunning)] loop of [poll]. *)
Definition poll_once : M unit :=
  try_catch checkForChanges
    (fun error => logger LError "Error checking for changes" []) ;;;
  sleep (cfg_pollIntervalMs config).

(** [poll()], for a run in which [isRunning] is found true [n] times. *)
Fixpoint poll (n : nat) : M unit :=
  match n with
  | O => ret tt
  | S k => poll_once ;;; poll k
  end.

(** [start()].  The pool and the probe answer as the database does
    ([query_outcome]); [this.poll()] is launched and not awaited. *)
Definition start : Proc unit :=
  try_catchP
    (lift pool_connect ;;;
     remote (query_outcome env) QueryProbe ;;;
     lift (act (emit ERelease)) ;;;
     lift (EventBus.connect env (eventBusConfig config)) ;;;
     set_isRunning true ;;;
     lift (logger LInfo "✓ CDC Service started" []) ;;;
     mark StartPolling)%proc
    (fun error =>
       (lift (logger LError "Failed to start CDC service" []) ;;;
        throwP error)%proc).

(** [stop()] *)
Definition stop : Proc unit :=
  (set_isRunning false ;;;
   remote (query_outcome env) PoolEnd ;;;
   EventBus.disconnect env ;;;
   lift (logger LInfo "✓ CDC Service stopped" []))%proc.

End Service.
End CDC.

(** ** [ApiGateway]: start, stop and pagination *)

Module ApiGateway.

Record AppConfig : Type := {
  port : Z;
  rabbitmqUrl : string;
  databaseUrl : string
}.

(** The configuration the constructor gives its [RabbitMQEventBus]. *)
Definition eventBusConfig (config : AppConfig) : Config :=
  constructor {| url := rabbitmqUrl config; prefetch := Some 10;
                 maxRetries := None; retryDelayMs := None |}.

Record PaginationParams : Type := {
  page : Z;
  limit : Z;
  offset : Z
}.

(** [getPaginationParams(req)].  The arguments are what [Number.parseInt]
    made of [req.query.page] and of [req.query.limit]: an integer, or
    [None] for [NaN]. *)
Definition getPaginationParams (query_page query_limit : option Z) : PaginationParams :=
  let page := Z.max 1 (num_or query_page 1) in
  let limit := Z.min 100 (Z.max 1 (num_or query_limit 20)) in
  let offset := (page - 1) * limit in
  {| page := page; limit := limit; offset := offset |}.

(** [hasMore: pagination.offset + pagination.limit < total] of the list
    handlers. *)
Definition hasMore (pagination : PaginationParams) (total : Z) : bool :=
  Z.ltb (offset pagination + limit pagination) total.

Section Service.
Variable env : Env.
Variable config : AppConfig.

(** [start()].  The callback of [app.listen], which logs once the port is
    open, runs later and is left out. *)
Definition start : Proc unit :=
  try_catchP
    (lift (logger LInfo "Testing database connection..." []) ;;;
     lift (CDC.pool_connect env) ;;;
     remote (query_outcome env) QueryProbe ;;;
     lift (act (emit ERelease)) ;;;
     lift (logger LInfo "✓ Database connected" []) ;;;
     lift (EventBus.connect env (eventBusConfig config)) ;;;
     mark (Listen (port config)))%proc
    (fun error =>
       (lift (logger LError "Failed to start API Gateway" []) ;;;
        throwP error)%proc).

(** [stop()] *)
Definition stop : Proc unit :=
  (EventBus.disconnect env ;;;
   remote (query_outcome env) PoolEnd ;;;
   lift (logger LInfo "✓ API Gateway stopped" []))%proc.



End Service.
End ApiGateway.

(** ** Observing a run *)

(** The effects a computation adds to the trace of the world it starts in. *)
Definition effects_of {A} (m : M A) (w : World) : list effect :=
  drop (length (trace w)) (trace (snd (m w))).

(** [w] after [k] more clock ticks and the effects [es], nothing else
    changed. *)
Definition extend (k : nat) (es : list effect) (w : World) : World :=
  {| bus := bus w; broker := broker w; db := db w;
     tick := (k + tick w)%nat; trace := trace w ++ es |}.

Definition is_handle (e : effect) : bool :=
  match e with EHandle _ _ => true | _ => false end.

Definition is_ack (e : effect) : bool :=
  match e with EAck _ => true | _ => false end.

Definition is_nack (e : effect) : bool :=
  match e with ENack _ _ _ => true | _ => false end.

Definition is_publish (e : effect) : bool :=
  match e with EPublish _ _ _ _ => true | _ => false end.

Definition is_cursor_write (e : effect) : bool :=
  match e with EQuery (UpsertPosition _ _) => true | _ => false end.

Fixpoint count (p : effect -> bool) (es : list effect) : nat :=
  match es with
  | [] => 0%nat
  | e :: rest => ((if p e then 1 else 0) + count p rest)%nat
  end.

(** The delays of the timers set, in order. *)
Fixpoint timeouts (es : list effect) : list Z :=
  match es with
  | [] => []
  | ESetTimeout ms :: rest => ms :: timeouts rest
  | _ :: rest => timeouts rest
  end.

(** The effects [handleWithRetry] may have: handler calls, timers, logs. *)
Definition retry_effect (e : effect) : bool :=
  match e with
  | EHandle _ _ | ESetTimeout _ | ELog _ _ _ => true
  | _ => false
  end.

(** The effects of [j] failed attempts starting at attempt number
    [attempt], each followed by its warning and its wait. *)
Fixpoint failed_attempts (config : Config) (handler : Handler)
  (event : DomainEvent) (attempt : Z) (j : nat) : list effect :=
  match j with
  | O => []
  | S j' =>
      let delayMs := cfg_retryDelayMs config * 2 ^ (attempt - 1) in
      EHandle handler event
        :: ELog LWarn "Handler failed, retrying in ${delayMs}ms..." [delayMs; attempt]
        :: ESetTimeout delayMs
        :: failed_attempts config handler event (attempt + 1) j'
  end.

(** What the consume callback does to the broker whichever way it ends: the
    delivery is no longer outstanding. *)
Definition settle_delivery (msg : Message) (b : Broker) : Broker :=
  with_unacked (remove_delivery (deliveryTag msg) (unacked b)) b.

(** The acknowledgements, positive and negative, among some effects. *)
Fixpoint settlements (es : list effect) : list effect :=
  match es with
  | [] => []
  | e :: rest => if is_ack e || is_nack e then e :: settlements rest else settlements rest
  end.

(** ** Concrete inputs

    A small environment and world on which the statements below are run. *)

Definition envelope (id type entity : string) : DomainEvent :=
  {| e_id := id; e_type := type; e_entity := entity;
     e_timestamp := "2024-01-01T00:00:00.000Z";
     e_data := JObj [];
     e_metadata := {| source := "api"; correlationId := "corr-1";
                      userId := None; tenantId := None; version := 1 |} |}.

(** An environment whose JSON functions fail on one marked input each, with
    the four families of answers of the outside world left open. *)
Definition example_env (handle : nat -> result unit)
  (conn : nat -> option (ConnectStep * error))
  (send : nat -> SendOutcome) (query : nat -> result unit) : Env :=
  {| JSON_stringify := fun e =>
       if String.eqb (e_id e) "cyclic"
       then Throw "TypeError: Converting circular structure to JSON"
       else Ok (e_id e);
     JSON_parse_event := fun s =>
       if String.eqb s "not json"
       then Throw "SyntaxError: Unexpected token"
       else Ok (envelope s "X" "Order");
     JSON_parse := fun s =>
       if String.eqb s "not json"
       then Throw "SyntaxError: Unexpected token"
       else Ok (JObj [("id", JStr s)]);
     entityType := fun _ => "Order";
     handle_outcome := fun t _ _ => handle t;
     connect_outcome := conn;
     rpc_outcome := fun _ => Ok tt;
     send_outcome := send;
     query_outcome := query;
     uuidv4 := fun _ => "00000000-0000-4000-8000-000000000000";
     now := fun _ => "2024-01-01T00:00:00.000Z" |}.

(** Everything answers. *)
Definition calm_env : Env :=
  example_env (fun _ => Ok tt) (fun _ => None) (fun _ => SendTrue) (fun _ => Ok tt).

(** The handler rejects its first two calls. *)
Definition flaky_handler_env : Env :=
  example_env (fun t => if Nat.ltb t 2 then Throw "handler failed" else Ok tt)
    (fun _ => None) (fun _ => SendTrue) (fun _ => Ok tt).


(** The broker refuses every connection. *)
Definition unreachable_env : Env :=
  example_env (fun _ => Ok tt) (fun _ => Some (StepConnect, "ECONNREFUSED"))
    (fun _ => SendTrue) (fun _ => Ok tt).

(** The broker refuses the first two connections and accepts the third. *)
Definition refuses_twice_env : Env :=
  example_env (fun _ => Ok tt)
    (fun t => if Nat.ltb t 2 then Some (StepConnect, "ECONNREFUSED") else None)
    (fun _ => SendTrue) (fun _ => Ok tt).

(** [channel.publish] returns [false] every time. *)
Definition backpressure_env : Env :=
  example_env (fun _ => Ok tt) (fun _ => None) (fun _ => SendFalse) (fun _ => Ok tt).

(** The configuration the constructor derives when only the url is given. *)
Definition default_config : Config :=
  constructor {| url := "amqp://localhost"; prefetch := None;
                 maxRetries := None; retryDelayMs := None |}.

Definition msg_E1 : Message := {| deliveryTag := 7%nat; content := "E1" |}.

Definition msg_garbled : Message := {| deliveryTag := 8%nat; content := "not json" |}.

(** A bus that never connected. *)
Definition fresh_world : World :=
  {| bus := {| connection := None; channel := None;
               isConnected := false; handlers := ∅ |};
     broker := {| queues := []; bindings := []; consumers := [];
                  ready := ∅; unacked := [] |};
     db := {| event_log := []; cdc_position := ∅ |};
     tick := 0%nat; trace := [] |}.

(** A connected bus with an open channel. *)
Definition ready_world : World :=
  set_bus (fun b => with_isConnected true (with_channel (Some 0%nat)
                      (with_connection (Some 0%nat) b))) fresh_world.

(** The delays [connect] waits after failures number [retries + 1], ...,
    [retries + n], by the formula of its [catch] block. *)
Definition delays_from (retries : Z) (n : nat) : list Z :=
  map (fun i => Z.min (1000 * 2 ^ (retries + 1 + Z.of_nat i)) 30000) (seq 0 n).

(** A run of [connect] that met [k] failing attempts in a row (and, if
    [k < 5], a successful one after them): how it ends, the delays it
    waited -- [min(1000 * 2^n, 30000)] after failure number [n], for the
    first four failures -- and how many times it ran its [try] block. *)
Definition connect_run_shape (run : M unit) (failed : string) (k : nat)
  (w : World) : Prop :=
  fst (run w) = (if Nat.ltb k 5 then Ok tt else Throw failed)
  /\ timeouts (effects_of run w)
     = map (fun n => Z.min (1000 * 2 ^ Z.of_nat n) 30000) (seq 1 (Nat.min k 4))
  /\ tick (snd (run w)) = (Nat.min (S k) 5 + tick w)%nat.

(** A publish method runs on its own for every item of a batch: for the
    item at index [i], the promise [rs !! i] and the effects it leaves in
    [es] are those of a single call made after the earlier items, on the
    same bus, broker and database (only the clock and the trace moved). *)
Definition settled_independently {A B} (f : A -> M B) (xs : list A) (w : World)
  (rs : list (result B)) (es : list effect) : Prop :=
  length rs = length xs
  /\ forall i x, xs !! i = Some x ->
       exists k pre post,
         rs !! i = Some (fst (f x (extend k pre w)))
         /\ es = pre ++ effects_of (f x) (extend k pre w) ++ post.

(** The headers the event bus attaches. *)
Definition event_headers (event : DomainEvent) : list (string * string) :=
  [("x-event-id", e_id event);
   ("x-correlation-id", correlationId (e_metadata event))].

(** The headers the command bus attaches. *)
Definition command_headers (command : DomainCommand) : list (string * string) :=
  [("x-command-id", e_id command);
   ("x-correlation-id", correlationId (e_metadata command));
   ("x-timestamp", e_timestamp command)].

Definition routing_key (event : DomainEvent) : string :=
  e_entity event +:+ "." +:+ e_type event.

(** A connected bus whose dead-letter queue holds one well-formed envelope. *)
Definition dlq_world : World :=
  set_broker (with_ready {[ "agentic.dlq" := [msg_E1] ]}) ready_world.

(** A connected bus whose dead-letter queue holds one malformed entry. *)
Definition dlq_garbled_world : World :=
  set_broker (with_ready {[ "agentic.dlq" := [msg_garbled] ]}) ready_world.

(** The bus after handler [1] subscribed to event type ["X"]. *)
Definition subscribed_world : World :=
  snd (EventBus.subscribe calm_env 1%nat "X" ready_world).

(** ** Observing the change-capture service *)

(** The cursor writes that took effect, in order: table name and row id. *)
Fixpoint cursor_writes (es : list effect) : list (string * uuid) :=
  match es with
  | [] => []
  | EQuery (UpsertPosition table_name last_lsn) :: rest =>
      (table_name, last_lsn) :: cursor_writes rest
  | _ :: rest => cursor_writes rest
  end.

(** The routing keys of the messages handed to the broker, in order. *)
Fixpoint published_keys (es : list effect) : list string :=
  match es with
  | [] => []
  | EPublish _ routingKey _ _ :: rest => routingKey :: published_keys rest
  | _ :: rest => published_keys rest
  end.

(** At every point of the run, no more cursor writes have taken effect than
    messages were handed to the broker: each write comes after a publish of
    its own. *)
Definition publish_before_write (es : list effect) : Prop :=
  forall n, (count is_cursor_write (take n es) <= count is_publish (take n es))%nat.

(** The cursor table after the rows [rows] of entity [t] were translated. *)
Definition advance (t : CDC.Tracked) (rows : list Row) (d : Db) : Db :=
  foldl (fun d row =>
           with_cdc_position
             (<[CDC.t_entity t := Some (LsnUuid (r_id row))]> (cdc_position d)) d)
    d rows.

(** The position the service works from for entity [t], and the bound it
    puts into its query: [lastPosition] and [if (lastPosition)]. *)
Definition lastPosition (t : CDC.Tracked) (positions : gmap string lsn_text) : lsn_text :=
  default (LsnOther "") (positions !! CDC.t_entity t).

Definition query_bound (t : CDC.Tracked) (positions : gmap string lsn_text)
  : option lsn_text :=
  if CDC.lsn_truthy (lastPosition t positions)
  then Some (lastPosition t positions) else None.

(** The rows one pass over entity [t] translates when nothing fails. *)
Definition translated (t : CDC.Tracked) (positions : gmap string lsn_text)
  (log : list Row) : list Row :=
  filter (fun row => r_event_type row = "INSERT")
    (merge_sort CDC.id_le
       (filter (fun row => r_entity_type row = CDC.t_entity t
                           ∧ CDC.after_bound (query_bound t positions) row) log)).

(** The row id a stored cursor stands for; [None] is "none seen" (no row for
    the table, [NULL], or a text that is not a uuid). *)
Definition cursor_id (c : option (option lsn_text)) : option uuid :=
  match c with
  | Some (Some (LsnUuid u)) => Some u
  | _ => None
  end.

(** The order of cursors: "none seen" is below every id. *)
Definition cursor_le (a b : option (option lsn_text)) : Prop :=
  match cursor_id a, cursor_id b with
  | None, _ => True
  | Some u, Some v => (u <= v)%N
  | Some _, None => False
  end.

(** The world after the first two statements of [checkForChanges]
    succeeded: a client is checked out and the positions are read. *)
Definition scan_start (w : World) : World :=
  extend 2 [EPoolConnect; EQuery SelectPositions] w.

Definition scan_positions (w : World) : gmap string lsn_text :=
  CDC.normalize_lsn <$> cdc_position (db w).

Definition cdc_config : CDC.CDCConfig :=
  {| CDC.postgresUrl := "postgresql://localhost/agentic";
     CDC.rabbitmqUrl := "amqp://localhost";
     CDC.pollIntervalMs := None |}.

Definition row_cliente_update : Row :=
  {| r_id := 5%N; r_event_type := "UPDATE"; r_entity_type := "Cliente";
     r_data := "c-5"; r_correlation_id := "corr-5" |}.

Definition row_cliente_insert : Row :=
  {| r_id := 7%N; r_event_type := "INSERT"; r_entity_type := "Cliente";
     r_data := "c-7"; r_correlation_id := "corr-7" |}.

Definition row_produto_insert : Row :=
  {| r_id := 3%N; r_event_type := "INSERT"; r_entity_type := "Produto";
     r_data := "p-3"; r_correlation_id := "corr-3" |}.

(** A connected service over a change log with the given rows and no
    cursor stored yet. *)
Definition log_world (log : list Row) : World :=
  set_db (fun d => {| event_log := log; cdc_position := cdc_position d |}) ready_world.

(** The broker's client throws on every message handed to it during the
    first five ticks of the clock, and accepts the later ones. *)
Definition first_send_fails_env : Env :=
  example_env (fun _ => Ok tt) (fun _ => None)
    (fun t => if Nat.leb t 4 then SendThrows "Channel closed" else SendTrue)
    (fun _ => Ok tt).

(** A connected service whose change log holds one pending [INSERT] row of
    [Cliente] and one of [Produto]. *)
Definition two_entity_world : World :=
  log_world [row_cliente_insert; row_produto_insert].

(** ** Further observations *)

Definition is_pool_connect (e : effect) : bool :=
  match e with EPoolConnect => true | _ => false end.

Definition is_release (e : effect) : bool :=
  match e with ERelease => true | _ => false end.

(** The effects a pass over one entity type may have: a query of the change
    log, messages handed to the broker, cursor writes and log lines. *)
Definition pass_effect (e : effect) : bool :=
  match e with
  | EPublish _ _ _ _ | ELog _ _ _
  | EQuery (SelectEventLog _ _) | EQuery (UpsertPosition _ _) => true
  | _ => false
  end.

(** The routing key of the events of a tracked entity type. *)
Definition event_key (t : CDC.Tracked) : string :=
  CDC.t_entity t +:+ "." +:+ CDC.t_type t.

(** The rows of entity [t] a scan started in [w] has to translate: the
    [INSERT] rows above the stored cursor, in ascending order of id. *)
Definition pending (t : CDC.Tracked) (w : World) : list Row :=
  translated t (scan_positions w) (event_log (db w)).

(** Nothing is left to translate for any entity type. *)
Definition quiescent (w : World) : Prop :=
  pending CDC.Cliente w = [] /\ pending CDC.Produto w = [] /\ pending CDC.Pedido w = [].

(** The envelope the service builds for a change-log row of entity [t]
    whose data parsed to [data], when the clock shows [clock]: a fresh id
    and the current time, the payload drawn from the data, the row's
    correlation id, and the source ['cdc']. *)
Definition row_event (env : Env) (t : CDC.Tracked) (row : Row) (data : json)
  (clock : nat) : DomainEvent :=
  {| e_id := uuidv4 env clock;
     e_type := CDC.t_type t;
     e_entity := CDC.t_entity t;
     e_timestamp := now env clock;
     e_data := CDC.t_payload t data;
     e_metadata := {| source := "cdc"; correlationId := r_correlation_id row;
                      userId := None; tenantId := None; version := 1 |} |}.

(** The queue [RabbitMQEventBus.subscribe] declares for a handler, and the
    key it binds it under. *)
Definition event_queue (env : Env) (handler : Handler) (eventType : string) : string :=
  "agentic." +:+ entityType env handler +:+ "." +:+ eventType.

Definition binding_key (env : Env) (handler : Handler) (eventType : string) : string :=
  entityType env handler +:+ "." +:+ eventType.

(** The registry after [handler] was pushed onto the list of [eventType]. *)
Definition register (handler : Handler) (eventType : string) (b : Bus) : Bus :=
  with_handlers
    (<[eventType := default [] (handlers b !! eventType) ++ [handler]]> (handlers b)) b.

(** The number of registrations a registry holds, over all event types. *)
Definition registrations (m : gmap string (list Handler)) : nat :=
  map_fold (fun _ arr sum => (sum + length arr)%nat) 0%nat m.

Definition is_amqp_connect (e : effect) : bool :=
  match e with EAmqpConnect _ => true | _ => false end.

Definition is_consume (e : effect) : bool :=
  match e with EConsume _ _ => true | _ => false end.

(** The steps of the [try] block of [connect] that come after the channel
    was created. *)
Definition after_channel (s : ConnectStep) : bool :=
  match s with
  | StepConnect | StepCreateChannel => false
  | _ => true
  end.

(** [this.isConnected && !!this.channel], for either bus. *)
Definition healthy (w : World) : bool :=
  isConnected (bus w) && bool_decide (is_Some (channel (bus w))).

(** The guard of [connect]: [this.isConnected && this.connection]. *)
Definition already_connected (w : World) : bool :=
  isConnected (bus w) && bool_decide (is_Some (connection (bus w))).


(** ** Further concrete inputs *)

(** A pending [INSERT] row of [Cliente] whose data is not JSON. *)
Definition row_cliente_garbled : Row :=
  {| r_id := 2%N; r_event_type := "INSERT"; r_entity_type := "Cliente";
     r_data := "not json"; r_correlation_id := "corr-2" |}.



(** ** Observing a process *)

(** The calls a computation adds to those of the process it starts in. *)
Definition calls_of {A} (m : Proc A) (p : Process) : list call :=
  drop (length (calls p)) (calls (snd (m p))).

Definition is_close (c : call) : bool :=
  match c with ChannelClose | ConnectionClose => true | _ => false end.

(** The closes that took effect among some calls. *)
Definition closes (cs : list call) : list call :=
  filter (fun c => is_close c = true) cs.

(** How the closes of [disconnect] go for a process in state [p]: the error
    of the close that rejects, if one does.  The channel is closed first,
    and the connection only after that close was accepted. *)
Definition close_failure (env : Env) (p : Process) : option error :=
  let t := tick (world p) in
  let second (t' : nat) :=
    if has_connection p
    then match rpc_outcome env t' with Throw e => Some e | Ok _ => None end
    else None in
  if has_channel p
  then match rpc_outcome env t with Throw e => Some e | Ok _ => second (S t) end
  else second t.

Definition started_log : call := Effect (ELog LInfo "✓ CDC Service started" []).
Definition start_failed_log : call := Effect (ELog LError "Failed to start CDC service" []).
Definition stopped_log : call := Effect (ELog LInfo "✓ CDC Service stopped" []).

(** A process that has done nothing yet around the world [w]. *)
Definition process_of (w : World) : Process :=
  {| world := w; isRunning := false; calls := [] |}.

(** The database answers, except at the second tick of the clock. *)
Definition probe_fails_env : Env :=
  example_env (fun _ => Ok tt) (fun _ => None) (fun _ => SendTrue)
    (fun t => if Nat.eqb t 1 then Throw "probe failed" else Ok tt).

(** ** Observing the dead-letter queue *)





(** ** Observing the gateway *)

Definition is_listen (c : call) : bool :=
  match c with Listen _ => true | _ => false end.


Definition gateway_failed_log : call := Effect (ELog LError "Failed to start API Gateway" []).
Definition gateway_stopped_log : call := Effect (ELog LInfo "✓ API Gateway stopped" []).

(** The page number asked for is small enough for the sums and products of
    [getPaginationParams] to be exact in double precision, as they are
    here. *)
Definition exact_page (query_page : option Z) : Prop :=
  forall n, query_page = Some n -> (n + 1) * 100 <= 2 ^ 53.

(** The queue of a command-bus subscription. *)
Definition command_queue (env : Env) (handler : Handler) (commandType : string) : string :=
  "agentic.commands." +:+ entityType env handler +:+ "." +:+ commandType.

(** ** Facts about traces and worlds *)

Lemma count_app p es fs : count p (es ++ fs) = (count p es + count p fs)%nat.
Proof. induction es as [|e es IH]; simpl; [done|]. rewrite IH. lia. Qed.

Lemma timeouts_app es fs : timeouts (es ++ fs) = timeouts es ++ timeouts fs.
Proof.
  induction es as [|e es IH]; simpl; [done|].
  destruct e; simpl; rewrite ?IH; done.
Qed.

Lemma count_none p es : Forall (fun e => p e = false) es -> count p es = 0%nat.
Proof. induction 1 as [|e es He _ IH]; simpl; [done|]. by rewrite He, IH. Qed.

Lemma extend_0_nil w : extend 0 [] w = w.
Proof. destruct w. unfold extend. simpl. by rewrite app_nil_r. Qed.

Lemma emit_extend e w : emit e w = extend 0 [e] w.
Proof. reflexivity. Qed.

Lemma next_tick_extend w : next_tick w = extend 1 [] w.
Proof. destruct w. unfold extend, next_tick. simpl. by rewrite app_nil_r. Qed.

Lemma extend_extend k es j fs w :
  extend k es (extend j fs w) = extend (k + j) (fs ++ es) w.
Proof.
  unfold extend. simpl. f_equal; [lia | by rewrite app_assoc].
Qed.

Lemma effects_of_extend {A} (m : M A) (w : World) r k es :
  m w = (r, extend k es w) -> effects_of m w = es.
Proof.
  intros H. unfold effects_of. rewrite H. simpl. apply drop_app_length.
Qed.

Lemma set_broker_extend f k es w :
  set_broker f (extend k es w) = extend k es (set_broker f w).
Proof. reflexivity. Qed.

Lemma set_bus_extend f k es w :
  set_bus f (extend k es w) = extend k es (set_bus f w).
Proof. reflexivity. Qed.

Lemma set_db_extend f k es w :
  set_db f (extend k es w) = extend k es (set_db f w).
Proof. reflexivity. Qed.

Ltac to_extend :=
  repeat first
    [ rewrite emit_extend
    | rewrite next_tick_extend
    | rewrite set_broker_extend
    | rewrite set_bus_extend
    | rewrite set_db_extend
    | rewrite extend_extend ].

(** Unfold the monad's plumbing. *)
Ltac run_monad :=
  repeat (progress (unfold try_catch, try_finally, bind, settle, logger, sleep,
                      act, ret, throw, channel_ack, channel_nack; simpl)).

(** ** The dispatcher: [handleWithRetry] and the consume callback *)

Section DispatcherFacts.
Variable env : Env.
Variable config : Config.

Lemma handleWithRetry_unfold handler event attempt w :
  EventBus.handleWithRetry env config handler event attempt w =
  match handle_outcome env (tick w) handler event with
  | Ok _ => (Ok tt, extend 1 [EHandle handler event] w)
  | Throw error =>
      let delayMs := cfg_retryDelayMs config * 2 ^ (attempt - 1) in
      if Z_lt_dec attempt (cfg_maxRetries config)
      then EventBus.handleWithRetry env config handler event (attempt + 1)
             (extend 1 [EHandle handler event;
                        ELog LWarn "Handler failed, retrying in ${delayMs}ms..."
                          [delayMs; attempt];
                        ESetTimeout delayMs] w)
      else (Throw error,
            extend 1 [EHandle handler event;
                      ELog LError "Handler failed after all retries"
                        [cfg_maxRetries config]] w)
  end.
Proof.
  simp handleWithRetry. unfold handler_handle.
  destruct (handle_outcome env (tick w) handler event) as [[]|error]; simpl.
  - by to_extend.
  - destruct (Z_lt_dec attempt (cfg_maxRetries config)); simpl; by to_extend.
Qed.

(** [j] failures, then a success, all within the attempt budget. *)
Lemma handleWithRetry_succeeds handler event (j : nat) :
  forall attempt w,
    attempt + Z.of_nat j <= cfg_maxRetries config ->
    (forall i, (i < j)%nat ->
       exists err, handle_outcome env (i + tick w) handler event = Throw err) ->
    handle_outcome env (j + tick w) handler event = Ok tt ->
    EventBus.handleWithRetry env config handler event attempt w =
    (Ok tt,
     extend (S j)
       (failed_attempts config handler event attempt j ++ [EHandle handler event]) w).
Proof.
  induction j as [|j IH]; intros attempt w Hle Hfail Hok.
  - rewrite handleWithRetry_unfold. simpl in Hok. by rewrite Hok.
  - rewrite handleWithRetry_unfold.
    destruct (Hfail 0%nat ltac:(lia)) as [err Herr]. simpl in Herr. rewrite Herr.
    cbv zeta. destruct (Z_lt_dec attempt (cfg_maxRetries config)); [|lia].
    rewrite IH.
    + rewrite extend_extend. simpl. do 2 f_equal. lia.
    + lia.
    + intros i Hi. destruct (Hfail (S i) ltac:(lia)) as [e He].
      exists e. simpl. rewrite <- He. f_equal. lia.
    + simpl. rewrite <- Hok. f_equal. lia.
Qed.




(** Whatever the handler does, [handleWithRetry] returns, touches nothing
    but the clock and the trace, its effects are decided by the clock alone,
    and it calls the handler at most [maxRetries] times (once if the budget
    is below one). *)
Lemma handleWithRetry_footprint handler event attempt w :
  exists r k es,
    (forall w2, tick w2 = tick w ->
       EventBus.handleWithRetry env config handler event attempt w2 = (r, extend k es w2))
    /\ Forall (fun e => retry_effect e = true) es
    /\ Z.of_nat (count is_handle es) <= Z.max 1 (cfg_maxRetries config - attempt + 1).
Proof.
  remember (Z.to_nat (cfg_maxRetries config - attempt)) as n eqn:Hn.
  revert attempt w Hn. induction n as [|n IH]; intros attempt w Hn.
  - destruct (handle_outcome env (tick w) handler event) as [[]|err] eqn:Hout.
    + exists (Ok tt), 1%nat, [EHandle handler event]. split; [|split].
      * intros w2 Hw2. rewrite handleWithRetry_unfold, Hw2, Hout. done.
      * repeat constructor.
      * simpl. lia.
    + exists (Throw err), 1%nat,
        [EHandle handler event;
         ELog LError "Handler failed after all retries" [cfg_maxRetries config]].
      split; [|split].
      * intros w2 Hw2. rewrite handleWithRetry_unfold, Hw2, Hout. cbv zeta.
        destruct (Z_lt_dec attempt (cfg_maxRetries config)); [lia|done].
      * repeat constructor.
      * simpl. lia.
  - destruct (handle_outcome env (tick w) handler event) as [[]|err] eqn:Hout.
    + exists (Ok tt), 1%nat, [EHandle handler event]. split; [|split].
      * intros w2 Hw2. rewrite handleWithRetry_unfold, Hw2, Hout. done.
      * repeat constructor.
      * simpl. lia.
    + set (delayMs := cfg_retryDelayMs config * 2 ^ (attempt - 1)).
      set (es0 := [EHandle handler event;
                   ELog LWarn "Handler failed, retrying in ${delayMs}ms..."
                     [delayMs; attempt];
                   ESetTimeout delayMs]).
      destruct (IH (attempt + 1) (extend 1 es0 w) ltac:(lia))
        as (r & k & es & Hrun & Hes & Hcount).
      exists r, (k + 1)%nat, (es0 ++ es). split; [|split].
      * intros w2 Hw2. rewrite handleWithRetry_unfold, Hw2, Hout. cbv zeta.
        destruct (Z_lt_dec attempt (cfg_maxRetries config)); [|lia].
        fold delayMs. fold es0. rewrite Hrun; [|simpl; lia].
        by rewrite extend_extend.
      * apply Forall_app. split; [repeat constructor | done].
      * rewrite count_app. simpl. lia.
Qed.

End DispatcherFacts.

Section CallbackFacts.
Variable env : Env.
Variable config : Config.

(** The consume callback, one case per way it can end. *)
Lemma onMessage_unfold handler msg w :
  EventBus.onMessage env config handler (Some msg) w =
  match JSON_parse_event env (content msg) with
  | Throw _ =>
      (Ok tt,
       extend 0 [ELog LError "Error processing event" [];
                 ENack (deliveryTag msg) false false]
         (set_broker (settle_delivery msg) w))
  | Ok event =>
      match EventBus.handleWithRetry env config handler event 1
              (extend 0 [ELog LDebug "Processing event" []] w) with
      | (Ok _, w1) =>
          (Ok tt,
           extend 0 [EAck (deliveryTag msg);
                     ELog LDebug "Event processed successfully" []]
             (set_broker (settle_delivery msg) w1))
      | (Throw _, w1) =>
          (Ok tt,
           extend 0 [ELog LError "Error processing event" [];
                     ENack (deliveryTag msg) false false]
             (set_broker (settle_delivery msg) w1))
      end
  end.
Proof.
  unfold EventBus.onMessage. run_monad.
  destruct (JSON_parse_event env (content msg)) as [event|err]; simpl.
  - rewrite emit_extend.
    destruct (EventBus.handleWithRetry env config handler event 1 _)
      as [[[]|e] w1]; simpl; by to_extend.
  - by to_extend.
Qed.

Lemma settlements_app es fs : settlements (es ++ fs) = settlements es ++ settlements fs.
Proof.
  induction es as [|e es IH]; simpl; [done|].
  destruct (is_ack e || is_nack e); simpl; by rewrite IH.
Qed.

Lemma settlements_retry es :
  Forall (fun e => retry_effect e = true) es -> settlements es = [].
Proof.
  induction 1 as [|e es He _ IH]; simpl; [done|].
  destruct e; simpl in *; try discriminate; done.
Qed.

(** The callback in closed form: it always returns, its effects are the
    [Processing event] line and those of [handleWithRetry] followed by one
    acknowledgement, or the error line and one negative acknowledgement
    alone; they depend on the clock only. *)
Lemma onMessage_footprint handler msg w :
  exists k es,
    (forall w2, tick w2 = tick w ->
       EventBus.onMessage env config handler (Some msg) w2 =
       (Ok tt, extend k es (set_broker (settle_delivery msg) w2)))
    /\ (settlements es = [EAck (deliveryTag msg)]
        \/ settlements es = [ENack (deliveryTag msg) false false])
    /\ Z.of_nat (count is_handle es) <= Z.max 1 (cfg_maxRetries config).
Proof.
  destruct (JSON_parse_event env (content msg)) as [event|err] eqn:Hparse.
  - destruct (handleWithRetry_footprint env config handler event 1
                (extend 0 [ELog LDebug "Processing event" []] w))
      as (r & k & es & Hrun & Hes & Hcount).
    destruct r as [[]|e].
    + exists (k + 0)%nat,
        (([ELog LDebug "Processing event" []] ++ es)
           ++ [EAck (deliveryTag msg); ELog LDebug "Event processed successfully" []]).
      split; [|split].
      * intros w2 Hw2. rewrite onMessage_unfold, Hparse.
        rewrite Hrun; [|simpl; lia]. by to_extend.
      * left. rewrite !settlements_app, (settlements_retry es Hes). done.
      * rewrite !count_app. simpl. lia.
    + exists (k + 0)%nat,
        (([ELog LDebug "Processing event" []] ++ es)
           ++ [ELog LError "Error processing event" [];
               ENack (deliveryTag msg) false false]).
      split; [|split].
      * intros w2 Hw2. rewrite onMessage_unfold, Hparse.
        rewrite Hrun; [|simpl; lia]. by to_extend.
      * right. rewrite !settlements_app, (settlements_retry es Hes). done.
      * rewrite !count_app. simpl. lia.
  - exists 0%nat, [ELog LError "Error processing event" [];
                   ENack (deliveryTag msg) false false].
    split; [|split].
    + intros w2 Hw2. by rewrite onMessage_unfold, Hparse.
    + by right.
    + simpl. lia.
Qed.

End CallbackFacts.

(** C2.  A delivery whose handler rejects attempts 1 and 2 and resolves on
    attempt 3 (with a budget [maxRetries] of at least 3, as the default is):
    the callback calls the handler exactly three times, waits
    [retryDelayMs * 2^(attempt-1)] after failed attempt 1 and after failed
    attempt 2, and acknowledges the delivery exactly once, without any
    negative acknowledgement.  The budget is the total number of attempts:
    the default budget is 3, and no delivery sees more handler calls than
    the budget. *)
Theorem C2_two_failures_then_ack (env : Env) (config : Config)
  (handler : Handler) (msg : Message) (event : DomainEvent) (w : World)
  (err1 err2 : error) :
  3 <= cfg_maxRetries config ->
  JSON_parse_event env (content msg) = Ok event ->
  handle_outcome env (tick w) handler event = Throw err1 ->
  handle_outcome env (1 + tick w) handler event = Throw err2 ->
  handle_outcome env (2 + tick w) handler event = Ok tt ->
  let base := cfg_retryDelayMs config in
  let run := EventBus.onMessage env config handler (Some msg) in
  fst (run w) = Ok tt
  /\ effects_of run w =
       [ELog LDebug "Processing event" [];
        EHandle handler event;
        ELog LWarn "Handler failed, retrying in ${delayMs}ms..." [base * 2 ^ (1 - 1); 1];
        ESetTimeout (base * 2 ^ (1 - 1));
        EHandle handler event;
        ELog LWarn "Handler failed, retrying in ${delayMs}ms..." [base * 2 ^ (2 - 1); 2];
        ESetTimeout (base * 2 ^ (2 - 1));
        EHandle handler event;
        EAck (deliveryTag msg);
        ELog LDebug "Event processed successfully" []]
  /\ count is_handle (effects_of run w) = 3%nat
  /\ settlements (effects_of run w) = [EAck (deliveryTag msg)]
  /\ timeouts (effects_of run w) = [base * 2 ^ (1 - 1); base * 2 ^ (2 - 1)]
  /\ cfg_maxRetries default_config = 3
  /\ (forall h m w0,
        Z.of_nat (count is_handle (effects_of (EventBus.onMessage env config h (Some m)) w0))
        <= cfg_maxRetries config).
Proof.
  intros Hbudget Hparse H1 H2 H3 base run.
  assert (Hrun : run w =
    (Ok tt,
     extend 3
       [ELog LDebug "Processing event" [];
        EHandle handler event;
        ELog LWarn "Handler failed, retrying in ${delayMs}ms..." [base * 2 ^ (1 - 1); 1];
        ESetTimeout (base * 2 ^ (1 - 1));
        EHandle handler event;
        ELog LWarn "Handler failed, retrying in ${delayMs}ms..." [base * 2 ^ (2 - 1); 2];
        ESetTimeout (base * 2 ^ (2 - 1));
        EHandle handler event;
        EAck (deliveryTag msg);
        ELog LDebug "Event processed successfully" []]
       (set_broker (settle_delivery msg) w))).
  { unfold run. rewrite onMessage_unfold, Hparse.
    rewrite (handleWithRetry_succeeds env config handler event 2).
    - by to_extend.
    - lia.
    - intros i Hi. simpl.
      destruct i as [|[|i]]; [by exists err1 | by exists err2 | lia].
    - done. }
  assert (Heff : effects_of run w = 
       [ELog LDebug "Processing event" [];
        EHandle handler event;
        ELog LWarn "Handler failed, retrying in ${delayMs}ms..." [base * 2 ^ (1 - 1); 1];
        ESetTimeout (base * 2 ^ (1 - 1));
        EHandle handler event;
        ELog LWarn "Handler failed, retrying in ${delayMs}ms..." [base * 2 ^ (2 - 1); 2];
        ESetTimeout (base * 2 ^ (2 - 1));
        EHandle handler event;
        EAck (deliveryTag msg);
        ELog LDebug "Event processed successfully" []]).
  { unfold effects_of. rewrite Hrun. simpl. apply drop_app_length. }
  split; [by rewrite Hrun|]. split; [done|]. rewrite Heff.
  split; [done|]. split; [done|]. split; [done|]. split; [done|].
  intros h m w0.
  destruct (onMessage_footprint env config h m w0) as (k & es & Hk & _ & Hcount).
  unfold effects_of. rewrite (Hk w0 eq_refl). simpl. rewrite drop_app_length. lia.
Qed.

(** C2, run: the default configuration and a handler that rejects twice. *)
Lemma C2_two_failures_then_ack_witness :
  count is_handle
    (effects_of (EventBus.onMessage flaky_handler_env default_config 1%nat (Some msg_E1))
       ready_world) = 3%nat
  /\ settlements
       (effects_of (EventBus.onMessage flaky_handler_env default_config 1%nat (Some msg_E1))
          ready_world) = [EAck 7%nat]
  /\ timeouts
       (effects_of (EventBus.onMessage flaky_handler_env default_config 1%nat (Some msg_E1))
          ready_world) = [5000; 10000].
Proof.
  destruct (C2_two_failures_then_ack flaky_handler_env default_config 1%nat msg_E1
              (envelope "E1" "X" "Order") ready_world "handler failed" "handler failed")
    as (_ & _ & Hcalls & Hack & Hwait & _).
  - vm_compute. discriminate.
  - reflexivity.
  - reflexivity.
  - reflexivity.
  - reflexivity.
  - split; [exact Hcalls|]. split; [exact Hack|exact Hwait].
Defined.



(** ** Connecting *)

Section ConnectFacts.
Variable env : Env.
Variable config : Config.
Variable names : Names.

Lemma connect_try_spec retries w :
  exists es w1,
    connect_try env config names retries w =
      (match connect_outcome env (tick w) with
       | None => Ok tt
       | Some (_, e) => Throw e
       end, w1)
    /\ tick w1 = S (tick w)
    /\ trace w1 = trace w ++ es
    /\ timeouts es = []
    /\ (connect_outcome env (tick w) = None -> isConnected (bus w1) = true).
Proof.
  unfold connect_try, setupExchanges, setupDLQ, await_step.
  destruct (connect_outcome env (tick w)) as [[s err]|].
  - destruct s; run_monad.
    all: eexists _, _; split; [reflexivity|]; simpl.
    all: split; [done|].
    all: split; [rewrite <- ?app_assoc; reflexivity|].
    all: split; [reflexivity|done].
  - run_monad. eexists _, _; split; [reflexivity|]; simpl.
    split; [done|]. split; [rewrite <- ?app_assoc; reflexivity|].
    split; [reflexivity|done].
Qed.

Lemma connect_loop_eq retries w :
  connect_loop env config names retries w =
  if Z_lt_dec retries connect_maxRetries
  then match connect_try env config names retries w with
       | (Ok _, w1) => (Ok tt, w1)
       | (Throw _, w1) =>
           let retries' := retries + 1 in
           let delayMs := Z.min (1000 * 2 ^ retries') 30000 in
           let w2 := emit (ELog LWarn "RabbitMQ connection failed, retrying in ${delayMs}ms..."
                             [delayMs; retries']) w1 in
           if Z.geb retries' connect_maxRetries
           then (Throw (msg_failed names), w2)
           else connect_loop env config names retries' (emit (ESetTimeout delayMs) w2)
       end
  else (Ok tt, w).
Proof.
  simp connect_loop.
  destruct (Z_lt_dec retries connect_maxRetries); simpl; [|done].
  destruct (connect_try env config names retries w) as [[[]|e] w1]; simpl; done.
Qed.

(** [k] failing runs of the [try] block, then one that succeeds, before the
    attempt ceiling is reached. *)
Lemma connect_loop_succeeds (k : nat) :
  forall retries w,
    retries + Z.of_nat k < connect_maxRetries ->
    (forall i, (i < k)%nat -> connect_outcome env (i + tick w) <> None) ->
    connect_outcome env (k + tick w) = None ->
    exists es w',
      connect_loop env config names retries w = (Ok tt, w')
      /\ trace w' = trace w ++ es
      /\ timeouts es = delays_from retries k
      /\ tick w' = (S k + tick w)%nat.
Proof.
  induction k as [|k IH]; intros retries w Hlt Hfail Hok.
  - rewrite connect_loop_eq.
    destruct (Z_lt_dec retries connect_maxRetries); [|lia].
    destruct (connect_try_spec retries w) as (es & w1 & Hrun & Htick & Htrace & Hto & _).
    simpl in Hok. rewrite Hok in Hrun. rewrite Hrun.
    exists es, w1. done.
  - rewrite connect_loop_eq.
    destruct (Z_lt_dec retries connect_maxRetries); [|lia].
    destruct (connect_try_spec retries w) as (es & w1 & Hrun & Htick & Htrace & Hto & _).
    pose proof (Hfail 0%nat ltac:(lia)) as H0. simpl in H0.
    destruct (connect_outcome env (tick w)) as [[s err]|]; [|done].
    rewrite Hrun. cbv zeta.
    rewrite Z.geb_leb. destruct (Z.leb_spec connect_maxRetries (retries + 1)); [lia|].
    set (delayMs := Z.min (1000 * 2 ^ (retries + 1)) 30000).
    set (w2 := emit (ESetTimeout delayMs) _).
    destruct (IH (retries + 1) w2) as (es' & w' & Hrun' & Htrace' & Hto' & Htick').
    + lia.
    + intros i Hi. unfold w2. simpl. rewrite Htick.
      replace (i + S (tick w))%nat with (S i + tick w)%nat by lia. apply Hfail. lia.
    + unfold w2. simpl. rewrite Htick.
      replace (k + S (tick w))%nat with (S k + tick w)%nat by lia. done.
    + exists (es ++ [ELog LWarn "RabbitMQ connection failed, retrying in ${delayMs}ms..."
                       [delayMs; retries + 1]; ESetTimeout delayMs] ++ es'), w'.
      split; [done|]. split; [|split].
      * rewrite Htrace'. unfold w2. simpl. rewrite Htrace.
        by rewrite <- !app_assoc.
      * rewrite !timeouts_app, Hto, Hto'. cbn [timeouts app].
        unfold delays_from. cbn [seq map]. f_equal.
        -- unfold delayMs. do 3 f_equal. lia.
        -- rewrite <- seq_shift, map_map. apply map_ext. intros i. do 3 f_equal. lia.
      * rewrite Htick'. unfold w2. simpl. rewrite Htick. lia.
Qed.

(** Failing runs of the [try] block up to the attempt ceiling. *)
Lemma connect_loop_exhausts (k : nat) :
  forall retries w,
    0 <= retries ->
    retries + Z.of_nat (S k) = connect_maxRetries ->
    (forall i, (i < S k)%nat -> connect_outcome env (i + tick w) <> None) ->
    exists es w',
      connect_loop env config names retries w = (Throw (msg_failed names), w')
      /\ trace w' = trace w ++ es
      /\ timeouts es = delays_from retries k
      /\ tick w' = (S k + tick w)%nat.
Proof.
  induction k as [|k IH]; intros retries w Hpos Hsum Hfail.
  - rewrite connect_loop_eq.
    destruct (Z_lt_dec retries connect_maxRetries); [|lia].
    destruct (connect_try_spec retries w) as (es & w1 & Hrun & Htick & Htrace & Hto & _).
    pose proof (Hfail 0%nat ltac:(lia)) as H0. simpl in H0.
    destruct (connect_outcome env (tick w)) as [[s err]|]; [|done].
    rewrite Hrun. cbv zeta.
    rewrite Z.geb_leb. destruct (Z.leb_spec connect_maxRetries (retries + 1)); [|lia].
    eexists _, _. split; [reflexivity|]. split; [|split].
    + simpl. rewrite Htrace. by rewrite <- app_assoc.
    + rewrite timeouts_app, Hto. done.
    + simpl. lia.
  - rewrite connect_loop_eq.
    destruct (Z_lt_dec retries connect_maxRetries); [|lia].
    destruct (connect_try_spec retries w) as (es & w1 & Hrun & Htick & Htrace & Hto & _).
    pose proof (Hfail 0%nat ltac:(lia)) as H0. simpl in H0.
    destruct (connect_outcome env (tick w)) as [[s err]|]; [|done].
    rewrite Hrun. cbv zeta.
    rewrite Z.geb_leb. destruct (Z.leb_spec connect_maxRetries (retries + 1)); [lia|].
    set (delayMs := Z.min (1000 * 2 ^ (retries + 1)) 30000).
    set (w2 := emit (ESetTimeout delayMs) _).
    destruct (IH (retries + 1) w2) as (es' & w' & Hrun' & Htrace' & Hto' & Htick').
    + lia.
    + lia.
    + intros i Hi. unfold w2. simpl. rewrite Htick.
      replace (i + S (tick w))%nat with (S i + tick w)%nat by lia. apply Hfail. lia.
    + exists (es ++ [ELog LWarn "RabbitMQ connection failed, retrying in ${delayMs}ms..."
                       [delayMs; retries + 1]; ESetTimeout delayMs] ++ es'), w'.
      split; [done|]. split; [|split].
      * rewrite Htrace'. unfold w2. simpl. rewrite Htrace.
        by rewrite <- !app_assoc.
      * rewrite !timeouts_app, Hto, Hto'. cbn [timeouts app].
        unfold delays_from. cbn [seq map]. f_equal.
        -- unfold delayMs. do 3 f_equal. lia.
        -- rewrite <- seq_shift, map_map. apply map_ext. intros i. do 3 f_equal. lia.
      * rewrite Htick'. unfold w2. simpl. rewrite Htick. lia.
Qed.

(** [connect] on a bus that is not connected, against [k] failing attempts
    in a row (followed by a successful one when [k < 5]). *)
Lemma connect_backoff (k : nat) w :
  isConnected (bus w) && bool_decide (is_Some (connection (bus w))) = false ->
  (k <= 5)%nat ->
  (forall i, (i < k)%nat -> connect_outcome env (i + tick w) <> None) ->
  ((k < 5)%nat -> connect_outcome env (k + tick w) = None) ->
  connect_run_shape (connect env config names) (msg_failed names) k w.
Proof.
  intros Hguard Hk Hfail Hok. unfold connect_run_shape, effects_of, connect.
  rewrite Hguard.
  destruct (Nat.ltb_spec k 5) as [Hlt|Hge].
  - destruct (connect_loop_succeeds k 0 w) as (es & w' & Hrun & Htrace & Hto & Htick).
    + unfold connect_maxRetries. lia.
    + done.
    + by apply Hok.
    + rewrite Hrun. simpl. rewrite Htrace, drop_app_length, Hto, Htick.
      split; [done|]. split; [|lia].
      rewrite Nat.min_l by lia. unfold delays_from.
      rewrite <- seq_shift, map_map. apply map_ext. intros i. do 3 f_equal. lia.
  - assert (k = 5%nat) as -> by lia.
    destruct (connect_loop_exhausts 4 0 w) as (es & w' & Hrun & Htrace & Hto & Htick).
    + lia.
    + reflexivity.
    + done.
    + rewrite Hrun. simpl. rewrite Htrace, drop_app_length, Hto, Htick.
      split; [done|]. split; [reflexivity|lia].
Qed.

End ConnectFacts.

(** C4, as the code has it.  [connect] of either bus runs its [try] block at
    most five times.  After failure number [n] (for [n] from 1 to 4) it waits
    [min(1000 * 2^n, 30000)] ms, so the waits are 2 s, 4 s, 8 s, 16 s; the
    fifth failure in a row throws the fatal error at once, without a wait.
    [k] failures followed by a success give the first [k] of these waits
    and a normal return. *)
Theorem C4_connect_backoff (env : Env) (config : Config) (k : nat) (w : World) :
  isConnected (bus w) && bool_decide (is_Some (connection (bus w))) = false ->
  (k <= 5)%nat ->
  (forall i, (i < k)%nat -> connect_outcome env (i + tick w) <> None) ->
  ((k < 5)%nat -> connect_outcome env (k + tick w) = None) ->
  connect_run_shape (EventBus.connect env config)
    "Failed to connect to RabbitMQ after 5 attempts" k w
  /\ connect_run_shape (CommandBus.connect env config)
       "Failed to connect to RabbitMQ (CommandBus) after 5 attempts" k w
  /\ map (fun n => Z.min (1000 * 2 ^ Z.of_nat n) 30000) (seq 1 4)
     = [2000; 4000; 8000; 16000].
Proof.
  intros Hguard Hk Hfail Hok. split; [|split].
  - by apply (connect_backoff env config EventBus.names).
  - by apply (connect_backoff env config CommandBus.names).
  - reflexivity.
Qed.

(** C4, run: the broker refuses every connection; and the broker refuses
    two connections and accepts the third. *)
Lemma C4_connect_backoff_witness :
  connect_run_shape (EventBus.connect unreachable_env default_config)
    "Failed to connect to RabbitMQ after 5 attempts" 5 fresh_world
  /\ connect_run_shape (CommandBus.connect unreachable_env default_config)
       "Failed to connect to RabbitMQ (CommandBus) after 5 attempts" 5 fresh_world
  /\ connect_run_shape (EventBus.connect refuses_twice_env default_config)
       "Failed to connect to RabbitMQ after 5 attempts" 2 fresh_world.
Proof.
  destruct (C4_connect_backoff unreachable_env default_config 5 fresh_world)
    as (Hevent & Hcommand & _).
  - reflexivity.
  - lia.
  - intros i _. discriminate.
  - lia.
  - destruct (C4_connect_backoff refuses_twice_env default_config 2 fresh_world)
      as (Htwice & _).
    + reflexivity.
    + lia.
    + intros [|[|i]] Hi; [discriminate | discriminate | lia].
    + reflexivity.
    + split; [exact Hevent|]. split; [exact Hcommand | exact Htwice].
Defined.

(** C4 as stated fails: against five refused connections in a row the event
    bus waits 2 s, 4 s, 8 s and 16 s (not 1 s, 2 s, 4 s, 8 s, 16 s), and the
    fifth failure, not a sixth, throws the fatal error, after five runs of
    the [try] block. *)
Lemma C4_counterexample :
  (forall i, (i < 5)%nat -> connect_outcome unreachable_env (i + tick fresh_world) <> None)
  /\ timeouts (effects_of (EventBus.connect unreachable_env default_config) fresh_world)
     = [2000; 4000; 8000; 16000]
  /\ timeouts (effects_of (EventBus.connect unreachable_env default_config) fresh_world)
     <> [1000; 2000; 4000; 8000; 16000]
  /\ fst (EventBus.connect unreachable_env default_config fresh_world)
     = Throw "Failed to connect to RabbitMQ after 5 attempts"
  /\ tick (snd (EventBus.connect unreachable_env default_config fresh_world)) = 5%nat.
Proof.
  split; [intros i _; discriminate|].
  split; [by vm_compute|]. split; [by vm_compute|]. split; by vm_compute.
Qed.

(** ** Publishing *)

Section PublishFacts.
Variable env : Env.

(** [RabbitMQEventBus.publish], one case per way it can end. *)
Lemma event_publish_eq event w :
  EventBus.publish env event w =
  match channel (bus w) with
  | None => (Throw "Channel not initialized", w)
  | Some _ =>
      match JSON_stringify env event with
      | Throw err => (Throw err, extend 0 [ELog LError "Failed to publish event" []] w)
      | Ok body =>
          let sent := EPublish "agentic.events" (routing_key event) body
                        (event_headers event) in
          match send_outcome env (tick w) with
          | SendTrue =>
              (Ok tt, extend 1 [sent; ELog LDebug "Event published" []] w)
          | SendFalse =>
              (Ok tt, extend 1 [sent; ELog LWarn "Publisher backpressure detected" [];
                                ELog LDebug "Event published" []] w)
          | SendThrows err =>
              (Throw err, extend 1 [ELog LError "Failed to publish event" []] w)
          end
      end
  end.
Proof.
  unfold EventBus.publish, channel_publish, routing_key, event_headers.
  destruct (channel (bus w)); [|done]. run_monad.
  destruct (JSON_stringify env event) as [body|err]; simpl; [|by to_extend].
  destruct (send_outcome env (tick w)); simpl; by to_extend.
Qed.

(** [RabbitMQCommandBus.publish], likewise. *)
Lemma command_publish_eq command w :
  CommandBus.publish env command w =
  match channel (bus w) with
  | None => (Throw "Channel not initialized", w)
  | Some _ =>
      match JSON_stringify env command with
      | Throw err => (Throw err, extend 0 [ELog LError "Failed to publish command" []] w)
      | Ok body =>
          let sent := EPublish "agentic.commands" (routing_key command) body
                        (command_headers command) in
          match send_outcome env (tick w) with
          | SendTrue =>
              (Ok tt, extend 1 [sent; ELog LDebug "✓ Command published" []] w)
          | SendFalse =>
              (Throw "Failed to publish command to RabbitMQ",
               extend 1 [sent; ELog LError "Failed to publish command" []] w)
          | SendThrows err =>
              (Throw err, extend 1 [ELog LError "Failed to publish command" []] w)
          end
      end
  end.
Proof.
  unfold CommandBus.publish, channel_publish, routing_key, command_headers.
  destruct (channel (bus w)); [|done]. run_monad.
  destruct (JSON_stringify env command) as [body|err]; simpl; [|by to_extend].
  destruct (send_outcome env (tick w)); simpl; by to_extend.
Qed.

Lemma event_publish_footprint event w :
  exists k es, EventBus.publish env event w =
               (fst (EventBus.publish env event w), extend k es w).
Proof.
  rewrite event_publish_eq.
  destruct (channel (bus w)).
  - destruct (JSON_stringify env event); [|by eexists _, _].
    cbv zeta. destruct (send_outcome env (tick w)); by eexists _, _.
  - exists 0%nat, []. by rewrite extend_0_nil.
Qed.

Lemma command_publish_footprint command w :
  exists k es, CommandBus.publish env command w =
               (fst (CommandBus.publish env command w), extend k es w).
Proof.
  rewrite command_publish_eq.
  destruct (channel (bus w)).
  - destruct (JSON_stringify env command); [|by eexists _, _].
    cbv zeta. destruct (send_outcome env (tick w)); by eexists _, _.
  - exists 0%nat, []. by rewrite extend_0_nil.
Qed.

End PublishFacts.

(** C7, as the code has it.  On both buses a missing channel, an encoding
    error and an exception of the send primitive reach the caller of
    [publish] as an error, and [publish] calls the send primitive at most
    once (no retry).  When the send primitive returns [false] the command
    bus throws, while the event bus logs a backpressure warning and returns
    normally. *)
Theorem C7_publish_outcome (env : Env) (event : DomainEvent) (w : World) :
  fst (EventBus.publish env event w) =
    match channel (bus w) with
    | None => Throw "Channel not initialized"
    | Some _ =>
        match JSON_stringify env event with
        | Throw err => Throw err
        | Ok _ =>
            match send_outcome env (tick w) with
            | SendThrows err => Throw err
            | SendFalse => Ok tt
            | SendTrue => Ok tt
            end
        end
    end
  /\ fst (CommandBus.publish env event w) =
       match channel (bus w) with
       | None => Throw "Channel not initialized"
       | Some _ =>
           match JSON_stringify env event with
           | Throw err => Throw err
           | Ok _ =>
               match send_outcome env (tick w) with
               | SendThrows err => Throw err
               | SendFalse => Throw "Failed to publish command to RabbitMQ"
               | SendTrue => Ok tt
               end
           end
       end
  /\ (tick (snd (EventBus.publish env event w)) <= S (tick w))%nat
  /\ (tick (snd (CommandBus.publish env event w)) <= S (tick w))%nat
  /\ (count is_publish (effects_of (EventBus.publish env event) w) <= 1)%nat
  /\ (count is_publish (effects_of (CommandBus.publish env event) w) <= 1)%nat.
Proof.
  unfold effects_of.
  rewrite event_publish_eq, command_publish_eq.
  destruct (channel (bus w)).
  - destruct (JSON_stringify env event) as [body|err].
    + cbv zeta. destruct (send_outcome env (tick w)); simpl;
        rewrite ?drop_app_length; simpl; repeat split; lia.
    + simpl. rewrite ?drop_app_length. simpl. repeat split; lia.
  - simpl. rewrite drop_all. simpl. repeat split; lia.
Qed.

(** C7 as stated fails on the event bus: the send primitive reports failure
    (it returns [false]) and [publish] returns normally. *)
Lemma C7_counterexample :
  channel (bus ready_world) = Some 0%nat
  /\ JSON_stringify backpressure_env (envelope "E1" "X" "Order") = Ok "E1"
  /\ send_outcome backpressure_env (tick ready_world) = SendFalse
  /\ fst (EventBus.publish backpressure_env (envelope "E1" "X" "Order") ready_world)
     = Ok tt.
Proof. repeat split. Qed.

(** Calls made one after the other by [xs.map(f)]: when a call of [f]
    touches the clock and the trace only, so does the whole map, and every
    item is settled on its own. *)
Lemma map_settled_independent {A B} (f : A -> M B) :
  (forall x w, exists k es, f x w = (fst (f x w), extend k es w)) ->
  forall xs w,
    exists k es,
      map_settled f xs w = (fst (map_settled f xs w), extend k es w)
      /\ settled_independently f xs w (fst (map_settled f xs w)) es.
Proof.
  intros Hf xs. induction xs as [|x rest IH]; intros w.
  - exists 0%nat, []. simpl. rewrite extend_0_nil. split; [done|].
    split; [done|]. intros i x Hx. by rewrite lookup_nil in Hx.
  - destruct (Hf x w) as (k1 & es1 & H1).
    destruct (IH (extend k1 es1 w)) as (k2 & es2 & H2 & Hlen & Hitems).
    exists (k2 + k1)%nat, (es1 ++ es2).
    simpl. rewrite H1. rewrite H2. simpl. rewrite extend_extend.
    split; [done|]. split; [simpl; by rewrite Hlen|].
    intros [|i] y Hy; simpl in Hy.
    + injection Hy as <-. exists 0%nat, [], es2. rewrite extend_0_nil. simpl.
      split; [done|]. by rewrite (effects_of_extend _ _ _ _ _ H1).
    + destruct (Hitems i y Hy) as (k & pre & post & Hr & Hes).
      exists (k + k1)%nat, (es1 ++ pre), post.
      rewrite extend_extend in Hr, Hes. simpl.
      split; [done|]. rewrite Hes. by rewrite <- app_assoc.
Qed.

(** C8, as the code has it.  [publishBatch] of either bus calls [publish]
    once for every item, whatever the other items did, and what an item
    sent stays sent.  The event bus then returns normally in every case: the
    failures are only counted in a warning line.  The command bus throws
    the error of the first failing item (and only that one) after all items
    ran.  Neither hands the caller a list of failures. *)
Theorem C8_publishBatch_outcome (env : Env) (events : list DomainEvent) (w : World) :
  (let rs := fst (map_settled (EventBus.publish env) events w) in
   let failed := filter (fun r => rejected r = true) rs in
   exists k es,
     settled_independently (EventBus.publish env) events w rs es
     /\ EventBus.publishBatch env events w =
        (Ok tt,
         extend k
           (es ++ if Nat.ltb 0 (length failed)
                  then [ELog LWarn "${failed.length}/${events.length} events failed to publish"
                          [Z.of_nat (length failed); Z.of_nat (length events)]]
                  else []) w))
  /\ (let rs := fst (map_settled (CommandBus.publish env) events w) in
      exists k es,
        settled_independently (CommandBus.publish env) events w rs es
        /\ CommandBus.publishBatch env events w =
           match first_rejection rs with
           | Some e =>
               (Throw e,
                extend k (es ++ [ELog LError "Failed to publish command batch" []]) w)
           | None =>
               (Ok tt,
                extend k (es ++ [ELog LDebug "✓ ${commands.length} commands published in batch"
                                   [Z.of_nat (length events)]]) w)
           end).
Proof.
  split.
  - destruct (map_settled_independent (EventBus.publish env)
                (event_publish_footprint env) events w) as (k & es & Hrun & Hind).
    cbv zeta. exists (0 + k)%nat, es. split; [done|].
    unfold EventBus.publishBatch, allSettled. run_monad. rewrite Hrun. simpl.
    destruct (Nat.ltb 0 _); simpl.
    + by to_extend.
    + by rewrite app_nil_r.
  - destruct (map_settled_independent (CommandBus.publish env)
                (command_publish_footprint env) events w) as (k & es & Hrun & Hind).
    cbv zeta. exists (0 + k)%nat, es. split; [done|].
    unfold CommandBus.publishBatch, CommandBus.all. run_monad. rewrite Hrun. simpl.
    destruct (first_rejection _); simpl; by to_extend.
Qed.

(** C8 as stated fails: in a batch of two on the event bus the first item
    cannot be encoded and its [publish] throws, the second is sent, and
    [publishBatch] returns [undefined], exactly as it does for a batch
    without any failure. *)
Lemma C8_counterexample :
  fst (EventBus.publish calm_env (envelope "cyclic" "X" "Order") ready_world)
    = Throw "TypeError: Converting circular structure to JSON"
  /\ EventBus.publishBatch calm_env
       [envelope "cyclic" "X" "Order"; envelope "E1" "X" "Order"] ready_world
     = (Ok tt,
        extend 1
          [ELog LError "Failed to publish event" [];
           EPublish "agentic.events" "Order.X" "E1"
             [("x-event-id", "E1"); ("x-correlation-id", "corr-1")];
           ELog LDebug "Event published" [];
           ELog LWarn "${failed.length}/${events.length} events failed to publish" [1; 2]]
          ready_world)
  /\ fst (EventBus.publishBatch calm_env [envelope "E1" "X" "Order"] ready_world) = Ok tt.
Proof. repeat split. Qed.

(** ** Draining the dead-letter queue *)

Section DrainFacts.
Variable env : Env.

Lemma getDLQMessages_loop_eq limit i messages w :
  EventBus.getDLQMessages_loop env limit i messages w =
  if Z_lt_dec i limit
  then match default [] (ready (broker w) !! "agentic.dlq") with
       | [] => (Ok messages, extend 0 [EGet "agentic.dlq"] w)
       | msg :: rest =>
           let w1 := set_broker (fun b =>
                       with_unacked (unacked b ++ [("agentic.dlq", msg)])
                         (with_ready (<["agentic.dlq" := rest]> (ready b)) b))
                       (extend 0 [EGet "agentic.dlq"] w) in
           match JSON_parse_event env (content msg) with
           | Ok event =>
               EventBus.getDLQMessages_loop env limit (i + 1) (messages ++ [event]) w1
           | Throw _ =>
               EventBus.getDLQMessages_loop env limit (i + 1) messages
                 (extend 0 [ELog LWarn "Invalid message format in DLQ" []] w1)
           end
       end
  else (Ok messages, w).
Proof.
  simp getDLQMessages_loop.
  destruct (Z_lt_dec i limit); simpl; [|done].
  unfold channel_get. simpl.
  destruct (default [] (ready (broker w) !! "agentic.dlq")) as [|msg rest]; simpl; [done|].
  destruct (JSON_parse_event env (content msg)); simpl; done.
Qed.

(** The loop never acknowledges anything, leaves the bus object alone, and
    returns at most [limit - i] more envelopes. *)
Lemma getDLQMessages_loop_footprint limit i messages w :
  exists ms w' es,
    EventBus.getDLQMessages_loop env limit i messages w = (Ok ms, w')
    /\ bus w' = bus w
    /\ trace w' = trace w ++ es
    /\ settlements es = []
    /\ (length ms <= length messages + Z.to_nat (limit - i))%nat.
Proof.
  remember (Z.to_nat (limit - i)) as n eqn:Hn.
  revert i messages w Hn. induction n as [|n IH]; intros i messages w Hn.
  - rewrite getDLQMessages_loop_eq. destruct (Z_lt_dec i limit); [lia|].
    exists messages, w, []. rewrite app_nil_r. repeat split; lia.
  - rewrite getDLQMessages_loop_eq. destruct (Z_lt_dec i limit); [|lia].
    destruct (default [] (ready (broker w) !! "agentic.dlq")) as [|msg rest].
    + eexists messages, _, [EGet "agentic.dlq"]. split; [reflexivity|].
      repeat split; simpl; lia.
    + cbv zeta. destruct (JSON_parse_event env (content msg)) as [event|err].
      * match goal with |- context [EventBus.getDLQMessages_loop _ _ _ _ ?w1] =>
          destruct (IH (i + 1) (messages ++ [event]) w1 ltac:(lia))
            as (ms & w' & es & Hrun & Hbus & Htrace & Hset & Hlen)
        end.
        exists ms, w', ([EGet "agentic.dlq"] ++ es). split; [done|].
        split; [by rewrite Hbus|]. split; [|split].
        -- rewrite Htrace. simpl. by rewrite <- app_assoc.
        -- simpl. done.
        -- rewrite length_app in Hlen. simpl in Hlen. lia.
      * match goal with |- context [EventBus.getDLQMessages_loop _ _ _ _ ?w1] =>
          destruct (IH (i + 1) messages w1 ltac:(lia))
            as (ms & w' & es & Hrun & Hbus & Htrace & Hset & Hlen)
        end.
        exists ms, w',
          ([EGet "agentic.dlq"; ELog LWarn "Invalid message format in DLQ" []] ++ es).
        split; [done|]. split; [by rewrite Hbus|]. split; [|split].
        -- rewrite Htrace. simpl. by rewrite <- !app_assoc.
        -- simpl. done.
        -- lia.
Qed.

(** Whatever the queue holds, [getDLQMessages] gives no message back to it:
    it sends no negative acknowledgement at all.  And as soon as one entry
    was parsed, the call ends in the [TypeError] of its first [nack]. *)
Lemma getDLQMessages_never_requeues limit w :
  settlements (effects_of (EventBus.getDLQMessages env limit) w) = []
  /\ (forall ms w1,
        channel (bus w) <> None ->
        EventBus.getDLQMessages_loop env (default 10 limit) 0 [] w = (Ok ms, w1) ->
        ms <> [] ->
        EventBus.getDLQMessages env limit w =
        (Throw "TypeError: Cannot read properties of undefined (reading 'deliveryTag')", w1)).
Proof.
  destruct (getDLQMessages_loop_footprint (default 10 limit) 0 [] w)
    as (ms & w' & es & Hrun & Hbus & Htrace & Hset & _).
  assert (Hcall : channel (bus w) <> None ->
            EventBus.getDLQMessages env limit w =
            (match ms with
             | [] => Ok []
             | _ => Throw "TypeError: Cannot read properties of undefined (reading 'deliveryTag')"
             end, w')).
  { intros Hch. unfold EventBus.getDLQMessages.
    destruct (channel (bus w)) as [c|] eqn:Hc; [|done].
    run_monad. rewrite Hrun. simpl.
    destruct ms as [|m rest]; simpl; [done|].
    unfold bind. rewrite Hbus, Hc. done. }
  split.
  - unfold effects_of. destruct (channel (bus w)) as [c|] eqn:Hc.
    + rewrite Hcall by done. simpl. by rewrite Htrace, drop_app_length.
    + unfold EventBus.getDLQMessages. rewrite Hc. simpl. by rewrite drop_all.
  - intros ms1 w1 Hch Hrun1 Hne. rewrite Hrun in Hrun1.
    injection Hrun1 as <- <-. rewrite Hcall by done.
    by destruct ms.
Qed.

End DrainFacts.

(** C9, the code at a queue that holds one well-formed envelope: the call
    takes the message off the queue, then hands the parsed envelope (not the
    broker message) to [nack], which throws.  The caller gets a [TypeError]
    instead of the envelope; nothing is acknowledged either way, so the
    message stays an outstanding delivery and the queue is empty. *)
Theorem C9_drain_takes_the_message :
  EventBus.getDLQMessages calm_env None dlq_world =
    (Throw "TypeError: Cannot read properties of undefined (reading 'deliveryTag')",
     set_broker (fun b =>
                   with_unacked [("agentic.dlq", msg_E1)]
                     (with_ready {[ "agentic.dlq" := [] ]} b))
       (extend 0 [EGet "agentic.dlq"; EGet "agentic.dlq"] dlq_world))
  /\ ready (broker dlq_world) !! "agentic.dlq" = Some [msg_E1]
  /\ ready (broker (snd (EventBus.getDLQMessages calm_env None dlq_world)))
       !! "agentic.dlq" = Some []
  /\ unacked (broker (snd (EventBus.getDLQMessages calm_env None dlq_world)))
     = [("agentic.dlq", msg_E1)]
  /\ EventBus.getDLQMessages calm_env None dlq_garbled_world =
       (Ok [],
        set_broker (fun b =>
                      with_unacked [("agentic.dlq", msg_garbled)]
                        (with_ready {[ "agentic.dlq" := [] ]} b))
          (extend 0 [EGet "agentic.dlq";
                     ELog LWarn "Invalid message format in DLQ" [];
                     EGet "agentic.dlq"] dlq_garbled_world)).
Proof. repeat split. Qed.

(** ** Unsubscribing *)

Section UnsubscribeFacts.
Variable env : Env.
Variable config : Config.

Lemma indexOf_lookup x xs i : indexOf x xs = Some i -> xs !! i = Some x.
Proof.
  revert i. induction xs as [|y rest IH]; intros i; simpl; [done|].
  destruct (decide (y = x)) as [->|Hne].
  - by intros [= <-].
  - destruct (indexOf x rest) as [j|]; simpl; [|done].
    intros [= <-]. simpl. by apply IH.
Qed.

(** Removing the first occurrence of [x] leaves every other element, with
    its multiplicity and in its order. *)
Lemma delete_indexOf_others x xs i :
  indexOf x xs = Some i ->
  filter (fun y => y <> x) (delete i xs) = filter (fun y => y <> x) xs.
Proof.
  revert i. induction xs as [|y rest IH]; intros i; simpl; [done|].
  destruct (decide (y = x)) as [->|Hne].
  - intros [= <-]. simpl. by rewrite filter_cons_False by (by intros []).
  - destruct (indexOf x rest) as [j|] eqn:Hj; simpl; [|done].
    intros [= <-]. simpl. rewrite !filter_cons_True by done.
    f_equal. by apply IH.
Qed.

(** [unsubscribe] in closed form. *)
Lemma unsubscribe_eq handler eventType w :
  EventBus.unsubscribe handler eventType w =
  match indexOf handler (default [] (handlers (bus w) !! eventType)) with
  | Some index =>
      (Ok tt,
       extend 0 [ELog LInfo "✓ Handler unsubscribed" []]
         (set_bus (fun b =>
            with_handlers
              (<[eventType := delete index (default [] (handlers b !! eventType))]>
                 (handlers b)) b) w))
  | None => (Ok tt, w)
  end.
Proof.
  unfold EventBus.unsubscribe.
  destruct (indexOf handler _) as [index|]; [|done].
  run_monad. by to_extend.
Qed.

(** The first thing [handleWithRetry] does is call the handler. *)
Lemma handleWithRetry_calls_handler handler event attempt w :
  exists r k es,
    EventBus.handleWithRetry env config handler event attempt w =
    (r, extend k (EHandle handler event :: es) w).
Proof.
  rewrite handleWithRetry_unfold.
  destruct (handle_outcome env (tick w) handler event) as [[]|err].
  - by eexists _, _, _.
  - cbv zeta. destruct (Z_lt_dec attempt (cfg_maxRetries config)).
    + match goal with |- context [EventBus.handleWithRetry _ _ _ _ _ ?w1] =>
        destruct (handleWithRetry_footprint env config handler event (attempt + 1) w1)
          as (r & k & es & Hrun & _)
      end.
      rewrite (Hrun _ eq_refl), extend_extend. simpl. by eexists _, _, _.
    + by eexists _, _, _.
Qed.

(** A delivery reaches the handler of the consumer it is delivered to. *)
Lemma deliver_calls_handler queue handler msg event w :
  (queue, handler) ∈ consumers (broker w) ->
  JSON_parse_event env (content msg) = Ok event ->
  EHandle handler event ∈ effects_of (EventBus.deliver env config queue handler msg) w.
Proof.
  intros Hin Hparse. unfold effects_of, EventBus.deliver.
  rewrite bool_decide_eq_true_2 by done.
  rewrite onMessage_unfold, Hparse.
  match goal with |- context [EventBus.handleWithRetry _ _ _ _ _ ?w1] =>
    destruct (handleWithRetry_calls_handler handler event 1 w1) as (r & k & es & Hrun)
  end.
  rewrite Hrun. destruct r as [[]|e]; simpl.
  all: rewrite <- !app_assoc, drop_app_length; simpl.
  all: apply list_elem_of_further, list_elem_of_here.
Qed.

(** What a delivery does is decided by the broker's consumers and the clock:
    it does not read the handler registry of the bus object. *)
Lemma deliver_ignores_bus queue handler msg w w' :
  broker w' = broker w -> tick w' = tick w ->
  fst (EventBus.deliver env config queue handler msg w')
    = fst (EventBus.deliver env config queue handler msg w)
  /\ effects_of (EventBus.deliver env config queue handler msg) w'
     = effects_of (EventBus.deliver env config queue handler msg) w.
Proof.
  intros Hbroker Htick. unfold effects_of, EventBus.deliver. rewrite Hbroker.
  destruct (bool_decide _).
  - match goal with |- context [EventBus.onMessage _ _ _ _ (set_broker ?f w)] =>
      destruct (onMessage_footprint env config handler msg (set_broker f w))
        as (k & es & Hrun & _);
      rewrite (Hrun (set_broker f w) eq_refl);
      rewrite (Hrun (set_broker f w') Htick)
    end.
    simpl. by rewrite !drop_app_length.
  - simpl. by rewrite !drop_all.
Qed.

End UnsubscribeFacts.

(** C10.  [unsubscribe] changes the handler registry of the bus object (and
    writes one log line) and nothing else: the first registration of the
    handler under that event type is removed, every other registration is
    kept, and the broker side -- queues, bindings, consumers, outstanding
    deliveries -- is untouched.  The consumer that [subscribe] installed
    closes over the handler itself, so a message delivered to its queue
    after [unsubscribe] is handled exactly as before: the handler is
    called. *)
Theorem C10_unsubscribe_registry_only (env : Env) (config : Config)
  (handler : Handler) (eventType : string) (w : World) :
  let w' := snd (EventBus.unsubscribe handler eventType w) in
  fst (EventBus.unsubscribe handler eventType w) = Ok tt
  /\ broker w' = broker w
  /\ db w' = db w
  /\ tick w' = tick w
  /\ (trace w' = trace w \/ trace w' = trace w ++ [ELog LInfo "✓ Handler unsubscribed" []])
  /\ connection (bus w') = connection (bus w)
  /\ channel (bus w') = channel (bus w)
  /\ isConnected (bus w') = isConnected (bus w)
  /\ (forall other, other <> eventType ->
        handlers (bus w') !! other = handlers (bus w) !! other)
  /\ (forall registered,
        handlers (bus w) !! eventType = Some registered ->
        exists remaining,
          handlers (bus w') !! eventType = Some remaining
          /\ remaining = match indexOf handler registered with
                         | Some index => delete index registered
                         | None => registered
                         end
          /\ filter (fun h => h <> handler) remaining
             = filter (fun h => h <> handler) registered)
  /\ (forall queue msg,
        fst (EventBus.deliver env config queue handler msg w')
          = fst (EventBus.deliver env config queue handler msg w)
        /\ effects_of (EventBus.deliver env config queue handler msg) w'
           = effects_of (EventBus.deliver env config queue handler msg) w)
  /\ (forall queue msg event,
        (queue, handler) ∈ consumers (broker w) ->
        JSON_parse_event env (content msg) = Ok event ->
        EHandle handler event
          ∈ effects_of (EventBus.deliver env config queue handler msg) w').
Proof.
  intros w'. unfold w'. rewrite unsubscribe_eq.
  destruct (indexOf handler (default [] (handlers (bus w) !! eventType)))
    as [index|] eqn:Hidx; simpl.
  - split_and!; [done | done | done | done | by right | done.. | | | | ].
    + intros other Hne. by rewrite lookup_insert_ne.
    + intros registered Hreg. rewrite Hreg in Hidx |- *. simpl in *.
      eexists. rewrite lookup_insert_eq. split; [reflexivity|].
      rewrite Hidx. split; [done|]. by apply delete_indexOf_others.
    + intros queue msg. by apply deliver_ignores_bus.
    + intros queue msg event Hin Hparse. by apply deliver_calls_handler.
  - split_and!; [done | done | done | done | by left | done.. | | | | ].
    + done.
    + intros registered Hreg. rewrite Hreg in Hidx. simpl in Hidx.
      exists registered. by rewrite Hidx.
    + done.
    + intros queue msg event Hin Hparse. by apply deliver_calls_handler.
Qed.

(** C10, run: handler [1] subscribes to ["X"], unsubscribes, and a message
    then delivered to its queue still reaches it. *)
Lemma C10_unsubscribe_registry_only_witness :
  handlers (bus subscribed_world) !! "X" = Some [1%nat]
  /\ handlers (bus (snd (EventBus.unsubscribe 1%nat "X" subscribed_world))) !! "X"
     = Some []
  /\ EHandle 1%nat (envelope "E1" "X" "Order")
       ∈ effects_of (EventBus.deliver calm_env default_config "agentic.Order.X" 1%nat msg_E1)
           (snd (EventBus.unsubscribe 1%nat "X" subscribed_world)).
Proof.
  split; [reflexivity|]. split; [reflexivity|].
  destruct (C10_unsubscribe_registry_only calm_env default_config 1%nat "X"
              subscribed_world) as (_ & _ & _ & _ & _ & _ & _ & _ & _ & _ & _ & Hcalled).
  apply Hcalled.
  - apply list_elem_of_here.
  - reflexivity.
Defined.

(** ** The change-capture service *)

Lemma cursor_writes_app es fs : cursor_writes (es ++ fs) = cursor_writes es ++ cursor_writes fs.
Proof.
  induction es as [|e es IH]; simpl; [done|].
  destruct e as [| | | | | | | | | | | | | | |q|]; simpl; rewrite ?IH; try done.
  destruct q; simpl; by rewrite ?IH.
Qed.

Lemma published_keys_app es fs :
  published_keys (es ++ fs) = published_keys es ++ published_keys fs.
Proof.
  induction es as [|e es IH]; simpl; [done|].
  destruct e; simpl; by rewrite ?IH.
Qed.

Lemma count_publish_keys es : count is_publish es = length (published_keys es).
Proof.
  induction es as [|e es IH]; simpl; [done|].
  destruct e; simpl; by rewrite IH.
Qed.

Lemma publish_before_write_app es fs :
  publish_before_write es -> publish_before_write fs -> publish_before_write (es ++ fs).
Proof.
  intros Hes Hfs n. rewrite take_app, !count_app.
  pose proof (Hes n). pose proof (Hfs (n - length es)%nat). lia.
Qed.

Lemma publish_before_write_quiet es :
  Forall (fun e => is_cursor_write e = false) es -> publish_before_write es.
Proof.
  intros Hq n. rewrite (count_none is_cursor_write); [lia|]. by apply Forall_take.
Qed.

(** A message handed to the broker and then, possibly after log lines, the
    cursor write for it. *)
Lemma publish_before_write_block pre logs post :
  is_publish pre = true ->
  Forall (fun e => is_cursor_write e = false) logs ->
  Forall (fun e => is_cursor_write e = false) post ->
  forall table_name last_lsn,
    publish_before_write
      (pre :: logs ++ EQuery (UpsertPosition table_name last_lsn) :: post).
Proof.
  intros Hpre Hlogs Hpost table_name last_lsn n.
  assert (Hquiet : is_cursor_write pre = false)
    by (destruct pre; simpl in *; done).
  destruct n as [|n]; simpl; [lia|]. rewrite Hpre, Hquiet.
  rewrite take_app, !count_app.
  rewrite (count_none is_cursor_write (take n logs)) by (by apply Forall_take).
  destruct (n - length logs)%nat as [|m]; simpl; [lia|].
  rewrite (count_none is_cursor_write (take m post)) by (by apply Forall_take).
  lia.
Qed.

Lemma cursor_le_refl c : cursor_le c c.
Proof. unfold cursor_le. destruct (cursor_id c); [lia|done]. Qed.

Lemma cursor_le_trans a b c : cursor_le a b -> cursor_le b c -> cursor_le a c.
Proof.
  unfold cursor_le.
  destruct (cursor_id a), (cursor_id b), (cursor_id c); try done. lia.
Qed.

Lemma advance_event_log t rows d : event_log (advance t rows d) = event_log d.
Proof. revert d. induction rows as [|row rows IH]; intros d; simpl; [done|]. by rewrite IH. Qed.

Lemma advance_app t rows1 rows2 d :
  advance t (rows1 ++ rows2) d = advance t rows2 (advance t rows1 d).
Proof. unfold advance. by rewrite foldl_app. Qed.

Lemma advance_other t rows d key :
  key <> CDC.t_entity t ->
  cdc_position (advance t rows d) !! key = cdc_position d !! key.
Proof.
  intros Hne. revert d. induction rows as [|row rows IH]; intros d; simpl; [done|].
  rewrite IH. simpl. by rewrite lookup_insert_ne.
Qed.

Lemma advance_last t rows row d :
  cdc_position (advance t (rows ++ [row]) d) !! CDC.t_entity t
  = Some (Some (LsnUuid (r_id row))).
Proof. rewrite advance_app. simpl. by rewrite lookup_insert_eq. Qed.

(** [publish_before_write] on a short, explicit list of effects. *)
Ltac hb_small :=
  let n := fresh "n" in
  intros n; do 8 (destruct n as [|n]; [simpl; lia|]); simpl; lia.

Section ScanFacts.
Variable env : Env.

Lemma process_row_spec t row w :
  exists r k es (wrote : bool),
    CDC.process_row env t row w
      = (r, extend k es (if wrote then set_db (advance t [row]) w else w))
    /\ cursor_writes es = (if wrote then [(CDC.t_entity t, r_id row)] else [])
    /\ publish_before_write es
    /\ (wrote = true -> r = Ok tt /\ r_event_type row = "INSERT")
    /\ (r = Ok tt -> wrote = bool_decide (r_event_type row = "INSERT")
                     /\ length (published_keys es) = (if wrote then 1 else 0)%nat)
    /\ Forall (fun key => key = CDC.t_entity t +:+ "." +:+ CDC.t_type t) (published_keys es).
Proof.
  unfold CDC.process_row.
  destruct (String.eqb_spec (r_event_type row) "INSERT") as [Hins|Hins].
  2:{ exists (Ok tt), 0%nat, [], false. rewrite extend_0_nil.
      split; [done|]. split; [done|]. split; [by intros n; rewrite take_nil|].
      split; [done|]. split; [|done]. intros _. by rewrite bool_decide_eq_false_2. }
  unfold CDC.object_of, CDC.criarEvent, CDC.client_query. run_monad.
  destruct (JSON_parse env (r_data row)) as [parsed|err]; simpl.
  2:{ exists (Throw err), 0%nat, [], false. rewrite extend_0_nil.
      split; [done|]. split; [done|]. split; [by intros n; rewrite take_nil|].
      split; [done|]. split; [done|]. done. }
  assert (Hnil : publish_before_write []) by (by intros n; rewrite take_nil).
  destruct parsed; simpl.
  1,2: exists (Throw "TypeError: Cannot read properties of null"), 0%nat, [], false;
       rewrite extend_0_nil; done.
  all: rewrite event_publish_eq; simpl.
  all: destruct (channel (bus w)) as [c|];
         [|exists (Throw "Channel not initialized"), 1%nat, [], false;
           rewrite next_tick_extend; done].
  all: destruct (JSON_stringify env _) as [body|err]; simpl;
         [|eexists _, _, _, false; split; [to_extend; reflexivity|];
           split; [done|]; split; [hb_small|]; done].
  all: destruct (send_outcome env (S (tick w))) as [| |err]; simpl.
  all: try (eexists (Throw err), _, _, false; split; [to_extend; reflexivity|];
            split; [done|]; split; [hb_small|]; done).
  all: destruct (query_outcome env _) as [[]|err]; simpl.
  all: try (eexists (Throw err), _, _, false; split; [to_extend; reflexivity|];
            split; [done|]; split; [hb_small|]; split; [done|]; split; [done|];
            repeat constructor).
  all: eexists (Ok tt), _, _, true; split; [to_extend; reflexivity|].
  all: split; [done|]; split; [hb_small|]; split; [done|].
  all: split; [by rewrite bool_decide_eq_true_2|repeat constructor].
Qed.
Lemma set_db_advance_nil t w : set_db (advance t []) w = w.
Proof. by destruct w as [? ? [] ? ?]. Qed.

Lemma process_rows_spec t rows :
  forall w,
  exists r k es done,
    CDC.process_rows env t rows w = (r, extend k es (set_db (advance t done) w))
    /\ cursor_writes es = map (fun row => (CDC.t_entity t, r_id row)) done
    /\ publish_before_write es
    /\ done `prefix_of` filter (fun row => r_event_type row = "INSERT") rows
    /\ (r = Ok tt ->
        done = filter (fun row => r_event_type row = "INSERT") rows
        /\ length (published_keys es) = length done)
    /\ Forall (fun key => key = CDC.t_entity t +:+ "." +:+ CDC.t_type t) (published_keys es).
Proof.
  induction rows as [|row rows IH]; intros w.
  - exists (Ok tt), 0%nat, [], []. rewrite extend_0_nil, set_db_advance_nil.
    split; [done|]. split; [done|]. split; [by intros n; rewrite take_nil|].
    split; [done|]. split; [done|]. constructor.
  - simpl. unfold bind.
    destruct (process_row_spec t row w)
      as (r1 & k1 & es1 & wrote & Hrun1 & Hcw1 & Hhb1 & Hwrote & Hok1 & Hkeys1).
    rewrite Hrun1. destruct r1 as [[]|e].
    + destruct (Hok1 eq_refl) as [Hw Hlen1].
      destruct (IH (extend k1 es1 (if wrote then set_db (advance t [row]) w else w)))
        as (r2 & k2 & es2 & done2 & Hrun2 & Hcw2 & Hhb2 & Hpre2 & Hok2 & Hkeys2).
      rewrite Hrun2.
      exists r2, (k2 + k1)%nat, (es1 ++ es2), (if wrote then row :: done2 else done2).
      split; [|split; [|split; [|split; [|split]]]].
      * destruct wrote; by to_extend.
      * rewrite cursor_writes_app, Hcw1, Hcw2. by destruct wrote.
      * by apply publish_before_write_app.
      * rewrite Hw. destruct (decide (r_event_type row = "INSERT")) as [Hi|Hi].
        -- rewrite bool_decide_eq_true_2, filter_cons_True by done. by apply prefix_cons.
        -- by rewrite bool_decide_eq_false_2, filter_cons_False by done.
      * intros Hr2. destruct (Hok2 Hr2) as [Hdone Hlen2].
        rewrite published_keys_app, length_app, Hlen1, Hlen2, Hdone, Hw.
        destruct (decide (r_event_type row = "INSERT")) as [Hi|Hi].
        -- by rewrite bool_decide_eq_true_2, filter_cons_True by done.
        -- by rewrite bool_decide_eq_false_2, filter_cons_False by done.
      * rewrite published_keys_app. by apply Forall_app.
    + assert (wrote = false) as -> by (destruct wrote; [by destruct Hwrote|done]).
      exists (Throw e), k1, es1, []. rewrite set_db_advance_nil.
      split; [done|]. split; [done|]. split; [done|].
      split; [apply prefix_nil|]. split; [done|done].
Qed.

(** One pass over an entity type: the rows whose cursor writes took effect
    are the first so many of the rows the pass would translate, and all of
    them when the pass returns normally. *)
Lemma processChanges_spec t positions w :
  exists r k es done,
    CDC.processChanges env t positions w = (r, extend k es (set_db (advance t done) w))
    /\ cursor_writes es = map (fun row => (CDC.t_entity t, r_id row)) done
    /\ publish_before_write es
    /\ done `prefix_of` translated t positions (event_log (db w))
    /\ (r = Ok tt ->
        done = translated t positions (event_log (db w))
        /\ length (published_keys es) = length done)
    /\ Forall (fun key => key = CDC.t_entity t +:+ "." +:+ CDC.t_type t) (published_keys es).
Proof.
  assert (Hnone : forall (r : result unit) k, (exists e, r = Throw e) ->
    exists r' k' es done,
      (r, extend k [] w) = (r', extend k' es (set_db (advance t done) w))
      /\ cursor_writes es = map (fun row => (CDC.t_entity t, r_id row)) done
      /\ publish_before_write es
      /\ done `prefix_of` translated t positions (event_log (db w))
      /\ (r' = Ok tt ->
          done = translated t positions (event_log (db w))
          /\ length (published_keys es) = length done)
      /\ Forall (fun key => key = CDC.t_entity t +:+ "." +:+ CDC.t_type t)
           (published_keys es)).
  { intros r k [e ->]. exists (Throw e), k, [], []. rewrite set_db_advance_nil.
    split; [done|]. split; [done|]. split; [by intros n; rewrite take_nil|].
    split; [apply prefix_nil|]. split; [done|constructor]. }
  unfold CDC.processChanges, CDC.client_query. fold (lastPosition t positions).
  fold (query_bound t positions). unfold bind.
  destruct (query_outcome env (tick w)) as [[]|e].
  2:{ rewrite next_tick_extend. apply Hnone. by exists e. }
  unfold CDC.select_event_log.
  destruct (query_bound t positions) as [[u|s]|] eqn:Hbound.
  2:{ rewrite next_tick_extend. apply Hnone. by eexists. }
  all: unfold translated; rewrite Hbound.
  all: match goal with |- context [CDC.process_rows _ _ ?rows ?w1] =>
         destruct (process_rows_spec t rows w1)
           as (r & k & es & done & Hrun & Hcw & Hhb & Hpre & Hok & Hkeys);
         rewrite Hrun
       end.
  all: eexists r, _, (_ ++ es), done; split; [to_extend; reflexivity|].
  all: split; [by rewrite cursor_writes_app|].
  all: split; [apply publish_before_write_app; [hb_small|done]|].
  all: split; [done|]; split; [|by rewrite published_keys_app].
  all: intros Hr; destruct (Hok Hr) as [-> Hlen]; split; [done|].
  all: by rewrite published_keys_app.
Qed.

End ScanFacts.

Lemma set_db_id w : set_db (fun d => d) w = w.
Proof. by destruct w. Qed.

Section CycleFacts.
Variable env : Env.
Variable config : CDC.CDCConfig.

(** [checkForChanges] up to its three passes. *)
Lemma checkForChanges_eq w :
  CDC.checkForChanges env w =
  match query_outcome env (tick w) with
  | Throw e => (Throw e, extend 1 [] w)
  | Ok _ =>
      match query_outcome env (S (tick w)) with
      | Throw e => (Throw e, extend 2 [EPoolConnect; ERelease] w)
      | Ok _ =>
          let '(r, w') :=
            (CDC.processClienteChanges env (scan_positions w) ;;;
             CDC.processProdutoChanges env (scan_positions w) ;;;
             CDC.processPedidoChanges env (scan_positions w))%bus (scan_start w) in
          (r, extend 0 [ERelease] w')
      end
  end.
Proof.
  unfold CDC.checkForChanges, CDC.pool_connect, CDC.client_query.
  unfold bind at 1.
  destruct (query_outcome env (tick w)) as [[]|e0]; [|by to_extend].
  unfold try_finally. unfold bind at 1. simpl.
  destruct (query_outcome env (S (tick w))) as [[]|e1]; simpl; [|by to_extend].
  to_extend. rewrite (set_db_id w). done.
Qed.

(** One turn of the polling loop never throws: a failed scan is logged. *)
Lemma poll_once_eq w :
  CDC.poll_once env config w =
  let '(r, w') := CDC.checkForChanges env w in
  (Ok tt,
   match r with
   | Ok _ => extend 0 [ESetTimeout (CDC.cfg_pollIntervalMs config)] w'
   | Throw _ =>
       extend 0 [ELog LError "Error checking for changes" [];
                 ESetTimeout (CDC.cfg_pollIntervalMs config)] w'
   end).
Proof.
  unfold CDC.poll_once. run_monad.
  destruct (CDC.checkForChanges env w) as [[[]|e] w']; simpl; by to_extend.
Qed.

(** The three passes of one scan, in the order of the source. *)
Lemma passes_spec positions w1 :
  exists r k es d1 d2 d3,
    (CDC.processClienteChanges env positions ;;;
     CDC.processProdutoChanges env positions ;;;
     CDC.processPedidoChanges env positions)%bus w1 =
      (r,
       extend k es
         (set_db (advance CDC.Pedido d3)
            (set_db (advance CDC.Produto d2)
               (set_db (advance CDC.Cliente d1) w1))))
    /\ publish_before_write es
    /\ cursor_writes es =
         map (fun row => ("Cliente", r_id row)) d1
         ++ map (fun row => ("Produto", r_id row)) d2
         ++ map (fun row => ("Pedido", r_id row)) d3
    /\ d1 `prefix_of` translated CDC.Cliente positions (event_log (db w1))
    /\ d2 `prefix_of` translated CDC.Produto positions (event_log (db w1))
    /\ d3 `prefix_of` translated CDC.Pedido positions (event_log (db w1)).
Proof.
  unfold CDC.processClienteChanges, CDC.processProdutoChanges, CDC.processPedidoChanges.
  unfold bind.
  destruct (processChanges_spec env CDC.Cliente positions w1)
    as (r1 & k1 & es1 & d1 & Hrun1 & Hcw1 & Hhb1 & Hpre1 & _ & _).
  rewrite Hrun1. destruct r1 as [[]|e1].
  2:{ exists (Throw e1), k1, es1, d1, [], []. rewrite !set_db_advance_nil.
      split; [done|]. split; [done|]. split; [by rewrite Hcw1, app_nil_r|].
      split; [done|]. split; apply prefix_nil. }
  set (w2 := extend k1 es1 (set_db (advance CDC.Cliente d1) w1)).
  assert (Hlog2 : event_log (db w2) = event_log (db w1))
    by (unfold w2; simpl; apply advance_event_log).
  destruct (processChanges_spec env CDC.Produto positions w2)
    as (r2 & k2 & es2 & d2 & Hrun2 & Hcw2 & Hhb2 & Hpre2 & _ & _).
  rewrite Hlog2 in Hpre2. rewrite Hrun2. destruct r2 as [[]|e2].
  2:{ exists (Throw e2), (k2 + k1)%nat, (es1 ++ es2), d1, d2, [].
      rewrite set_db_advance_nil.
      split; [unfold w2; by to_extend|].
      split; [by apply publish_before_write_app|].
      split; [by rewrite cursor_writes_app, Hcw1, Hcw2, app_nil_r|].
      split; [done|]. split; [done|apply prefix_nil]. }
  set (w3 := extend k2 es2 (set_db (advance CDC.Produto d2) w2)).
  assert (Hlog3 : event_log (db w3) = event_log (db w1))
    by (unfold w3; simpl; rewrite advance_event_log; apply Hlog2).
  destruct (processChanges_spec env CDC.Pedido positions w3)
    as (r3 & k3 & es3 & d3 & Hrun3 & Hcw3 & Hhb3 & Hpre3 & _ & _).
  rewrite Hlog3 in Hpre3. rewrite Hrun3.
  exists r3, (k3 + k2 + k1)%nat, (es1 ++ es2 ++ es3), d1, d2, d3.
  split; [unfold w3, w2; by to_extend|].
  split; [by repeat apply publish_before_write_app|].
  split; [by rewrite !cursor_writes_app, Hcw1, Hcw2, Hcw3|]. done.
Qed.

Lemma poll_once_spec w :
  exists k es d1 d2 d3,
    CDC.poll_once env config w =
      (Ok tt,
       extend k es
         (set_db (advance CDC.Pedido d3)
            (set_db (advance CDC.Produto d2)
               (set_db (advance CDC.Cliente d1) w))))
    /\ publish_before_write es
    /\ cursor_writes es =
         map (fun row => ("Cliente", r_id row)) d1
         ++ map (fun row => ("Produto", r_id row)) d2
         ++ map (fun row => ("Pedido", r_id row)) d3
    /\ d1 `prefix_of` translated CDC.Cliente (scan_positions w) (event_log (db w))
    /\ d2 `prefix_of` translated CDC.Produto (scan_positions w) (event_log (db w))
    /\ d3 `prefix_of` translated CDC.Pedido (scan_positions w) (event_log (db w)).
Proof.
  rewrite poll_once_eq, checkForChanges_eq.
  destruct (query_outcome env (tick w)) as [[]|e0].
  2:{ eexists _, _, [], [], []. rewrite !set_db_advance_nil.
      split; [to_extend; reflexivity|].
      split; [apply publish_before_write_quiet; repeat constructor|].
      split; [done|]. split_and!; apply prefix_nil. }
  destruct (query_outcome env (S (tick w))) as [[]|e1].
  2:{ eexists _, _, [], [], []. rewrite !set_db_advance_nil.
      split; [to_extend; reflexivity|].
      split; [apply publish_before_write_quiet; repeat constructor|].
      split; [done|]. split_and!; apply prefix_nil. }
  destruct (passes_spec (scan_positions w) (scan_start w))
    as (r & k & es & d1 & d2 & d3 & Hrun & Hhb & Hcw & Hpre1 & Hpre2 & Hpre3).
  rewrite Hrun. unfold scan_start.
  destruct r as [[]|e].
  - eexists _, _, d1, d2, d3. split; [to_extend; reflexivity|].
    split; [|split; [|done]].
    + repeat apply publish_before_write_app; try done.
      all: apply publish_before_write_quiet; repeat constructor.
    + rewrite !cursor_writes_app, Hcw. simpl. by rewrite !app_nil_r.
  - eexists _, _, d1, d2, d3. split; [to_extend; reflexivity|].
    split; [|split; [|done]].
    + repeat apply publish_before_write_app; try done.
      all: apply publish_before_write_quiet; repeat constructor.
    + rewrite !cursor_writes_app, Hcw. simpl. by rewrite !app_nil_r.
Qed.

End CycleFacts.

#[local] Instance id_le_trans : Transitive CDC.id_le.
Proof. intros a b c. unfold CDC.id_le. lia. Qed.

#[local] Instance id_le_total : Total CDC.id_le.
Proof. intros a b. unfold CDC.id_le. lia. Qed.

Lemma StronglySorted_filter {A} (R : relation A) (P : A -> Prop)
  `{forall x, Decision (P x)} (l : list A) :
  StronglySorted R l -> StronglySorted R (filter P l).
Proof.
  induction 1 as [|x l Hl IH Hx]; [constructor|].
  destruct (decide (P x)).
  - rewrite filter_cons_True by done. constructor; [done|].
    rewrite Forall_forall in Hx |- *. intros y Hy.
    apply list_elem_of_filter in Hy as [_ Hy]. by apply Hx.
  - by rewrite filter_cons_False.
Qed.

(** The rows a pass translates: which, and in which order. *)
Lemma translated_spec t positions log :
  (forall row,
     row ∈ translated t positions log <->
     row ∈ log
     /\ r_entity_type row = CDC.t_entity t
     /\ r_event_type row = "INSERT"
     /\ CDC.after_bound (query_bound t positions) row)
  /\ StronglySorted CDC.id_le (translated t positions log).
Proof.
  unfold translated. split.
  - intros row. rewrite list_elem_of_filter, merge_sort_Permutation, list_elem_of_filter.
    tauto.
  - apply StronglySorted_filter, StronglySorted_merge_sort; apply _.
Qed.

(** How the bound of the query follows from the stored cursor. *)
Lemma query_bound_stored t w :
  query_bound t (scan_positions w) =
  match cdc_position (db w) !! CDC.t_entity t with
  | Some (Some (LsnUuid u)) => Some (LsnUuid u)
  | Some (Some (LsnOther s)) =>
      if String.eqb s "0" || String.eqb s "" then None else Some (LsnOther s)
  | Some None | None => None
  end.
Proof.
  unfold query_bound, lastPosition, scan_positions. rewrite lookup_fmap.
  destruct (cdc_position (db w) !! CDC.t_entity t) as [[[u|s]|]|]; simpl; try done.
  destruct (String.eqb_spec s "0") as [->|H0]; simpl; [done|].
  destruct (String.eqb_spec s "") as [->|He]; simpl; [done|].
  by rewrite (proj2 (String.eqb_neq s "")).
Qed.

Lemma advance_cursor_le t rows d key :
  (forall row u,
     row ∈ rows ->
     cursor_id (cdc_position d !! CDC.t_entity t) = Some u -> (u < r_id row)%N) ->
  cursor_le (cdc_position d !! key) (cdc_position (advance t rows d) !! key).
Proof.
  intros Hafter. destruct (decide (key = CDC.t_entity t)) as [->|Hne].
  - destruct rows as [|r0 rows0] using rev_ind; [apply cursor_le_refl|].
    rewrite advance_last. unfold cursor_le.
    destruct (cursor_id (cdc_position d !! CDC.t_entity t)) as [u|] eqn:Hu; [|done].
    simpl. assert (u < r_id r0)%N; [|lia].
    apply Hafter; [|done]. apply elem_of_app. right. apply list_elem_of_here.
  - rewrite advance_other by done. apply cursor_le_refl.
Qed.

(** A pass that works from the positions read at the start of the scan never
    moves the cursor of its entity backwards, as long as nothing else wrote
    that cursor in between. *)
Lemma pass_cursor_le t w d rows key :
  cdc_position d !! CDC.t_entity t = cdc_position (db w) !! CDC.t_entity t ->
  rows `prefix_of` translated t (scan_positions w) (event_log (db w)) ->
  cursor_le (cdc_position d !! key) (cdc_position (advance t rows d) !! key).
Proof.
  intros Hsame Hpre. apply advance_cursor_le. intros row u Hrow Hu.
  rewrite Hsame in Hu.
  assert (Hin : row ∈ translated t (scan_positions w) (event_log (db w)))
    by (by eapply elem_of_prefix).
  apply (proj1 (translated_spec _ _ _)) in Hin as (_ & _ & _ & Hbound).
  rewrite query_bound_stored in Hbound.
  destruct (cdc_position (db w) !! CDC.t_entity t) as [[[v|s]|]|]; try done.
  simpl in Hu. by injection Hu as <-.
Qed.

Lemma poll_once_cursor_le env config w key :
  cursor_le (cdc_position (db w) !! key)
    (cdc_position (db (snd (CDC.poll_once env config w))) !! key).
Proof.
  destruct (poll_once_spec env config w)
    as (k & es & d1 & d2 & d3 & Hrun & _ & _ & Hpre1 & Hpre2 & Hpre3).
  rewrite Hrun. simpl.
  eapply cursor_le_trans; [|eapply cursor_le_trans].
  - by apply (pass_cursor_le CDC.Cliente w (db w) d1 key).
  - apply (pass_cursor_le CDC.Produto w _ d2 key); [|done].
    by rewrite advance_other.
  - apply (pass_cursor_le CDC.Pedido w _ d3 key); [|done].
    by rewrite !advance_other.
Qed.

Lemma poll_cursor_le env config n :
  forall w key,
    fst (CDC.poll env config n w) = Ok tt
    /\ cursor_le (cdc_position (db w) !! key)
         (cdc_position (db (snd (CDC.poll env config n w))) !! key).
Proof.
  induction n as [|n IH]; intros w key; simpl.
  - split; [done|apply cursor_le_refl].
  - unfold bind.
    destruct (poll_once_spec env config w) as (k & es & d1 & d2 & d3 & Hrun & _).
    pose proof (poll_once_cursor_le env config w key) as Hle.
    rewrite Hrun in Hle |- *. destruct (IH (snd (Ok tt, extend k es
      (set_db (advance CDC.Pedido d3)
         (set_db (advance CDC.Produto d2)
            (set_db (advance CDC.Cliente d1) w))))) key) as [Hok Hle'].
    simpl in Hok, Hle', Hle.
    destruct (CDC.poll env config n _) as [r w']. simpl in *.
    split; [done|]. by eapply cursor_le_trans.
Qed.

(** C1, as the code has it.  For every tracked entity type, a pass that
    ends without an error translates exactly the rows of the change log
    that belong to the entity type, whose [event_type] is ['INSERT'], and
    whose id is greater than the stored cursor (every id, when no cursor is
    stored): each of them is published once and then becomes the cursor, in
    ascending order of id.  A row of any other event type is not
    translated. *)
Theorem C1_translated_rows (env : Env) (t : CDC.Tracked)
  (positions : gmap string lsn_text) (w : World) :
  fst (CDC.processChanges env t positions w) = Ok tt ->
  let es := effects_of (CDC.processChanges env t positions) w in
  let rows := translated t positions (event_log (db w)) in
  cursor_writes es = map (fun row => (CDC.t_entity t, r_id row)) rows
  /\ published_keys es = replicate (length rows) (CDC.t_entity t +:+ "." +:+ CDC.t_type t)
  /\ (forall row,
        row ∈ rows <->
        row ∈ event_log (db w)
        /\ r_entity_type row = CDC.t_entity t
        /\ r_event_type row = "INSERT"
        /\ CDC.after_bound (query_bound t positions) row)
  /\ StronglySorted CDC.id_le rows
  /\ (forall w0 u,
        cdc_position (db w0) !! CDC.t_entity t = Some (Some (LsnUuid u)) ->
        query_bound t (scan_positions w0) = Some (LsnUuid u))
  /\ (forall w0,
        cdc_position (db w0) !! CDC.t_entity t = None ->
        query_bound t (scan_positions w0) = None)
  /\ CDC.processClienteChanges env = CDC.processChanges env CDC.Cliente
  /\ CDC.processProdutoChanges env = CDC.processChanges env CDC.Produto
  /\ CDC.processPedidoChanges env = CDC.processChanges env CDC.Pedido.
Proof.
  intros Hok es rows.
  destruct (processChanges_spec env t positions w)
    as (r & k & es' & done & Hrun & Hcw & _ & _ & Hdone & Hkeys).
  assert (Hes : es = es')
    by (unfold es, effects_of; rewrite Hrun; simpl; apply drop_app_length).
  rewrite Hrun in Hok. simpl in Hok. destruct (Hdone Hok) as [-> Hlen].
  fold rows in Hcw, Hlen. rewrite Hes.
  split; [done|]. split; [|split; [|split; [|split; [|split]]]].
  - symmetry. apply replicate_as_Forall. split; [done|].
    eapply Forall_impl; [exact Hkeys|]. by intros key ->.
  - apply translated_spec.
  - apply translated_spec.
  - intros w0 u Hu. by rewrite query_bound_stored, Hu.
  - intros w0 Hu. by rewrite query_bound_stored, Hu.
  - done.
Qed.

(** C1, run: a pending [INSERT] row of [Cliente] is published and becomes
    the cursor. *)
Lemma C1_translated_rows_witness :
  cursor_writes
    (effects_of (CDC.processChanges calm_env CDC.Cliente ∅)
       (log_world [row_cliente_insert; row_cliente_update]))
  = [("Cliente", 7%N)]
  /\ published_keys
       (effects_of (CDC.processChanges calm_env CDC.Cliente ∅)
          (log_world [row_cliente_insert; row_cliente_update]))
     = ["Cliente.ClienteCriado"].
Proof.
  destruct (C1_translated_rows calm_env CDC.Cliente ∅
              (log_world [row_cliente_insert; row_cliente_update]))
    as (Hcw & Hkeys & _).
  - reflexivity.
  - split; [exact Hcw | exact Hkeys].
Defined.

(** C1 as stated fails: a [Cliente] row whose id is greater than the stored
    cursor (none is stored) but whose event type is ['UPDATE'] is read by
    the scan and not translated: the whole cycle publishes nothing and
    writes no cursor. *)
Lemma C1_counterexample :
  row_cliente_update ∈ event_log (db (log_world [row_cliente_update]))
  /\ r_entity_type row_cliente_update = "Cliente"
  /\ cdc_position (db (log_world [row_cliente_update])) !! "Cliente" = None
  /\ CDC.after_bound
       (query_bound CDC.Cliente (scan_positions (log_world [row_cliente_update])))
       row_cliente_update
  /\ CDC.poll_once calm_env cdc_config (log_world [row_cliente_update])
     = (Ok tt,
        extend 5
          [EPoolConnect; EQuery SelectPositions;
           EQuery (SelectEventLog "Cliente" None);
           EQuery (SelectEventLog "Produto" None);
           EQuery (SelectEventLog "Pedido" None);
           ERelease; ESetTimeout 5000]
          (log_world [row_cliente_update])).
Proof.
  split; [apply list_elem_of_here|]. split; [done|]. split; [done|].
  split; [done|]. by vm_compute.
Qed.

(** C6.  In every scan cycle, whatever fails and wherever: at each point of
    the run no more cursor writes have taken effect than messages were
    handed to the broker (the publish of a row comes before its cursor
    write); a row either leaves the cursor table as it was, or was published
    exactly once and then became the cursor of its entity type; in
    particular a row whose processing ends in an error -- a publish error
    among them -- leaves the cursor table unchanged.  Consequently the
    cursor of every entity type after a cycle, and after any number of
    cycles, is greater than or equal to the cursor before. *)
Theorem C6_cursor_after_publish (env : Env) (config : CDC.CDCConfig) (w : World) :
  publish_before_write (effects_of (CDC.poll_once env config) w)
  /\ (forall key,
        cursor_le (cdc_position (db w) !! key)
          (cdc_position (db (snd (CDC.poll_once env config w))) !! key))
  /\ (forall n key,
        cursor_le (cdc_position (db w) !! key)
          (cdc_position (db (snd (CDC.poll env config n w))) !! key))
  /\ (forall t row w0,
        let run := CDC.process_row env t row in
        (db (snd (run w0)) = db w0 /\ cursor_writes (effects_of run w0) = [])
        \/ (fst (run w0) = Ok tt
            /\ published_keys (effects_of run w0)
               = [CDC.t_entity t +:+ "." +:+ CDC.t_type t]
            /\ cursor_writes (effects_of run w0) = [(CDC.t_entity t, r_id row)]
            /\ db (snd (run w0)) = advance t [row] (db w0)))
  /\ (forall t row w0,
        is_ok (fst (CDC.process_row env t row w0)) = false ->
        db (snd (CDC.process_row env t row w0)) = db w0).
Proof.
  split; [|split; [|split; [|split]]].
  - destruct (poll_once_spec env config w) as (k & es & d1 & d2 & d3 & Hrun & Hhb & _).
    unfold effects_of. rewrite Hrun. simpl. by rewrite drop_app_length.
  - intros key. apply poll_once_cursor_le.
  - intros n key. apply poll_cursor_le.
  - intros t row w0 run.
    destruct (process_row_spec env t row w0)
      as (r & k & es & wrote & Hrun & Hcw & _ & Hwrote & Hok & Hkeys).
    fold run in Hrun.
    assert (Hes : effects_of run w0 = es).
    { unfold effects_of. rewrite Hrun. destruct wrote; simpl; apply drop_app_length. }
    rewrite Hes, Hrun. destruct wrote.
    + right. destruct (Hwrote eq_refl) as [-> _].
      destruct (Hok eq_refl) as [_ Hlen].
      split; [done|]. split; [|done].
      destruct (published_keys es) as [|key [|key' keys]]; simpl in Hlen; try done.
      by apply Forall_cons in Hkeys as [-> _].
    + left. done.
  - intros t row w0 Hfail.
    destruct (process_row_spec env t row w0)
      as (r & k & es & wrote & Hrun & _ & _ & Hwrote & _).
    rewrite Hrun in Hfail |- *. destruct wrote; [|done].
    destruct (Hwrote eq_refl) as [-> _]. done.
Qed.

(** C5, as the code has it.  The three passes of a scan run one after the
    other inside a single [try]: an error in the pass of one entity type
    ends the scan there.  If the [Cliente] pass throws, the cycle does
    nothing for [Produto] and [Pedido] (no query, no publish, cursors
    unchanged); if the [Produto] pass throws, it does nothing for [Pedido].
    What the passes did before the error stays (cursor writes that took
    effect are kept); the client is released, the error is logged once and
    the polling loop goes on to its next turn, which starts from the
    cursors as stored. *)
Theorem C5_error_ends_the_scan (env : Env) (config : CDC.CDCConfig) (w : World) :
  query_outcome env (tick w) = Ok tt ->
  query_outcome env (S (tick w)) = Ok tt ->
  let positions := scan_positions w in
  let cliente := CDC.processClienteChanges env positions (scan_start w) in
  let produto := CDC.processProdutoChanges env positions (snd cliente) in
  let cycle := CDC.poll_once env config in
  let logged := [ERelease; ELog LError "Error checking for changes" [];
                 ESetTimeout (CDC.cfg_pollIntervalMs config)] in
  (forall e,
     fst cliente = Throw e ->
     cycle w = (Ok tt, extend 0 logged (snd cliente))
     /\ Forall (fun key => key = "Cliente.ClienteCriado")
          (published_keys (effects_of cycle w))
     /\ cdc_position (db (snd (cycle w))) !! "Produto" = cdc_position (db w) !! "Produto"
     /\ cdc_position (db (snd (cycle w))) !! "Pedido" = cdc_position (db w) !! "Pedido")
  /\ (forall e,
        fst cliente = Ok tt ->
        fst produto = Throw e ->
        cycle w = (Ok tt, extend 0 logged (snd produto))
        /\ Forall (fun key => key = "Cliente.ClienteCriado" \/ key = "Produto.ProdutoCriado")
             (published_keys (effects_of cycle w))
        /\ cdc_position (db (snd (cycle w))) !! "Pedido" = cdc_position (db w) !! "Pedido").
Proof.
  intros Hq1 Hq2 positions cliente produto cycle logged.
  destruct (processChanges_spec env CDC.Cliente positions (scan_start w))
    as (r1 & k1 & es1 & d1 & Hrun1 & _ & _ & _ & _ & Hkeys1).
  change (CDC.processChanges env CDC.Cliente positions (scan_start w))
    with cliente in Hrun1.
  assert (Hcycle : cycle w =
    let '(r, w') :=
      (CDC.processClienteChanges env positions ;;;
       CDC.processProdutoChanges env positions ;;;
       CDC.processPedidoChanges env positions)%bus (scan_start w) in
    (Ok tt,
     match r with
     | Ok _ => extend 0 [ERelease; ESetTimeout (CDC.cfg_pollIntervalMs config)] w'
     | Throw _ => extend 0 logged w'
     end)).
  { unfold cycle. rewrite poll_once_eq, checkForChanges_eq, Hq1, Hq2.
    fold positions.
    destruct ((CDC.processClienteChanges env positions ;;;
               CDC.processProdutoChanges env positions ;;;
               CDC.processPedidoChanges env positions)%bus (scan_start w))
      as [[[]|e] w']; by to_extend. }
  split.
  - intros e He. rewrite Hrun1 in He. simpl in He. subst r1.
    assert (Hw : cycle w = (Ok tt, extend 0 logged (snd cliente))).
    { rewrite Hcycle. unfold bind. fold cliente. by rewrite Hrun1. }
    split; [done|]. unfold effects_of. rewrite Hw, Hrun1. simpl.
    rewrite <- !app_assoc, drop_app_length.
    split; [|split].
    + simpl. rewrite published_keys_app. apply Forall_app. split; [done|]. simpl. constructor.
    + by rewrite advance_other.
    + by rewrite advance_other.
  - intros e Hc Hp. rewrite Hrun1 in Hc. simpl in Hc. subst r1.
    destruct (processChanges_spec env CDC.Produto positions (snd cliente))
      as (r2 & k2 & es2 & d2 & Hrun2 & _ & _ & _ & _ & Hkeys2).
    change (CDC.processChanges env CDC.Produto positions (snd cliente))
      with produto in Hrun2.
    rewrite Hrun2 in Hp. simpl in Hp. subst r2.
    assert (Hw : cycle w = (Ok tt, extend 0 logged (snd produto))).
    { rewrite Hcycle. unfold bind. fold cliente. rewrite Hrun1.
      change (CDC.processProdutoChanges env positions
                (extend k1 es1 (set_db (advance CDC.Cliente d1) (scan_start w))))
        with (CDC.processProdutoChanges env positions (snd (Ok tt,
                extend k1 es1 (set_db (advance CDC.Cliente d1) (scan_start w))))).
      rewrite <- Hrun1. fold produto. by rewrite Hrun2. }
    split; [done|]. unfold effects_of. rewrite Hw, Hrun2, Hrun1. simpl.
    rewrite <- !app_assoc, drop_app_length.
    split.
    + simpl. rewrite !published_keys_app, !Forall_app. split_and!.
      * eapply Forall_impl; [exact Hkeys1|]. intros key ->. by left.
      * eapply Forall_impl; [exact Hkeys2|]. intros key ->. by right.
      * simpl. constructor.
    + by rewrite !advance_other.
Qed.

(** C5, run: the first message of the cycle is refused by the broker's
    client while a [Produto] row is pending. *)
Lemma C5_error_ends_the_scan_witness :
  CDC.poll_once first_send_fails_env cdc_config two_entity_world
  = (Ok tt,
     extend 0
       [ERelease; ELog LError "Error checking for changes" []; ESetTimeout 5000]
       (snd (CDC.processClienteChanges first_send_fails_env
               (scan_positions two_entity_world) (scan_start two_entity_world))))
  /\ cdc_position (db (snd (CDC.poll_once first_send_fails_env cdc_config two_entity_world)))
       !! "Produto" = None.
Proof.
  destruct (C5_error_ends_the_scan first_send_fails_env cdc_config two_entity_world)
    as [Hcliente _].
  - reflexivity.
  - reflexivity.
  - destruct (Hcliente "Channel closed") as (Hw & _ & Hproduto & _).
    + reflexivity.
    + split; [exact Hw | exact Hproduto].
Defined.

(** C5 as stated fails: the publish of the [Cliente] row throws, and the
    same cycle never looks at [Produto], whose pending row is neither
    queried nor published (an untroubled cycle publishes both, and so does
    the next cycle here). *)
Lemma C5_counterexample :
  row_produto_insert ∈ event_log (db two_entity_world)
  /\ CDC.poll_once first_send_fails_env cdc_config two_entity_world
     = (Ok tt,
        extend 5
          [EPoolConnect; EQuery SelectPositions;
           EQuery (SelectEventLog "Cliente" None);
           ELog LError "Failed to publish event" [];
           ERelease;
           ELog LError "Error checking for changes" [];
           ESetTimeout 5000]
          two_entity_world)
  /\ published_keys (effects_of (CDC.poll_once calm_env cdc_config) two_entity_world)
     = ["Cliente.ClienteCriado"; "Produto.ProdutoCriado"]
  /\ published_keys (effects_of (CDC.poll first_send_fails_env cdc_config 2) two_entity_world)
     = ["Cliente.ClienteCriado"; "Produto.ProdutoCriado"].
Proof.
  split; [apply list_elem_of_further, list_elem_of_here|].
  split; [by vm_compute|]. split; by vm_compute.
Qed.

(** ** More about the scan: what a cycle publishes *)

Lemma effects_of_shape {A} (m : M A) (w w0 : World) r k es :
  m w = (r, extend k es w0) -> trace w0 = trace w -> effects_of m w = es.
Proof.
  intros H Ht. unfold effects_of. rewrite H. simpl. rewrite Ht. apply drop_app_length.
Qed.

Lemma Forall_eq_replicate {A} (x : A) (l : list A) :
  Forall (fun y => y = x) l -> l = replicate (length l) x.
Proof. induction 1 as [|y l -> _ IH]; simpl; [done|]. by rewrite <- IH. Qed.

Section ScanMore.
Variable env : Env.

Ltac quiet_row :=
  split_and!;
    first [ done | by repeat constructor | simpl; lia
          | by intros _; rewrite ?bool_decide_eq_true_2, ?bool_decide_eq_false_2 by done ].

Lemma process_row_full t row w :
  exists r k es (wrote : bool),
    CDC.process_row env t row w
      = (r, extend k es (if wrote then set_db (advance t [row]) w else w))
    /\ cursor_writes es = (if wrote then [(CDC.t_entity t, r_id row)] else [])
    /\ (wrote = true -> r = Ok tt)
    /\ (r = Ok tt -> wrote = bool_decide (r_event_type row = "INSERT")
                     /\ length (published_keys es) = (if wrote then 1 else 0)%nat)
    /\ Forall (fun key => key = CDC.t_entity t +:+ "." +:+ CDC.t_type t) (published_keys es)
    /\ Forall (fun e => pass_effect e = true) es
    /\ (length (published_keys es)
        <= if bool_decide (r_event_type row = "INSERT") then 1 else 0)%nat.
Proof.
  unfold CDC.process_row.
  destruct (String.eqb_spec (r_event_type row) "INSERT") as [Hins|Hins].
  2:{ exists (Ok tt), 0%nat, [], false. rewrite extend_0_nil.
      rewrite !bool_decide_eq_false_2 by done. quiet_row. }
  rewrite !bool_decide_eq_true_2 by done.
  unfold CDC.object_of, CDC.criarEvent, CDC.client_query. run_monad.
  destruct (JSON_parse env (r_data row)) as [parsed|err]; simpl.
  2:{ exists (Throw err), 0%nat, [], false. rewrite extend_0_nil. quiet_row. }
  destruct parsed; simpl.
  1,2: exists (Throw "TypeError: Cannot read properties of null"), 0%nat, [], false;
       rewrite extend_0_nil; quiet_row.
  all: rewrite event_publish_eq; simpl.
  all: destruct (channel (bus w)) as [c|];
         [|exists (Throw "Channel not initialized"), 1%nat, [], false;
           rewrite next_tick_extend; quiet_row].
  all: destruct (JSON_stringify env _) as [body|err]; simpl;
         [|eexists _, _, _, false; split; [to_extend; reflexivity|];
           quiet_row].
  all: destruct (send_outcome env (S (tick w))) as [| |err]; simpl.
  all: try (eexists (Throw err), _, _, false; split; [to_extend; reflexivity|];
            quiet_row).
  all: destruct (query_outcome env _) as [[]|err]; simpl.
  all: try (eexists (Throw err), _, _, false; split; [to_extend; reflexivity|];
            quiet_row).
  all: eexists (Ok tt), _, _, true; split; [to_extend; reflexivity|].
  all: quiet_row.
Qed.

Lemma process_rows_full t rows :
  forall w,
  exists r k es done,
    CDC.process_rows env t rows w = (r, extend k es (set_db (advance t done) w))
    /\ cursor_writes es = map (fun row => (CDC.t_entity t, r_id row)) done
    /\ done `prefix_of` filter (fun row => r_event_type row = "INSERT") rows
    /\ (r = Ok tt -> done = filter (fun row => r_event_type row = "INSERT") rows)
    /\ Forall (fun key => key = CDC.t_entity t +:+ "." +:+ CDC.t_type t) (published_keys es)
    /\ Forall (fun e => pass_effect e = true) es
    /\ (length (published_keys es)
        <= length (filter (fun row => r_event_type row = "INSERT") rows))%nat
    /\ (length (published_keys es) = length done
        \/ (is_ok r = false /\ length (published_keys es) = S (length done))).
Proof.
  induction rows as [|row rows IH]; intros w.
  - exists (Ok tt), 0%nat, [], []. rewrite extend_0_nil, set_db_advance_nil.
    split_and!; try done; try (by constructor).
  - simpl. unfold bind.
    destruct (process_row_full t row w)
      as (r1 & k1 & es1 & wrote & Hrun1 & Hcw1 & Hwrote & Hok1 & Hkeys1 & Heff1 & Hlen1).
    rewrite Hrun1. destruct r1 as [[]|e].
    + destruct (Hok1 eq_refl) as [Hw Hpub1].
      destruct (IH (extend k1 es1 (if wrote then set_db (advance t [row]) w else w)))
        as (r2 & k2 & es2 & done2 & Hrun2 & Hcw2 & Hpre2 & Hok2 & Hkeys2 & Heff2 & Hlen2 & Hcnt2).
      rewrite Hrun2.
      exists r2, (k2 + k1)%nat, (es1 ++ es2), (if wrote then row :: done2 else done2).
      split_and!.
      * destruct wrote; by to_extend.
      * rewrite cursor_writes_app, Hcw1, Hcw2. by destruct wrote.
      * rewrite Hw. destruct (decide (r_event_type row = "INSERT")) as [Hi|Hi].
        -- rewrite bool_decide_eq_true_2, filter_cons_True by done. by apply prefix_cons.
        -- by rewrite bool_decide_eq_false_2, filter_cons_False by done.
      * intros Hr2. rewrite (Hok2 Hr2), Hw.
        destruct (decide (r_event_type row = "INSERT")) as [Hi|Hi].
        -- by rewrite bool_decide_eq_true_2, filter_cons_True by done.
        -- by rewrite bool_decide_eq_false_2, filter_cons_False by done.
      * rewrite published_keys_app. by apply Forall_app.
      * by apply Forall_app.
      * rewrite published_keys_app, length_app.
        destruct (decide (r_event_type row = "INSERT")) as [Hi|Hi].
        -- rewrite bool_decide_eq_true_2 in Hlen1 by done.
           rewrite filter_cons_True by done. simpl. lia.
        -- rewrite bool_decide_eq_false_2 in Hlen1 by done.
           rewrite filter_cons_False by done. lia.
      * rewrite published_keys_app, length_app, Hpub1.
        destruct Hcnt2 as [Hc|[Hf Hc]]; [left|right; split; [done|]];
          destruct wrote; simpl; lia.
    + assert (wrote = false) as -> by (destruct wrote; [by specialize (Hwrote eq_refl)|done]).
      exists (Throw e), k1, es1, []. rewrite set_db_advance_nil.
      split_and!; try done.
      * apply prefix_nil.
      * destruct (decide (r_event_type row = "INSERT")) as [Hi|Hi].
        -- rewrite bool_decide_eq_true_2 in Hlen1 by done.
           rewrite filter_cons_True by done. simpl. lia.
        -- rewrite bool_decide_eq_false_2 in Hlen1 by done. lia.
      * simpl.
        destruct (decide (r_event_type row = "INSERT")) as [Hi|Hi].
        -- rewrite bool_decide_eq_true_2 in Hlen1 by done.
           destruct (published_keys es1) as [|? [|? ?]]; simpl in *; [by left|by right|lia].
        -- rewrite bool_decide_eq_false_2 in Hlen1 by done.
           left. lia.
Qed.

Lemma processChanges_full t positions w :
  exists r k es done,
    CDC.processChanges env t positions w = (r, extend k es (set_db (advance t done) w))
    /\ cursor_writes es = map (fun row => (CDC.t_entity t, r_id row)) done
    /\ done `prefix_of` translated t positions (event_log (db w))
    /\ (r = Ok tt -> done = translated t positions (event_log (db w)))
    /\ Forall (fun key => key = CDC.t_entity t +:+ "." +:+ CDC.t_type t) (published_keys es)
    /\ Forall (fun e => pass_effect e = true) es
    /\ (length (published_keys es) <= length (translated t positions (event_log (db w))))%nat
    /\ (length (published_keys es) = length done
        \/ (is_ok r = false /\ length (published_keys es) = S (length done))).
Proof.
  assert (Hnone : forall (r : result unit) k, (exists e, r = Throw e) ->
    exists r' k' es done,
      (r, extend k [] w) = (r', extend k' es (set_db (advance t done) w))
      /\ cursor_writes es = map (fun row => (CDC.t_entity t, r_id row)) done
      /\ done `prefix_of` translated t positions (event_log (db w))
      /\ (r' = Ok tt -> done = translated t positions (event_log (db w)))
      /\ Forall (fun key => key = CDC.t_entity t +:+ "." +:+ CDC.t_type t)
           (published_keys es)
      /\ Forall (fun e => pass_effect e = true) es
      /\ (length (published_keys es)
          <= length (translated t positions (event_log (db w))))%nat
      /\ (length (published_keys es) = length done
          \/ (is_ok r' = false /\ length (published_keys es) = S (length done)))).
  { intros r k [e ->]. exists (Throw e), k, [], []. rewrite set_db_advance_nil.
    split_and!; try done; try (by constructor); [apply prefix_nil | simpl; lia]. }
  unfold CDC.processChanges, CDC.client_query. fold (lastPosition t positions).
  fold (query_bound t positions). unfold bind.
  destruct (query_outcome env (tick w)) as [[]|e].
  2:{ rewrite next_tick_extend. apply Hnone. by exists e. }
  unfold CDC.select_event_log.
  destruct (query_bound t positions) as [[u|s]|] eqn:Hbound.
  2:{ rewrite next_tick_extend. apply Hnone. by eexists. }
  all: unfold translated; rewrite Hbound.
  all: match goal with |- context [CDC.process_rows _ _ ?rows ?w1] =>
         destruct (process_rows_full t rows w1)
           as (r & k & es & done & Hrun & Hcw & Hpre & Hok & Hkeys & Heff & Hlen & Hcnt);
         rewrite Hrun
       end.
  all: eexists r, _, (_ ++ es), done; split; [to_extend; reflexivity|].
  all: split_and!; try done.
  all: try (by rewrite cursor_writes_app).
  all: try (by rewrite published_keys_app).
  all: by apply Forall_app; split; [repeat constructor|].
Qed.

(** The three passes of one scan, with what they publish. *)
Lemma passes_full positions w1 :
  exists r k es d1 d2 d3 p1 p2 p3,
    (CDC.processClienteChanges env positions ;;;
     CDC.processProdutoChanges env positions ;;;
     CDC.processPedidoChanges env positions)%bus w1 =
      (r,
       extend k es
         (set_db (advance CDC.Pedido d3)
            (set_db (advance CDC.Produto d2)
               (set_db (advance CDC.Cliente d1) w1))))
    /\ cursor_writes es =
         map (fun row => ("Cliente", r_id row)) d1
         ++ map (fun row => ("Produto", r_id row)) d2
         ++ map (fun row => ("Pedido", r_id row)) d3
    /\ published_keys es =
         replicate p1 (event_key CDC.Cliente) ++ replicate p2 (event_key CDC.Produto)
         ++ replicate p3 (event_key CDC.Pedido)
    /\ (d1 `prefix_of` translated CDC.Cliente positions (event_log (db w1))
        /\ d2 `prefix_of` translated CDC.Produto positions (event_log (db w1))
        /\ d3 `prefix_of` translated CDC.Pedido positions (event_log (db w1)))
    /\ (r = Ok tt ->
        d1 = translated CDC.Cliente positions (event_log (db w1))
        /\ d2 = translated CDC.Produto positions (event_log (db w1))
        /\ d3 = translated CDC.Pedido positions (event_log (db w1)))
    /\ ((p1 <= length (translated CDC.Cliente positions (event_log (db w1))))%nat
        /\ (p2 <= length (translated CDC.Produto positions (event_log (db w1))))%nat
        /\ (p3 <= length (translated CDC.Pedido positions (event_log (db w1))))%nat)
    /\ ((p1 + p2 + p3 = length d1 + length d2 + length d3)%nat
        \/ (is_ok r = false
            /\ (p1 + p2 + p3 = S (length d1 + length d2 + length d3))%nat))
    /\ Forall (fun e => pass_effect e = true) es.
Proof.
  unfold CDC.processClienteChanges, CDC.processProdutoChanges, CDC.processPedidoChanges.
  unfold bind.
  destruct (processChanges_full CDC.Cliente positions w1)
    as (r1 & k1 & es1 & d1 & Hrun1 & Hcw1 & Hpre1 & Hok1 & Hkeys1 & Heff1 & Hlen1 & Hcnt1).
  apply Forall_eq_replicate in Hkeys1.
  rewrite Hrun1. destruct r1 as [[]|e1].
  2:{ exists (Throw e1), k1, es1, d1, [], [], (length (published_keys es1)), 0%nat, 0%nat.
      rewrite !set_db_advance_nil. simpl. rewrite !app_nil_r.
      split_and!; try done; try apply prefix_nil; try lia.
      all: destruct Hcnt1 as [Hc|[_ Hc]]; [left|right; split; [done|]]; lia. }
  destruct Hcnt1 as [Hcnt1|[? _]]; [|done].
  set (w2 := extend k1 es1 (set_db (advance CDC.Cliente d1) w1)).
  assert (Hlog2 : event_log (db w2) = event_log (db w1))
    by (unfold w2; simpl; apply advance_event_log).
  destruct (processChanges_full CDC.Produto positions w2)
    as (r2 & k2 & es2 & d2 & Hrun2 & Hcw2 & Hpre2 & Hok2 & Hkeys2 & Heff2 & Hlen2 & Hcnt2).
  apply Forall_eq_replicate in Hkeys2.
  rewrite Hlog2 in Hpre2, Hok2, Hlen2. rewrite Hrun2. destruct r2 as [[]|e2].
  2:{ exists (Throw e2), (k2 + k1)%nat, (es1 ++ es2), d1, d2, [],
        (length (published_keys es1)), (length (published_keys es2)), 0%nat.
      rewrite set_db_advance_nil. simpl. rewrite !app_nil_r.
      split_and!; try done; try apply prefix_nil; try lia.
      all: try (unfold w2; by to_extend).
      all: try (by rewrite cursor_writes_app, Hcw1, Hcw2).
      all: try (by rewrite published_keys_app; rewrite Hkeys1 at 1; rewrite Hkeys2 at 1).
      all: try (by apply Forall_app).
      all: destruct Hcnt2 as [Hc|[_ Hc]]; [left|right; split; [done|]]; lia. }
  destruct Hcnt2 as [Hcnt2|[? _]]; [|done].
  set (w3 := extend k2 es2 (set_db (advance CDC.Produto d2) w2)).
  assert (Hlog3 : event_log (db w3) = event_log (db w1))
    by (unfold w3; simpl; rewrite advance_event_log; apply Hlog2).
  destruct (processChanges_full CDC.Pedido positions w3)
    as (r3 & k3 & es3 & d3 & Hrun3 & Hcw3 & Hpre3 & Hok3 & Hkeys3 & Heff3 & Hlen3 & Hcnt3).
  apply Forall_eq_replicate in Hkeys3.
  rewrite Hlog3 in Hpre3, Hok3, Hlen3. rewrite Hrun3.
  exists r3, (k3 + k2 + k1)%nat, (es1 ++ es2 ++ es3), d1, d2, d3,
    (length (published_keys es1)), (length (published_keys es2)),
    (length (published_keys es3)).
  split_and!; try done; try lia.
  all: try (unfold w3, w2; by to_extend).
  all: try (by rewrite !cursor_writes_app, Hcw1, Hcw2, Hcw3).
  all: try (rewrite !published_keys_app;
            by rewrite Hkeys1 at 1; rewrite Hkeys2 at 1; rewrite Hkeys3 at 1).
  all: try (intros Hr; by rewrite (Hok1 eq_refl), (Hok2 eq_refl), (Hok3 Hr)).
  all: try (by rewrite !Forall_app).
  all: destruct Hcnt3 as [Hc|[Hf Hc]]; [left|right; split; [done|]]; lia.
Qed.
End ScanMore.

Section CycleMore.
Variable env : Env.
Variable config : CDC.CDCConfig.

Lemma pending_extend t k es w : pending t (extend k es w) = pending t w.
Proof. reflexivity. Qed.

(** One turn of the polling loop, with what it publishes and the clients
    it checks out. *)
Lemma poll_once_full w :
  exists k es d1 d2 d3 p1 p2 p3,
    CDC.poll_once env config w =
      (Ok tt,
       extend k es
         (set_db (advance CDC.Pedido d3)
            (set_db (advance CDC.Produto d2)
               (set_db (advance CDC.Cliente d1) w))))
    /\ cursor_writes es =
         map (fun row => ("Cliente", r_id row)) d1
         ++ map (fun row => ("Produto", r_id row)) d2
         ++ map (fun row => ("Pedido", r_id row)) d3
    /\ published_keys es =
         replicate p1 (event_key CDC.Cliente) ++ replicate p2 (event_key CDC.Produto)
         ++ replicate p3 (event_key CDC.Pedido)
    /\ (d1 `prefix_of` pending CDC.Cliente w
        /\ d2 `prefix_of` pending CDC.Produto w
        /\ d3 `prefix_of` pending CDC.Pedido w)
    /\ (fst (CDC.checkForChanges env w) = Ok tt ->
        d1 = pending CDC.Cliente w /\ d2 = pending CDC.Produto w
        /\ d3 = pending CDC.Pedido w)
    /\ ((p1 <= length (pending CDC.Cliente w))%nat
        /\ (p2 <= length (pending CDC.Produto w))%nat
        /\ (p3 <= length (pending CDC.Pedido w))%nat)
    /\ ((p1 + p2 + p3 = length d1 + length d2 + length d3)%nat
        \/ (is_ok (fst (CDC.checkForChanges env w)) = false
            /\ (p1 + p2 + p3 = S (length d1 + length d2 + length d3))%nat))
    /\ count is_pool_connect es = count is_release es
    /\ timeouts es = [CDC.cfg_pollIntervalMs config].
Proof.
  rewrite poll_once_eq, checkForChanges_eq.
  destruct (query_outcome env (tick w)) as [[]|e0].
  2:{ eexists _, _, [], [], [], 0%nat, 0%nat, 0%nat. rewrite !set_db_advance_nil.
      split; [to_extend; reflexivity|].
      split_and!; try done; try apply prefix_nil; try (simpl; lia). }
  destruct (query_outcome env (S (tick w))) as [[]|e1].
  2:{ eexists _, _, [], [], [], 0%nat, 0%nat, 0%nat. rewrite !set_db_advance_nil.
      split; [to_extend; reflexivity|].
      split_and!; try done; try apply prefix_nil; try (simpl; lia). }
  destruct (passes_full env (scan_positions w) (scan_start w))
    as (r & k & es & d1 & d2 & d3 & p1 & p2 & p3 & Hrun & Hcw & Hpub & Hpre & Hok
        & Hlen & Hcnt & Heff).
  rewrite Hrun. unfold scan_start in *. simpl in Hpre, Hok, Hlen.
  assert (Hquiet : count is_pool_connect es = 0%nat /\ count is_release es = 0%nat
                   /\ timeouts es = []).
  { clear -Heff. induction Heff as [|e es He _ IH]; [done|].
    destruct IH as (IH1 & IH2 & IH3).
    destruct e as [| | | | | | | | | | | | | | |[]|]; simpl in *; try discriminate; done. }
  destruct Hquiet as (Hq1 & Hq2 & Hq3).
  destruct r as [[]|e].
  - eexists _, _, d1, d2, d3, p1, p2, p3. split; [to_extend; reflexivity|].
    split_and!; try done; try apply Hpre; try apply Hlen.
    all: try (rewrite !cursor_writes_app, Hcw; simpl; by rewrite !app_nil_r).
    all: try (rewrite !published_keys_app, Hpub; simpl; by rewrite !app_nil_r).
    all: try (by rewrite !count_app, Hq1, Hq2).
    all: try (by rewrite !timeouts_app, Hq3).
    all: try (intros _; apply Hok; done).
    all: destruct Hcnt as [Hc|[_ Hc]]; [by left|by right].
  - eexists _, _, d1, d2, d3, p1, p2, p3. split; [to_extend; reflexivity|].
    split_and!; try done; try apply Hpre; try apply Hlen.
    all: try (rewrite !cursor_writes_app, Hcw; simpl; by rewrite !app_nil_r).
    all: try (rewrite !published_keys_app, Hpub; simpl; by rewrite !app_nil_r).
    all: try (by rewrite !count_app, Hq1, Hq2).
    all: try (by rewrite !timeouts_app, Hq3).
    all: try (intros _; apply Hok; done).
    all: destruct Hcnt as [Hc|[_ Hc]]; [by left|by right].
Qed.

End CycleMore.

Lemma StronglySorted_snoc_le {A} (R : relation A) l x y :
  StronglySorted R (l ++ [x]) -> y ∈ l -> R y x.
Proof.
  induction l as [|a l IH]; simpl; intros Hs Hy; [by apply elem_of_nil in Hy|].
  apply StronglySorted_inv in Hs as [Hs Hall].
  apply elem_of_cons in Hy as [->|Hy]; [|by apply IH].
  rewrite Forall_forall in Hall. apply Hall. apply elem_of_app. right. by left.
Qed.

(** Once a pass has translated everything that was pending for its entity
    type, nothing is pending for it any more. *)
Lemma pending_after_pass t w w' :
  event_log (db w') = event_log (db w) ->
  cdc_position (db w') !! CDC.t_entity t
    = cdc_position (advance t (pending t w) (db w)) !! CDC.t_entity t ->
  pending t w' = [].
Proof.
  intros Hlog Hcur.
  destruct (translated_spec t (scan_positions w) (event_log (db w))) as [Hin Hsorted].
  fold (pending t w) in Hin, Hsorted.
  destruct (translated_spec t (scan_positions w') (event_log (db w'))) as [Hin' _].
  fold (pending t w') in Hin'.
  apply elem_of_nil_inv. intros row Hrow.
  apply Hin' in Hrow as (Hlogrow & Hent & Hins & Hafter).
  rewrite Hlog in Hlogrow.
  rewrite query_bound_stored, Hcur in Hafter.
  destruct (pending t w) as [|r0 rest] eqn:Hpend using rev_ind.
  - simpl in Hafter. rewrite <- query_bound_stored in Hafter.
    assert (row ∈ @nil Row) as Hnil; [|by apply elem_of_nil in Hnil].
    apply Hin. done.
  - clear IHrest. rewrite advance_last in Hafter. simpl in Hafter.
    assert (Hlast : r0 ∈ rest ++ [r0]) by (apply elem_of_app; right; by left).
    apply Hin in Hlast as (_ & _ & _ & Hafter0).
    assert (Hrow : row ∈ rest ++ [r0]).
    { apply Hin. split_and!; try done.
      destruct (query_bound t (scan_positions w)) as [[u|s]|]; simpl in *; [lia|done|done]. }
    apply elem_of_app in Hrow as [Hrow|Hrow].
    + pose proof (StronglySorted_snoc_le _ _ _ _ Hsorted Hrow) as Hle.
      unfold CDC.id_le in Hle. lia.
    + apply list_elem_of_singleton in Hrow as ->. lia.
Qed.

Lemma advance_same_key t rows d d' :
  cdc_position d !! CDC.t_entity t = cdc_position d' !! CDC.t_entity t ->
  cdc_position (advance t rows d) !! CDC.t_entity t
    = cdc_position (advance t rows d') !! CDC.t_entity t.
Proof.
  intros H. destruct rows as [|row rows _] using rev_ind; [done|].
  by rewrite !advance_last.
Qed.

Section Dup.
Variable env : Env.
Variable config : CDC.CDCConfig.

Lemma poll_once_quiescent w :
  quiescent w ->
  exists k es,
    CDC.poll_once env config w = (Ok tt, extend k es w)
    /\ published_keys es = [] /\ cursor_writes es = [].
Proof.
  intros (Q1 & Q2 & Q3).
  destruct (poll_once_full env config w)
    as (k & es & d1 & d2 & d3 & p1 & p2 & p3 & Hrun & Hcw & Hpub & (H1 & H2 & H3) & _
        & (L1 & L2 & L3) & _).
  rewrite Q1 in H1, L1. rewrite Q2 in H2, L2. rewrite Q3 in H3, L3.
  apply prefix_nil_inv in H1 as ->. apply prefix_nil_inv in H2 as ->.
  apply prefix_nil_inv in H3 as ->. simpl in L1, L2, L3.
  assert (p1 = 0%nat) as -> by lia. assert (p2 = 0%nat) as -> by lia.
  assert (p3 = 0%nat) as -> by lia.
  rewrite !set_db_advance_nil in Hrun. by exists k, es.
Qed.

Lemma poll_quiescent n :
  forall w, quiescent w ->
  exists k es,
    CDC.poll env config n w = (Ok tt, extend k es w)
    /\ published_keys es = [] /\ cursor_writes es = [].
Proof.
  induction n as [|n IH]; intros w Q; simpl.
  - exists 0%nat, []. by rewrite extend_0_nil.
  - unfold bind. destruct (poll_once_quiescent w Q) as (k1 & es1 & Hrun1 & Hp1 & Hc1).
    rewrite Hrun1.
    destruct (IH (extend k1 es1 w) Q) as (k2 & es2 & Hrun2 & Hp2 & Hc2).
    rewrite Hrun2. exists (k2 + k1)%nat, (es1 ++ es2). split; [by to_extend|].
    by rewrite published_keys_app, cursor_writes_app, Hp1, Hp2, Hc1, Hc2.
Qed.

(** X1.  If the first scan of a run of the polling loop ends without an
    error, every row pending at its start is published exactly once over the
    whole run, however many turns follow and whatever fails in them (the
    change log staying as it is): the first turn publishes one event per
    pending row, entity type by entity type, and records each row as the
    cursor of its type; the later turns publish nothing and write no
    cursor, because nothing is pending any more. *)
Theorem X1_clean_cycle_publishes_exactly_once (w : World) (n : nat) :
  fst (CDC.checkForChanges env w) = Ok tt ->
  let es := effects_of (CDC.poll env config (S n)) w in
  published_keys es =
    replicate (length (pending CDC.Cliente w)) "Cliente.ClienteCriado"
    ++ replicate (length (pending CDC.Produto w)) "Produto.ProdutoCriado"
    ++ replicate (length (pending CDC.Pedido w)) "Pedido.PedidoCriado"
  /\ cursor_writes es =
       map (fun row => ("Cliente", r_id row)) (pending CDC.Cliente w)
       ++ map (fun row => ("Produto", r_id row)) (pending CDC.Produto w)
       ++ map (fun row => ("Pedido", r_id row)) (pending CDC.Pedido w)
  /\ quiescent (snd (CDC.poll env config (S n) w)).
Proof.
  intros Hclean es.
  destruct (poll_once_full env config w)
    as (k & es1 & d1 & d2 & d3 & p1 & p2 & p3 & Hrun & Hcw & Hpub & _ & Hok
        & (L1 & L2 & L3) & Hcnt & _).
  destruct (Hok Hclean) as (-> & -> & ->).
  rewrite Hclean in Hcnt. destruct Hcnt as [Hcnt|[? _]]; [|done].
  assert (p1 = length (pending CDC.Cliente w)) as -> by lia.
  assert (p2 = length (pending CDC.Produto w)) as -> by lia.
  assert (p3 = length (pending CDC.Pedido w)) as -> by lia.
  set (w1 := extend k es1 _) in Hrun.
  assert (Q : quiescent w1).
  { unfold quiescent, w1. rewrite !pending_extend. split_and!.
    - apply (pending_after_pass CDC.Cliente w); simpl.
      + by rewrite !advance_event_log.
      + by rewrite !advance_other by (simpl; discriminate).
    - apply (pending_after_pass CDC.Produto w); simpl.
      + by rewrite !advance_event_log.
      + rewrite advance_other by (simpl; discriminate).
        apply (advance_same_key CDC.Produto).
        by rewrite advance_other by (simpl; discriminate).
    - apply (pending_after_pass CDC.Pedido w); simpl.
      + by rewrite !advance_event_log.
      + apply (advance_same_key CDC.Pedido).
        by rewrite !advance_other by (simpl; discriminate). }
  destruct (poll_quiescent n w1 Q) as (k2 & es2 & Hrun2 & Hp2 & Hc2).
  assert (Hall : CDC.poll env config (S n) w = (Ok tt, extend k2 es2 w1)).
  { simpl. unfold bind. by rewrite Hrun, Hrun2. }
  assert (Hes : es = es1 ++ es2).
  { unfold es, effects_of. rewrite Hall. unfold w1. simpl.
    rewrite <- app_assoc. apply drop_app_length. }
  rewrite Hes, published_keys_app, cursor_writes_app, Hp2, Hc2, !app_nil_r, Hall.
  split_and!; [done|done|]. simpl. unfold quiescent in *. by rewrite !pending_extend.
Qed.
End Dup.

(** X1, run: two pending rows, three turns of the loop. *)
Lemma X1_clean_cycle_publishes_exactly_once_witness :
  published_keys (effects_of (CDC.poll calm_env cdc_config 3) two_entity_world)
  = ["Cliente.ClienteCriado"; "Produto.ProdutoCriado"]
  /\ cursor_writes (effects_of (CDC.poll calm_env cdc_config 3) two_entity_world)
     = [("Cliente", 7%N); ("Produto", 3%N)].
Proof.
  destruct (X1_clean_cycle_publishes_exactly_once calm_env cdc_config two_entity_world 2)
    as (Hpub & Hcur & _).
  - reflexivity.
  - split; [exact Hpub | exact Hcur].
Defined.

Section Loop.
Variable env : Env.
Variable config : CDC.CDCConfig.

Lemma set_db_set_db f g w : set_db f (set_db g w) = set_db (fun d => f (g d)) w.
Proof. reflexivity. Qed.

(** [n] turns of the polling loop. *)
Lemma poll_full n :
  forall w,
  exists k es f,
    CDC.poll env config n w = (Ok tt, extend k es (set_db f w))
    /\ (forall d, event_log (f d) = event_log d)
    /\ (length (cursor_writes es) <= length (published_keys es))%nat
    /\ (length (published_keys es) <= length (cursor_writes es) + n)%nat
    /\ count is_pool_connect es = count is_release es
    /\ timeouts es = replicate n (CDC.cfg_pollIntervalMs config).
Proof.
  induction n as [|n IH]; intros w; simpl.
  - exists 0%nat, [], (fun d => d). rewrite extend_0_nil, set_db_id. done.
  - unfold bind.
    destruct (poll_once_full env config w)
      as (k1 & es1 & d1 & d2 & d3 & p1 & p2 & p3 & Hrun & Hcw & Hpub & _ & _ & _
          & Hcnt & Hpool & Hwait).
    rewrite Hrun.
    match type of Hrun with _ = (_, ?w1) => destruct (IH w1)
      as (k2 & es2 & f2 & Hrun2 & Hlog2 & Hle2 & Hge2 & Hpool2 & Hwait2) end.
    rewrite Hrun2. eexists (k2 + k1)%nat, (es1 ++ es2), _.
    split; [rewrite !set_db_extend, !set_db_set_db; by to_extend|].
    split; [intros d; by rewrite Hlog2, !advance_event_log|].
    rewrite cursor_writes_app, published_keys_app, !length_app, !count_app, timeouts_app.
    rewrite Hcw, Hpub, !length_app, !length_map, !length_replicate.
    split_and!.
    + destruct Hcnt as [Hc|[_ Hc]]; lia.
    + destruct Hcnt as [Hc|[_ Hc]]; lia.
    + by rewrite Hpool, Hpool2.
    + by rewrite Hwait, Hwait2.
Qed.
End Loop.

(** X2.  Over [n] turns of the polling loop, whatever fails: no cursor is
    written without a publish before it, and at most [n] events are
    published without their cursor write, at most one per turn (such an
    event is published again by a later scan).  A turn whose scan ends
    without an error publishes exactly as many events as it writes
    cursors. *)
Theorem X2_at_most_one_unrecorded_publish_per_turn (env : Env) (config : CDC.CDCConfig)
  (n : nat) (w : World) :
  let es := effects_of (CDC.poll env config n) w in
  (length (cursor_writes es) <= length (published_keys es))%nat
  /\ (length (published_keys es) <= length (cursor_writes es) + n)%nat
  /\ (forall w0,
        fst (CDC.checkForChanges env w0) = Ok tt ->
        length (published_keys (effects_of (CDC.poll_once env config) w0))
        = length (cursor_writes (effects_of (CDC.poll_once env config) w0))).
Proof.
  intros es.
  destruct (poll_full env config n w) as (k & es' & f & Hrun & _ & Hle & Hge & _).
  assert (Hes : es = es').
  { unfold es. eapply effects_of_shape; [exact Hrun|done]. }
  rewrite Hes. split; [done|]. split; [done|].
  intros w0 Hclean.
  destruct (poll_once_full env config w0)
    as (k1 & es1 & d1 & d2 & d3 & p1 & p2 & p3 & Hrun1 & Hcw & Hpub & _ & _ & _ & Hcnt & _).
  rewrite (effects_of_shape _ _ _ _ _ _ Hrun1) by done.
  rewrite Hcw, Hpub, !length_app, !length_map, !length_replicate.
  rewrite Hclean in Hcnt. destruct Hcnt as [Hc|[? _]]; [lia|done].
Qed.


Section Poison.
Variable env : Env.
Variable config : CDC.CDCConfig.

(** Rows that are not ['INSERT'] are passed over; the first ['INSERT'] row
    whose data cannot be parsed ends the pass, before anything is sent. *)
Lemma process_rows_poison t rows row rest w :
  filter (fun r => r_event_type r = "INSERT") rows = row :: rest ->
  is_ok (JSON_parse env (r_data row)) = false ->
  exists e, CDC.process_rows env t rows w = (Throw e, w).
Proof.
  intros Hfilter Hparse. induction rows as [|r0 rows IH]; [done|].
  simpl. unfold bind, CDC.process_row.
  destruct (decide (r_event_type r0 = "INSERT")) as [Hi|Hi].
  - rewrite filter_cons_True in Hfilter by done. injection Hfilter as -> _.
    rewrite Hi. simpl. unfold bind, settle.
    destruct (JSON_parse env (r_data row)) as [?|e]; [done|]. by exists e.
  - rewrite filter_cons_False in Hfilter by done.
    destruct (String.eqb_spec (r_event_type r0) "INSERT"); [done|].
    simpl. by apply IH.
Qed.

Lemma processChanges_poison t positions row rest w :
  translated t positions (event_log (db w)) = row :: rest ->
  is_ok (JSON_parse env (r_data row)) = false ->
  exists e k es,
    CDC.processChanges env t positions w = (Throw e, extend k es w)
    /\ published_keys es = [] /\ cursor_writes es = []
    /\ count is_pool_connect es = 0%nat /\ count is_release es = 0%nat
    /\ timeouts es = [].
Proof.
  intros Htr Hparse.
  unfold CDC.processChanges, CDC.client_query. fold (lastPosition t positions).
  fold (query_bound t positions). unfold bind.
  destruct (query_outcome env (tick w)) as [[]|e].
  2:{ exists e, 1%nat, []. by rewrite next_tick_extend. }
  unfold CDC.select_event_log. unfold translated in Htr.
  destruct (query_bound t positions) as [[u|s]|] eqn:Hbound.
  2:{ eexists _, 1%nat, []. by rewrite next_tick_extend. }
  all: match goal with |- context [CDC.process_rows _ _ ?rows ?w1] =>
         destruct (process_rows_poison t rows row rest w1 Htr Hparse) as [e Hrun];
         rewrite Hrun
       end.
  all: eexists e, _, _; split; [to_extend; rewrite set_db_id; reflexivity|done].
Qed.

Lemma poll_once_poison row rest w :
  pending CDC.Cliente w = row :: rest ->
  is_ok (JSON_parse env (r_data row)) = false ->
  exists k es,
    CDC.poll_once env config w = (Ok tt, extend k es w)
    /\ published_keys es = [] /\ cursor_writes es = []
    /\ fst (CDC.checkForChanges env w) <> Ok tt.
Proof.
  intros Hpend Hparse. rewrite poll_once_eq, checkForChanges_eq.
  destruct (query_outcome env (tick w)) as [[]|e0].
  2:{ eexists _, _. split; [to_extend; reflexivity|]. split_and!; try done;
      try (simpl; discriminate). }
  destruct (query_outcome env (S (tick w))) as [[]|e1].
  2:{ eexists _, _. split; [to_extend; reflexivity|]. split_and!; try done;
      try (simpl; discriminate). }
  destruct (processChanges_poison CDC.Cliente (scan_positions w) row rest (scan_start w))
    as (e & k & es & Hrun & Hp & Hc & _); [done|done|].
  assert (Hpasses :
    (CDC.processClienteChanges env (scan_positions w) ;;;
     CDC.processProdutoChanges env (scan_positions w) ;;;
     CDC.processPedidoChanges env (scan_positions w))%bus (scan_start w)
    = (Throw e, extend k es (scan_start w))).
  { unfold CDC.processClienteChanges. unfold bind at 1. by rewrite Hrun. }
  rewrite Hpasses. unfold scan_start. eexists _, _. split; [to_extend; reflexivity|].
  rewrite !published_keys_app, !cursor_writes_app, Hp, Hc.
  split_and!; try done; try (simpl; discriminate).
Qed.

(** X4.  Head-of-line blocking.  If the first pending row of [Cliente] --
    the first entity type of a scan -- has data that [JSON.parse] rejects,
    every scan ends at that row before anything is sent: over any number of
    turns of the polling loop no event of any entity type is published, no
    cursor is written and the database stays as it is. *)
Theorem X4_poison_row_blocks_the_scan (w : World) (row : Row) (rest : list Row) (n : nat) :
  pending CDC.Cliente w = row :: rest ->
  is_ok (JSON_parse env (r_data row)) = false ->
  let run := CDC.poll env config n in
  fst (run w) = Ok tt
  /\ published_keys (effects_of run w) = []
  /\ cursor_writes (effects_of run w) = []
  /\ db (snd (run w)) = db w.
Proof.
  intros Hpend Hparse run.
  assert (H : exists k es, run w = (Ok tt, extend k es w)
                           /\ published_keys es = [] /\ cursor_writes es = []).
  { unfold run. clear run. revert w Hpend. induction n as [|m IH]; intros w Hpend; simpl.
    - exists 0%nat, []. by rewrite extend_0_nil.
    - unfold bind.
      destruct (poll_once_poison row rest w Hpend Hparse) as (k1 & es1 & Hrun1 & Hp1 & Hc1 & _).
      rewrite Hrun1.
      destruct (IH (extend k1 es1 w)) as (k2 & es2 & Hrun2 & Hp2 & Hc2); [done|].
      rewrite Hrun2. exists (k2 + k1)%nat, (es1 ++ es2). split; [by to_extend|].
      by rewrite published_keys_app, cursor_writes_app, Hp1, Hp2, Hc1, Hc2. }
  destruct H as (k & es & Hrun & Hp & Hc).
  rewrite (effects_of_extend _ _ _ _ _ Hrun), Hrun. done.
Qed.
End Poison.

(** X4, run: a garbled [Cliente] row ahead of a well-formed [Produto] row. *)
Lemma X4_poison_row_blocks_the_scan_witness :
  published_keys
    (effects_of (CDC.poll calm_env cdc_config 3)
       (log_world [row_cliente_garbled; row_produto_insert])) = []
  /\ db (snd (CDC.poll calm_env cdc_config 3
                (log_world [row_cliente_garbled; row_produto_insert])))
     = db (log_world [row_cliente_garbled; row_produto_insert]).
Proof.
  destruct (X4_poison_row_blocks_the_scan calm_env cdc_config
              (log_world [row_cliente_garbled; row_produto_insert])
              row_cliente_garbled [] 3) as (_ & Hpub & _ & Hdb).
  - reflexivity.
  - reflexivity.
  - split; [exact Hpub | exact Hdb].
Defined.

(** X5.  What is published for a row.  An [INSERT] row whose data parses
    to an object is published on exchange [agentic.events] under the key
    [<Entity>.<Entity>Criado] as the encoding of [row_event]: the envelope
    carries the row's correlation id (also as header [x-correlation-id]),
    the source ['cdc'] and version 1, and a freshly generated id (header
    [x-event-id]), not an id of the row; the cursor of the entity type is
    then set to the row's id. *)
Theorem X5_row_event_is_traceable (env : Env) (t : CDC.Tracked) (row : Row) (data : json)
  (body : string) (w : World) :
  r_event_type row = "INSERT" ->
  JSON_parse env (r_data row) = Ok data ->
  data <> JNull -> data <> JUndefined ->
  channel (bus w) <> None ->
  JSON_stringify env (row_event env t row data (tick w)) = Ok body ->
  send_outcome env (S (tick w)) = SendTrue ->
  query_outcome env (S (S (tick w))) = Ok tt ->
  CDC.process_row env t row w =
    (Ok tt,
     extend 3
       [EPublish "agentic.events" (CDC.t_entity t +:+ "." +:+ CDC.t_type t) body
          [("x-event-id", uuidv4 env (tick w));
           ("x-correlation-id", r_correlation_id row)];
        ELog LDebug "Event published" [];
        EQuery (UpsertPosition (CDC.t_entity t) (r_id row));
        ELog LDebug (CDC.t_published t) []]
       (set_db (advance t [row]) w)).
Proof.
  intros Hins Hparse Hnull Hundef Hch Hstr Hsend Hquery.
  unfold CDC.process_row. rewrite Hins. simpl.
  unfold CDC.object_of, CDC.criarEvent, CDC.client_query. run_monad.
  rewrite Hparse. simpl.
  unfold row_event in Hstr.
  destruct data; try done; simpl.
  all: rewrite event_publish_eq; simpl.
  all: destruct (channel (bus w)) as [c|]; [|done].
  all: unfold str_or_empty; rewrite Hstr; simpl; rewrite Hsend; simpl.
  all: rewrite Hquery; simpl; by to_extend.
Qed.

(** X5, run: the pending [Cliente] row of the examples. *)
Lemma X5_row_event_is_traceable_witness :
  CDC.process_row calm_env CDC.Cliente row_cliente_insert (log_world [row_cliente_insert]) =
    (Ok tt,
     extend 3
       [EPublish "agentic.events" "Cliente.ClienteCriado"
          "00000000-0000-4000-8000-000000000000"
          [("x-event-id", "00000000-0000-4000-8000-000000000000");
           ("x-correlation-id", "corr-7")];
        ELog LDebug "Event published" [];
        EQuery (UpsertPosition "Cliente" 7%N);
        ELog LDebug "Cliente event published" []]
       (set_db (advance CDC.Cliente [row_cliente_insert]) (log_world [row_cliente_insert]))).
Proof.
  apply (X5_row_event_is_traceable calm_env CDC.Cliente row_cliente_insert
           (JObj [("id", JStr "c-7")])); try reflexivity; discriminate.
Defined.

(** ** More about the buses: subscribing, connecting, dispatching *)

Section SubscribeFacts.
Variable env : Env.

Lemma event_subscribe_eq handler eventType w :
  EventBus.subscribe env handler eventType w =
  match channel (bus w) with
  | None => (Throw "Channel not initialized", w)
  | Some _ =>
      let q := event_queue env handler eventType in
      let key := binding_key env handler eventType in
      let declared := EAssertQueue q (Some "agentic.dlx") (Some 86400000) in
      let bound := EBindQueue q "agentic.events" key in
      let failed := ELog LError "Failed to subscribe handler" [] in
      match rpc_outcome env (tick w) with
      | Throw e => (Throw e, extend 1 [failed] w)
      | Ok _ =>
          let w1 := set_broker (fun b => with_queues (queues b ++ [q]) b) w in
          match rpc_outcome env (S (tick w)) with
          | Throw e => (Throw e, extend 2 [declared; failed] w1)
          | Ok _ =>
              let w2 := set_bus (register handler eventType)
                          (set_broker (fun b =>
                             with_bindings (bindings b ++ [(q, "agentic.events", key)]) b) w1) in
              match rpc_outcome env (S (S (tick w))) with
              | Throw e => (Throw e, extend 3 [declared; bound; failed] w2)
              | Ok _ =>
                  (Ok tt,
                   extend 3 [declared; bound; EConsume q handler;
                             ELog LInfo "✓ Handler subscribed" []]
                     (set_broker (fun b =>
                        with_consumers (consumers b ++ [(q, handler)]) b) w2))
              end
          end
      end
  end.
Proof.
  unfold EventBus.subscribe. destruct (channel (bus w)) as [c|]; [|done].
  unfold rpc. run_monad.
  destruct (rpc_outcome env (tick w)) as [[]|e]; simpl; [|by to_extend].
  destruct (rpc_outcome env (S (tick w))) as [[]|e]; simpl; [|by to_extend].
  destruct (rpc_outcome env (S (S (tick w)))) as [[]|e]; simpl; by to_extend.
Qed.
End SubscribeFacts.

Lemma app_singleton_neq {A} (l : list A) (x : A) : l ++ [x] <> l.
Proof.
  intros H. apply (f_equal length) in H. rewrite length_app in H. simpl in H. lia.
Qed.

(** X6.  How [subscribe] of the event bus fails.  Without a channel it
    throws at once and does nothing.  Otherwise it returns normally exactly
    when the broker accepted all three calls (declare the queue, bind it,
    install the consumer).  The handler is pushed onto the registry as soon
    as the queue is declared and bound, before the consumer is installed,
    and nothing is undone when a later call fails: a [subscribe] that
    throws because the consumer was refused leaves the handler registered
    with no consumer behind it.  Other event types are not touched. *)
Theorem X6_subscribe_registers_before_consume (env : Env) (handler : Handler)
  (eventType : string) (w : World) :
  let run := EventBus.subscribe env handler eventType in
  let w' := snd (run w) in
  let registered := default [] (handlers (bus w) !! eventType) in
  let q := event_queue env handler eventType in
  let declared := is_ok (rpc_outcome env (tick w)) in
  let bound := is_ok (rpc_outcome env (S (tick w))) in
  let consuming := is_ok (rpc_outcome env (S (S (tick w)))) in
  (channel (bus w) = None -> run w = (Throw "Channel not initialized", w))
  /\ (channel (bus w) <> None ->
      is_ok (fst (run w)) = declared && bound && consuming
      /\ (handlers (bus w') !! eventType = Some (registered ++ [handler])
          <-> declared && bound = true)
      /\ (declared && bound = false -> handlers (bus w') = handlers (bus w))
      /\ consumers (broker w') =
           (if declared && bound && consuming
            then consumers (broker w) ++ [(q, handler)]
            else consumers (broker w))
      /\ (forall other, other <> eventType ->
            handlers (bus w') !! other = handlers (bus w) !! other)).
Proof.
  intros run w' registered q declared bound consuming.
  unfold w', run, declared, bound, consuming. rewrite event_subscribe_eq.
  destruct (channel (bus w)) as [c|]; [|done].
  split; [done|]. intros _.
  assert (Hold : handlers (bus w) !! eventType <> Some (registered ++ [handler])).
  { unfold registered. destruct (handlers (bus w) !! eventType) as [l|]; simpl; [|done].
    intros [= H]. by apply (app_singleton_neq l handler). }
  cbv zeta.
  destruct (rpc_outcome env (tick w)) as [[]|e1]; simpl.
  2:{ split_and!; done. }
  destruct (rpc_outcome env (S (tick w))) as [[]|e2]; simpl.
  2:{ split_and!; done. }
  destruct (rpc_outcome env (S (S (tick w)))) as [[]|e3]; simpl.
  all: split_and!; try done.
  all: try (split; [done|intros _; by rewrite lookup_insert_eq]).
  all: intros other Hother; by rewrite lookup_insert_ne.
Qed.

Section Route.
Variable env : Env.
Variable config : Config.



(** X8.  The queue of a subscription is named after the handler's entity
    type and the event type only.  Two handlers with the same entity type
    that subscribe to the same event type therefore declare the same queue
    twice and are both consumers of that one queue (and both in the
    registry). *)
Theorem X8_same_entity_same_queue (h1 h2 : Handler) (eventType : string) (w : World) :
  entityType env h1 = entityType env h2 ->
  channel (bus w) <> None ->
  (forall i, (i < 6)%nat -> rpc_outcome env (i + tick w) = Ok tt) ->
  let w2 := snd ((EventBus.subscribe env h1 eventType ;;;
                  EventBus.subscribe env h2 eventType)%bus w) in
  let q := event_queue env h1 eventType in
  consumers (broker w2) = consumers (broker w) ++ [(q, h1); (q, h2)]
  /\ queues (broker w2) = queues (broker w) ++ [q; q]
  /\ handlers (bus w2) !! eventType
     = Some (default [] (handlers (bus w) !! eventType) ++ [h1; h2]).
Proof.
  intros Hent Hch Hrpc w2 q. unfold w2, bind.
  pose proof (Hrpc 0%nat ltac:(lia)) as H0. pose proof (Hrpc 1%nat ltac:(lia)) as H1.
  pose proof (Hrpc 2%nat ltac:(lia)) as H2. pose proof (Hrpc 3%nat ltac:(lia)) as H3.
  pose proof (Hrpc 4%nat ltac:(lia)) as H4. pose proof (Hrpc 5%nat ltac:(lia)) as H5.
  simpl in H0, H1, H2, H3, H4, H5.
  rewrite event_subscribe_eq.
  destruct (channel (bus w)) as [c|] eqn:Hc; [|done].
  rewrite H0, H1, H2. cbv beta iota zeta.
  rewrite event_subscribe_eq. simpl. rewrite Hc, H3, H4, H5. simpl.
  unfold q, event_queue. rewrite <- Hent, <- !app_assoc. simpl.
  split_and!; try done.
  rewrite !lookup_insert_eq. simpl. by rewrite <- app_assoc.
Qed.
End Route.


(** X8, run: handlers [1] and [2], both of entity type ["Order"]. *)
Lemma X8_same_entity_same_queue_witness :
  consumers (broker (snd ((EventBus.subscribe calm_env 1%nat "X" ;;;
                           EventBus.subscribe calm_env 2%nat "X")%bus ready_world)))
  = [("agentic.Order.X", 1%nat); ("agentic.Order.X", 2%nat)].
Proof.
  destruct (X8_same_entity_same_queue calm_env 1%nat 2%nat "X" ready_world)
    as (Hconsumers & _).
  - reflexivity.
  - discriminate.
  - intros i _. reflexivity.
  - exact Hconsumers.
Defined.

Lemma registrations_insert (m : gmap string (list Handler)) k l :
  (registrations (<[k := l]> m) + length (default [] (m !! k))
   = registrations m + length l)%nat.
Proof.
  unfold registrations.
  assert (Hcomm : forall (m0 : gmap string (list Handler)) (j1 j2 : string)
            (z1 z2 : list Handler) (y : nat),
            j1 <> j2 -> m0 !! j1 = Some z1 -> m0 !! j2 = Some z2 ->
            (y + length z2 + length z1 = y + length z1 + length z2)%nat)
    by (intros; lia).
  destruct (m !! k) as [old|] eqn:Hk; simpl.
  - rewrite <- (insert_delete_id m k old) at 2 by done.
    rewrite <- (insert_delete_eq m k l).
    rewrite !map_fold_insert_L; try (by rewrite lookup_delete_eq); [lia| |].
    all: intros j1 j2 z1 z2 y; apply Hcomm.
  - rewrite map_fold_insert_L; [lia| |done].
    intros j1 j2 z1 z2 y; apply Hcomm.
Qed.

Lemma indexOf_elem x xs : x ∈ xs -> exists i, indexOf x xs = Some i.
Proof.
  induction xs as [|y xs IH]; intros Hin; [by apply elem_of_nil in Hin|].
  simpl. destruct (decide (y = x)) as [->|Hne]; [by exists 0%nat|].
  apply elem_of_cons in Hin as [->|Hin]; [done|].
  destruct (IH Hin) as [i ->]. by exists (S i).
Qed.

Lemma indexOf_not_elem x xs : x ∉ xs -> indexOf x xs = None.
Proof.
  induction xs as [|y xs IH]; intros Hin; [done|].
  simpl. apply not_elem_of_cons in Hin as [Hne Hin].
  destruct (decide (y = x)) as [->|_]; [done|]. by rewrite IH.
Qed.

(** X9.  [getStatus] reports the registry, not the broker.  [connected] is
    the [isConnected] flag and [handlersCount] the number of registrations
    over all event types: a [subscribe] that got as far as registering the
    handler raises it by one (whether or not the consumer was installed),
    [unsubscribe] of a registered handler lowers it by one, and
    [unsubscribe] of a handler that is not registered changes nothing.  The
    label of an event type names the entity type of the first handler in
    its list; after the only handler of an event type was unsubscribed the
    key stays in the registry and its label reads
    [undefined.<eventType> (0 handlers)]. *)
Theorem X9_status_follows_registry (env : Env) (handler : Handler) (eventType : string)
  (w : World) :
  let status := EventBus.getStatus env in
  let registered := default [] (handlers (bus w) !! eventType) in
  let w1 := snd (EventBus.subscribe env handler eventType w) in
  let w2 := snd (EventBus.unsubscribe handler eventType w) in
  EventBus.connected (status w) = isConnected (bus w)
  /\ EventBus.handlersCount (status w) = registrations (handlers (bus w))
  /\ (channel (bus w) <> None ->
      is_ok (rpc_outcome env (tick w)) && is_ok (rpc_outcome env (S (tick w))) = true ->
      EventBus.handlersCount (status w1) = S (EventBus.handlersCount (status w))
      /\ EventBus.queues (status w1) !! eventType
         = Some (EventBus.queue_label env eventType (registered ++ [handler])))
  /\ (handler ∈ registered ->
      S (EventBus.handlersCount (status w2)) = EventBus.handlersCount (status w))
  /\ (handler ∉ registered -> status w2 = status w)
  /\ (handlers (bus w) !! eventType = Some [handler] ->
      EventBus.queues (status w2) !! eventType
      = Some ("undefined." +:+ eventType +:+ " (0 handlers)")).
Proof.
  intros status registered w1 w2. split; [done|]. split; [done|]. split_and!.
  - intros Hch Hrpc. unfold w1. rewrite event_subscribe_eq.
    destruct (channel (bus w)); [|done].
    destruct (rpc_outcome env (tick w)) as [[]|e1]; [|done].
    destruct (rpc_outcome env (S (tick w))) as [[]|e2]; [|done]. cbv zeta.
    assert (Hcount : registrations
              (<[eventType := registered ++ [handler]]> (handlers (bus w)))
            = S (registrations (handlers (bus w)))).
    { pose proof (registrations_insert (handlers (bus w)) eventType
                    (registered ++ [handler])) as H.
      fold registered in H. rewrite length_app in H. simpl in H. lia. }
    destruct (rpc_outcome env (S (S (tick w)))) as [[]|e3]; simpl.
    all: split; [exact Hcount|].
    all: unfold EventBus.queues; rewrite map_lookup_imap, lookup_insert_eq; done.
  - intros Hin. unfold w2. rewrite unsubscribe_eq. fold registered.
    destruct (indexOf_elem _ _ Hin) as [i Hi]. rewrite Hi. simpl.
    pose proof (registrations_insert (handlers (bus w)) eventType (delete i registered)) as H.
    fold registered in H.
    rewrite length_delete in H by (by rewrite (indexOf_lookup _ _ _ Hi)).
    change (S (registrations (<[eventType := delete i registered]> (handlers (bus w))))
            = registrations (handlers (bus w))).
    apply (indexOf_lookup) in Hi. apply lookup_lt_Some in Hi. lia.
  - intros Hnot. unfold w2. rewrite unsubscribe_eq. fold registered.
    by rewrite (indexOf_not_elem _ _ Hnot).
  - intros Hone. unfold w2. rewrite unsubscribe_eq, Hone. simpl.
    rewrite decide_True by done. simpl.
    rewrite map_lookup_imap, lookup_insert_eq. simpl. by rewrite Hone.
Qed.

Section ConnectMore.
Variable env : Env.
Variable config : Config.
Variable names : Names.

Lemma connect_try_state retries w :
  exists r es w1,
    connect_try env config names retries w = (r, w1)
    /\ tick w1 = S (tick w)
    /\ trace w1 = trace w ++ es
    /\ handlers (bus w1) = handlers (bus w)
    /\ count is_consume es = 0%nat
    /\ match connect_outcome env (tick w) with
       | None =>
           r = Ok tt
           /\ isConnected (bus w1) = true
           /\ connection (bus w1) = Some (tick w)
           /\ channel (bus w1) = Some (tick w)
           /\ count is_amqp_connect es = 1%nat
           /\ queues (broker w1) = queues (broker w) ++ [DLQ_QUEUE names]
           /\ bindings (broker w1)
              = bindings (broker w) ++ [(DLQ_QUEUE names, DLX_EXCHANGE names, "")]
       | Some (s, e) =>
           r = Throw e
           /\ isConnected (bus w1) = isConnected (bus w)
           /\ count is_amqp_connect es = (if step_eqb s StepConnect then 0 else 1)%nat
           /\ (after_channel s = true ->
               channel (bus w1) = Some (tick w) /\ connection (bus w1) = Some (tick w))
       end.
Proof.
  unfold connect_try, setupExchanges, setupDLQ, await_step.
  destruct (connect_outcome env (tick w)) as [[s err]|].
  - destruct s; run_monad.
    all: eexists _, _, _; split; [reflexivity|]; simpl.
    all: split; [done|].
    all: split; [rewrite <- ?app_assoc; reflexivity|].
    all: split; [done|]. all: split; [done|]. all: done.
  - run_monad. eexists _, _, _; split; [reflexivity|]; simpl.
    split; [done|]. split; [rewrite <- ?app_assoc; reflexivity|]. done.
Qed.

Lemma count_is_consume_log e es :
  is_consume e = false -> count is_consume (es ++ [e]) = count is_consume es.
Proof. intros H. rewrite count_app. simpl. rewrite H. lia. Qed.

(** However the loop of [connect] ends: on a normal return the bus is
    connected over a fresh connection and channel and the dead-letter queue
    is declared and bound; on an error the flag is as it was.  The handler
    registry is never touched and no consumer is installed. *)
Lemma connect_loop_state (n : nat) :
  forall retries w,
    n = Z.to_nat (connect_maxRetries - retries) -> 0 <= retries < connect_maxRetries ->
    exists r es w',
      connect_loop env config names retries w = (r, w')
      /\ trace w' = trace w ++ es
      /\ handlers (bus w') = handlers (bus w)
      /\ count is_consume es = 0%nat
      /\ match r with
         | Ok _ =>
             isConnected (bus w') = true
             /\ is_Some (connection (bus w'))
             /\ is_Some (channel (bus w'))
             /\ DLQ_QUEUE names ∈ queues (broker w')
             /\ (DLQ_QUEUE names, DLX_EXCHANGE names, "") ∈ bindings (broker w')
         | Throw e =>
             e = msg_failed names /\ isConnected (bus w') = isConnected (bus w)
         end.
Proof.
  induction n as [|n IH]; intros retries w Hn Hr; [unfold connect_maxRetries in *; lia|].
  rewrite connect_loop_eq.
  destruct (Z_lt_dec retries connect_maxRetries); [|lia].
  destruct (connect_try_state retries w)
    as (r1 & es1 & w1 & Hrun & Htick & Htrace & Hh & Hcons & Hcase).
  rewrite Hrun.
  destruct (connect_outcome env (tick w)) as [[s e]|].
  - destruct Hcase as (-> & Hflag & _). cbv zeta.
    rewrite Z.geb_leb. destruct (Z.leb_spec connect_maxRetries (retries + 1)).
    + eexists _, _, _. split; [reflexivity|]. simpl. rewrite Htrace, <- app_assoc.
      split; [reflexivity|]. split; [done|].
      split; [by rewrite count_app, Hcons|]. done.
    + match goal with |- context [connect_loop _ _ _ _ ?w2] =>
        destruct (IH (retries + 1) w2) as (r & es & w' & Hrun' & Htrace' & Hh' & Hcons' & Hcase')
      end; [unfold connect_maxRetries in *; lia|lia|].
      rewrite Hrun'. eexists r, _, w'. split; [reflexivity|].
      simpl in Htrace', Hh'. rewrite Htrace' , Htrace, <- !app_assoc.
      split; [reflexivity|]. split; [by rewrite Hh'|].
      split; [by rewrite !count_app, Hcons, Hcons'|].
      destruct r as [[]|e']; [done|]. destruct Hcase' as [-> Hflag']. split; [done|].
      by rewrite Hflag'.
  - destruct Hcase as (-> & Hflag & Hconn & Hchan & _ & Hq & Hb).
    exists (Ok tt), es1, w1. split; [done|]. split; [done|]. split; [done|]. split; [done|].
    split; [done|]. split; [by rewrite Hconn|]. split; [by rewrite Hchan|].
    split; [rewrite Hq|rewrite Hb]; apply elem_of_app; right; by left.
Qed.

End ConnectMore.

Section ConnectTheorems.
Variable env : Env.
Variable config : Config.

Lemma connect_state names w :
  already_connected w = false ->
  let run := connect env config names in
  let w' := snd (run w) in
  handlers (bus w') = handlers (bus w)
  /\ count is_consume (effects_of run w) = 0%nat
  /\ match fst (run w) with
     | Ok _ =>
         healthy w' = true
         /\ DLQ_QUEUE names ∈ queues (broker w')
         /\ (DLQ_QUEUE names, DLX_EXCHANGE names, "") ∈ bindings (broker w')
         /\ run w' = (Ok tt, extend 0 [ELog LInfo (msg_already names) []] w')
     | Throw e =>
         e = msg_failed names /\ isConnected (bus w') = isConnected (bus w)
     end.
Proof.
  intros Hguard run w'. unfold w', run, connect. unfold already_connected in Hguard.
  rewrite Hguard.
  destruct (connect_loop_state env config names 5 0 w)
    as (r & es & w1 & Hrun & Htrace & Hh & Hcons & Hcase);
    [done|unfold connect_maxRetries; lia|].
  rewrite Hrun. simpl. split; [done|]. split.
  { unfold effects_of. rewrite Hguard, Hrun. simpl. by rewrite Htrace, drop_app_length. }
  destruct r as [[]|e]; [|done].
  destruct Hcase as (Hflag & Hconn & Hchan & Hq & Hb).
  split_and!; try done.
  - unfold healthy. rewrite Hflag. by rewrite bool_decide_eq_true_2.
  - rewrite Hflag. by rewrite bool_decide_eq_true_2.
Qed.

(** X10.  What [connect] leaves behind, on either bus, when the bus was not
    connected already.  If it returns normally the bus is connected (the
    event bus is healthy), the dead-letter queue is declared and bound to
    the dead-letter exchange under the empty key, and a second [connect]
    only logs that the bus is connected already.  If it throws, the error
    is the fatal one and the [isConnected] flag is as it was.  In both
    cases the handler registry is untouched and no consumer is installed:
    connecting again after a lost connection does not subscribe anything
    again.  The connection's [close] and [error] listeners clear the flag,
    so that a later [connect] does run, and leave the channel field as it
    was. *)
Theorem X10_connect_leaves_the_bus_healthy (w : World) :
  already_connected w = false ->
  let event_run := EventBus.connect env config in
  let command_run := CommandBus.connect env config in
  (handlers (bus (snd (event_run w))) = handlers (bus w)
   /\ count is_consume (effects_of event_run w) = 0%nat
   /\ match fst (event_run w) with
      | Ok _ =>
          EventBus.isHealthy (snd (event_run w)) = true
          /\ "agentic.dlq" ∈ queues (broker (snd (event_run w)))
          /\ ("agentic.dlq", "agentic.dlx", "") ∈ bindings (broker (snd (event_run w)))
          /\ event_run (snd (event_run w))
             = (Ok tt, extend 0 [ELog LInfo "Already connected to RabbitMQ" []]
                         (snd (event_run w)))
      | Throw e =>
          e = "Failed to connect to RabbitMQ after 5 attempts"
          /\ isConnected (bus (snd (event_run w))) = isConnected (bus w)
      end)
  /\ (handlers (bus (snd (command_run w))) = handlers (bus w)
      /\ count is_consume (effects_of command_run w) = 0%nat
      /\ match fst (command_run w) with
         | Ok _ =>
             CommandBus.isConnected_ (snd (command_run w)) = true
             /\ "agentic.commands.dlq" ∈ queues (broker (snd (command_run w)))
             /\ ("agentic.commands.dlq", "agentic.commands.dlx", "")
                  ∈ bindings (broker (snd (command_run w)))
             /\ command_run (snd (command_run w))
                = (Ok tt,
                   extend 0 [ELog LInfo "Already connected to RabbitMQ (CommandBus)" []]
                     (snd (command_run w)))
         | Throw e =>
             e = "Failed to connect to RabbitMQ (CommandBus) after 5 attempts"
             /\ isConnected (bus (snd (command_run w))) = isConnected (bus w)
         end)
  /\ (forall w0,
        already_connected (on_connection_close w0) = false
        /\ already_connected (on_connection_error w0) = false
        /\ channel (bus (on_connection_close w0)) = channel (bus w0)
        /\ channel (bus (on_connection_error w0)) = channel (bus w0)).
Proof.
  intros Hguard event_run command_run. split; [|split].
  - pose proof (connect_state EventBus.names w Hguard) as H. exact H.
  - pose proof (connect_state CommandBus.names w Hguard) as (H1 & H2 & H3).
    split; [exact H1|]. split; [exact H2|].
    fold command_run in H3. unfold command_run at 1.
    change (fst (CommandBus.connect env config w))
      with (fst (connect env config CommandBus.names w)).
    destruct (fst (connect env config CommandBus.names w)) as [[]|e]; [|exact H3].
    destruct H3 as (Hh & H3). split; [|exact H3].
    unfold healthy in Hh. apply andb_true_iff in Hh as [Hh _]. exact Hh.
  - intros w0. done.
Qed.

End ConnectTheorems.

(** X10, run: the first connection of a fresh event bus. *)
Lemma X10_connect_leaves_the_bus_healthy_witness :
  EventBus.isHealthy (snd (EventBus.connect calm_env default_config fresh_world)) = true
  /\ EventBus.connect calm_env default_config
       (snd (EventBus.connect calm_env default_config fresh_world))
     = (Ok tt, extend 0 [ELog LInfo "Already connected to RabbitMQ" []]
                 (snd (EventBus.connect calm_env default_config fresh_world))).
Proof.
  destruct (X10_connect_leaves_the_bus_healthy calm_env default_config fresh_world)
    as ((_ & _ & Hevent) & _).
  - reflexivity.
  - destruct Hevent as (Hhealthy & _ & _ & Hagain).
    split; [exact Hhealthy | exact Hagain].
Defined.






Section CommandFacts.
Variable env : Env.

(** The command consumer's callback, one case per way it can end. *)
Lemma command_onMessage_eq handler msg w :
  CommandBus.onMessage env handler (Some msg) w =
  let failed := [ELog LError "Error processing command" [];
                 ENack (deliveryTag msg) false false] in
  match JSON_parse_event env (content msg) with
  | Throw _ => (Ok tt, extend 0 failed (set_broker (settle_delivery msg) w))
  | Ok command =>
      match handle_outcome env (tick w) handler command with
      | Ok _ =>
          (Ok tt,
           extend 1 [ELog LDebug "Command received" []; EHandle handler command;
                     EAck (deliveryTag msg);
                     ELog LDebug "Command processed successfully" []]
             (set_broker (settle_delivery msg) w))
      | Throw _ =>
          (Ok tt,
           extend 1 ([ELog LDebug "Command received" []; EHandle handler command] ++ failed)
             (set_broker (settle_delivery msg) w))
      end
  end.
Proof.
  unfold CommandBus.onMessage, handler_handle. run_monad.
  destruct (JSON_parse_event env (content msg)) as [command|err]; simpl; [|by to_extend].
  destruct (handle_outcome env (tick w) handler command) as [[]|e]; simpl; by to_extend.
Qed.
End CommandFacts.

(** X13.  The command bus does not retry.  Its consumer callback always
    returns, sets no timer, and settles the delivery exactly once.  A body
    that deserializes reaches the handler exactly once: the delivery is
    acknowledged if the handler resolves and negatively acknowledged,
    without requeue, if it rejects.  A body that does not deserialize is
    negatively acknowledged without a handler call. *)
Theorem X13_command_is_handled_once (env : Env) (handler : Handler) (msg : Message)
  (w : World) :
  let run := CommandBus.onMessage env handler (Some msg) in
  let es := effects_of run w in
  let tag := deliveryTag msg in
  fst (run w) = Ok tt
  /\ timeouts es = []
  /\ (forall d, d ∈ unacked (broker (snd (run w))) -> deliveryTag (snd d) ≠ tag)
  /\ match JSON_parse_event env (content msg) with
     | Throw _ =>
         count is_handle es = 0%nat /\ settlements es = [ENack tag false false]
     | Ok command =>
         filter (fun e => is_handle e = true) es = [EHandle handler command]
         /\ settlements es =
              [if is_ok (handle_outcome env (tick w) handler command)
               then EAck tag else ENack tag false false]
     end.
Proof.
  intros run es tag. unfold es, effects_of, run. rewrite command_onMessage_eq. cbv zeta.
  assert (Hgone : forall (u : list (string * Message)) d,
            d ∈ remove_delivery tag u -> deliveryTag (snd d) ≠ tag).
  { intros u d. unfold remove_delivery. rewrite list_elem_of_filter. by intros [? _]. }
  destruct (JSON_parse_event env (content msg)) as [command|err]; simpl.
  - destruct (handle_outcome env (tick w) handler command) as [[]|e]; simpl.
    all: rewrite drop_app_length; split_and!; try done; apply Hgone.
  - rewrite drop_app_length. split_and!; try done; apply Hgone.
Qed.

Lemma filter_ne_not_elem (h : Handler) (l : list Handler) :
  h ∉ filter (fun x => x ≠ h) l.
Proof. rewrite list_elem_of_filter. by intros [? _]. Qed.

(** X14.  [unsubscribe] of the command bus removes every registration of
    the handler under the command type, keeps the other handlers, always
    writes the key and the log line, leaves the broker alone, and does
    nothing more when repeated.  [unsubscribe] of the event bus removes one
    registration per call: a handler registered [k] times under the event
    type is registered [k - 1] times afterwards. *)
Theorem X14_command_unsubscribe_removes_all (env : Env) (handler : Handler)
  (commandType : string) (w : World) :
  let registered := default [] (handlers (bus w) !! commandType) in
  let w1 := snd (CommandBus.unsubscribe handler commandType w) in
  let w2 := snd (EventBus.unsubscribe handler commandType w) in
  CommandBus.unsubscribe handler commandType w =
    (Ok tt,
     extend 0 [ELog LInfo "✓ Command handler unsubscribed" []]
       (set_bus (with_handlers
                   (<[commandType := filter (fun h => h ≠ handler) registered]>
                      (handlers (bus w)))) w))
  /\ (handler ∉ default [] (handlers (bus w1) !! commandType))
  /\ (forall other, other ≠ handler ->
        (other ∈ default [] (handlers (bus w1) !! commandType) <-> other ∈ registered))
  /\ broker w1 = broker w
  /\ length (filter (fun h => h = handler) (default [] (handlers (bus w2) !! commandType)))
     = pred (length (filter (fun h => h = handler) registered))
  /\ CommandBus.unsubscribe handler commandType w1 =
       (Ok tt, extend 0 [ELog LInfo "✓ Command handler unsubscribed" []] w1).
Proof.
  intros registered w1 w2.
  assert (Hrun : CommandBus.unsubscribe handler commandType w =
    (Ok tt,
     extend 0 [ELog LInfo "✓ Command handler unsubscribed" []]
       (set_bus (with_handlers
                   (<[commandType := filter (fun h => h ≠ handler) registered]>
                      (handlers (bus w)))) w))).
  { unfold CommandBus.unsubscribe. run_monad. by to_extend. }
  split; [exact Hrun|]. unfold w1. rewrite Hrun. simpl.
  rewrite lookup_insert_eq. simpl. split_and!.
  - apply filter_ne_not_elem.
  - intros other Hother. rewrite list_elem_of_filter. tauto.
  - done.
  - unfold w2. rewrite unsubscribe_eq. fold registered.
    destruct (indexOf handler registered) as [i|] eqn:Hi; simpl.
    + rewrite lookup_insert_eq. simpl. fold registered.
      clear -Hi. revert i Hi. induction registered as [|y l IH]; intros i Hi; [done|].
      simpl in Hi. destruct (decide (y = handler)) as [->|Hne].
      * injection Hi as <-. simpl. by rewrite filter_cons_True.
      * destruct (indexOf handler l) as [i'|] eqn:Hi'; [|done].
        injection Hi as <-. simpl. rewrite !filter_cons_False by done. by apply IH.
    + fold registered.
      assert (Hnone : filter (fun h => h = handler) registered = []).
      { clear -Hi. induction registered as [|y l IH]; [done|].
        simpl in Hi. destruct (decide (y = handler)) as [->|Hne]; [done|].
        destruct (indexOf handler l); [done|]. rewrite filter_cons_False by done. by apply IH. }
      by rewrite Hnone.
  - unfold CommandBus.unsubscribe. run_monad. to_extend.
    f_equal. f_equal. unfold set_bus, with_handlers. simpl. f_equal. f_equal.
    rewrite lookup_insert_eq. simpl. rewrite insert_insert_eq.
    f_equal. rewrite list_filter_filter. apply list_filter_iff. tauto.
Qed.

(** ** Starting up and shutting down *)

Ltac run_proc :=
  repeat (progress (unfold try_catchP, bindP, whenP, remote, lift, retP, throwP,
                      set_isRunning, mark, logger, act; simpl)).

Lemma lift_shape {A} (m : M A) p r k es w0 :
  m (world p) = (r, extend k es w0) -> trace w0 = trace (world p) ->
  lift m p = (r, {| world := extend k es w0; isRunning := isRunning p;
                    calls := calls p ++ (Effect <$> es) |}).
Proof.
  intros H Ht. unfold lift. rewrite H. simpl. by rewrite Ht, drop_app_length.
Qed.

Lemma lift_logger level message args p :
  lift (logger level message args) p =
  (Ok tt, {| world := emit (ELog level message args) (world p); isRunning := isRunning p;
             calls := calls p ++ [Effect (ELog level message args)] |}).
Proof. by apply (lift_shape _ p (Ok tt) 0 [ELog level message args] (world p)). Qed.

Lemma lift_set_bus f p :
  lift (act (set_bus f)) p =
  (Ok tt, {| world := set_bus f (world p); isRunning := isRunning p; calls := calls p |}).
Proof.
  unfold lift, act. simpl. by rewrite drop_all, app_nil_r.
Qed.

Lemma calls_of_shape {A} (m : Proc A) p r w' running cs :
  m p = (r, {| world := w'; isRunning := running; calls := calls p ++ cs |}) ->
  calls_of m p = cs.
Proof. intros H. unfold calls_of. rewrite H. simpl. apply drop_app_length. Qed.

Section DisconnectFacts.
Variable env : Env.

Lemma event_disconnect_eq p :
  EventBus.disconnect env p =
  let t := tick (world p) in
  let k := ((if has_channel p then 1 else 0) + (if has_connection p then 1 else 0))%nat in
  let closed := (if has_channel p then [ChannelClose] else [])
                ++ (if has_connection p then [ConnectionClose] else []) in
  match close_failure env p with
  | None =>
      (Ok tt,
       {| world := extend k [ELog LInfo "✓ Disconnected from RabbitMQ" []]
                     (set_bus (with_isConnected false) (world p));
          isRunning := isRunning p;
          calls := calls p ++ closed
                     ++ [Effect (ELog LInfo "✓ Disconnected from RabbitMQ" [])] |})
  | Some e =>
      let first_failed := has_channel p && negb (is_ok (rpc_outcome env t)) in
      (Throw e,
       {| world := extend (if first_failed then 1 else k)
                     [ELog LError "Error disconnecting from RabbitMQ" []] (world p);
          isRunning := isRunning p;
          calls := calls p
                     ++ (if first_failed then []
                         else if has_channel p then [ChannelClose] else [])
                     ++ [Effect (ELog LError "Error disconnecting from RabbitMQ" [])] |})
  end.
Proof.
  unfold EventBus.disconnect, close_failure, has_channel, has_connection.
  run_proc.
  destruct (channel (bus (world p))) as [c|] eqn:Hc,
           (connection (bus (world p))) as [x|] eqn:Hx; simpl.
  all: repeat (first
         [ rewrite Hx
         | match goal with
           | |- context [rpc_outcome env ?t] => destruct (rpc_outcome env t) as [[]|?]
           end ]; simpl).
  all: rewrite ?drop_all, ?drop_app_length; simpl.
  all: rewrite ?app_nil_r, <- ?app_assoc; simpl.
  all: by to_extend.
Qed.

Lemma command_disconnect_eq p :
  CommandBus.disconnect env p =
  let t := tick (world p) in
  let k := ((if has_channel p then 1 else 0) + (if has_connection p then 1 else 0))%nat in
  let closed := (if has_channel p then [ChannelClose] else [])
                ++ (if has_connection p then [ConnectionClose] else []) in
  match close_failure env p with
  | None =>
      (Ok tt,
       {| world := extend k [ELog LInfo "✓ Disconnected from RabbitMQ (CommandBus)" []]
                     (set_bus (with_isConnected false) (world p));
          isRunning := isRunning p;
          calls := calls p ++ closed
                     ++ [Effect (ELog LInfo "✓ Disconnected from RabbitMQ (CommandBus)" [])] |})
  | Some e =>
      let first_failed := has_channel p && negb (is_ok (rpc_outcome env t)) in
      (Ok tt,
       {| world := extend (if first_failed then 1 else k)
                     [ELog LError "Error disconnecting from RabbitMQ" []] (world p);
          isRunning := isRunning p;
          calls := calls p
                     ++ (if first_failed then []
                         else if has_channel p then [ChannelClose] else [])
                     ++ [Effect (ELog LError "Error disconnecting from RabbitMQ" [])] |})
  end.
Proof.
  unfold CommandBus.disconnect, close_failure, has_channel, has_connection.
  run_proc.
  destruct (channel (bus (world p))) as [c|] eqn:Hc,
           (connection (bus (world p))) as [x|] eqn:Hx; simpl.
  all: repeat (first
         [ rewrite Hx
         | match goal with
           | |- context [rpc_outcome env ?t] => destruct (rpc_outcome env t) as [[]|?]
           end ]; simpl).
  all: rewrite ?drop_all, ?drop_app_length; simpl.
  all: rewrite ?app_nil_r, <- ?app_assoc; simpl.
  all: by to_extend.
Qed.

(** X15.  [disconnect] of the two buses.  The channel is closed first and
    the connection after it; when the close of the channel rejects, the
    connection is never closed.  The event bus rethrows the error of the
    close that rejected, the command bus logs it and returns normally, and
    in that case both leave [isConnected] as it was.  Neither clears the
    [channel] or the [connection] field, whatever happens.  On a bus that
    holds neither, [disconnect] only clears the flag and logs. *)
Theorem X15_disconnect_outcomes (p : Process) :
  let after_event := snd (EventBus.disconnect env p) in
  let after_command := snd (CommandBus.disconnect env p) in
  let event_closes := closes (calls_of (EventBus.disconnect env) p) in
  let command_closes := closes (calls_of (CommandBus.disconnect env) p) in
  let flag := match close_failure env p with
              | Some _ => isConnected (bus (world p))
              | None => false
              end in
  fst (EventBus.disconnect env p)
    = match close_failure env p with Some e => Throw e | None => Ok tt end
  /\ fst (CommandBus.disconnect env p) = Ok tt
  /\ (isConnected (bus (world after_event)) = flag
      /\ isConnected (bus (world after_command)) = flag)
  /\ (channel (bus (world after_event)) = channel (bus (world p))
      /\ connection (bus (world after_event)) = connection (bus (world p))
      /\ channel (bus (world after_command)) = channel (bus (world p))
      /\ connection (bus (world after_command)) = connection (bus (world p)))
  /\ command_closes = event_closes
  /\ (forall e,
        has_channel p = true -> rpc_outcome env (tick (world p)) = Throw e ->
        event_closes = [])
  /\ (close_failure env p = None ->
      event_closes
      = (if has_channel p then [ChannelClose] else [])
        ++ (if has_connection p then [ConnectionClose] else []))
  /\ (has_channel p = false -> has_connection p = false ->
      EventBus.disconnect env p =
        (Ok tt,
         {| world := extend 0 [ELog LInfo "✓ Disconnected from RabbitMQ" []]
                       (set_bus (with_isConnected false) (world p));
            isRunning := isRunning p;
            calls := calls p ++ [Effect (ELog LInfo "✓ Disconnected from RabbitMQ" [])] |})).
Proof.
  intros after_event after_command event_closes command_closes flag.
  unfold after_event, after_command, event_closes, command_closes, flag, closes, calls_of.
  rewrite event_disconnect_eq, command_disconnect_eq. cbv zeta.
  unfold close_failure.
  destruct (has_channel p) eqn:Hc, (has_connection p) eqn:Hx; simpl.
  all: repeat match goal with
       | |- context [rpc_outcome env ?t] => destruct (rpc_outcome env t) as [[]|?]; simpl
       end.
  all: rewrite ?drop_app_length; simpl.
  all: split_and!; try done.
Qed.
End DisconnectFacts.

Section AfterDisconnect.
Variable env : Env.
Variable config : Config.

End AfterDisconnect.

Section ConnectShape.
Variable env : Env.
Variable config : Config.

(** However [connect] ends, it only adds to the trace; a normal return
    leaves the flag set and the only error is the fatal one. *)
Lemma connect_shape names w :
  exists r es w1,
    connect env config names w = (r, w1)
    /\ trace w1 = trace w ++ es
    /\ match r with
       | Ok _ => isConnected (bus w1) = true
       | Throw e => e = msg_failed names
       end.
Proof.
  unfold connect.
  destruct (isConnected (bus w) && bool_decide (is_Some (connection (bus w)))) eqn:Hguard.
  - exists (Ok tt), [ELog LInfo (msg_already names) []], (emit (ELog LInfo (msg_already names) []) w).
    split_and!; try done. simpl. by apply andb_true_iff in Hguard as [-> _].
  - destruct (connect_loop_state env config names 5 0 w)
      as (r & es & w1 & Hrun & Htrace & Hh & Hcons & Hcase);
      [done|unfold connect_maxRetries; lia|].
    exists r, es, w1. split_and!; try done.
    destruct r as [[]|e]; by destruct Hcase.
Qed.
End ConnectShape.

Section ServiceFacts.
Variable env : Env.
Variable config : CDC.CDCConfig.

Lemma start_full p :
  let t := tick (world p) in
  match query_outcome env t with
  | Throw e =>
      CDC.start env config p =
      (Throw e, {| world := extend 1 [ELog LError "Failed to start CDC service" []] (world p);
                   isRunning := isRunning p;
                   calls := calls p ++ [start_failed_log] |})
  | Ok _ =>
      match query_outcome env (S t) with
      | Throw e =>
          CDC.start env config p =
          (Throw e,
           {| world := extend 2 [EPoolConnect; ELog LError "Failed to start CDC service" []]
                         (world p);
              isRunning := isRunning p;
              calls := calls p ++ [Effect EPoolConnect; start_failed_log] |})
      | Ok _ =>
          exists r es w1,
            let opened := [Effect EPoolConnect; QueryProbe; Effect ERelease] in
            EventBus.connect env (CDC.eventBusConfig config)
              (extend 2 [EPoolConnect; ERelease] (world p)) = (r, w1)
            /\ match r with
               | Ok _ =>
                   isConnected (bus w1) = true
                   /\ CDC.start env config p =
                      (Ok tt,
                       {| world := emit (ELog LInfo "✓ CDC Service started" []) w1;
                          isRunning := true;
                          calls := calls p ++ opened ++ (Effect <$> es)
                                     ++ [started_log; StartPolling] |})
               | Throw e =>
                   e = msg_failed EventBus.names
                   /\ CDC.start env config p =
                      (Throw e,
                       {| world := emit (ELog LError "Failed to start CDC service" []) w1;
                          isRunning := isRunning p;
                          calls := calls p ++ opened ++ (Effect <$> es)
                                     ++ [start_failed_log] |})
               end
      end
  end.
Proof.
  cbv zeta. unfold CDC.start, CDC.pool_connect.
  destruct (query_outcome env (tick (world p))) as [[]|e0] eqn:H0.
  - destruct (query_outcome env (S (tick (world p)))) as [[]|e1] eqn:H1.
    + destruct (connect_shape env (CDC.eventBusConfig config) EventBus.names
                  (extend 2 [EPoolConnect; ERelease] (world p)))
        as (r & es & w1 & Hrun & Htrace & Hcase).
      exists r, es, w1. split; [done|].
      unfold EventBus.connect.
      run_proc. rewrite H0. simpl. rewrite H1. simpl.
      replace (emit ERelease (next_tick (next_tick (emit EPoolConnect (world p)))))
        with (extend 2 [EPoolConnect; ERelease] (world p)) by (by to_extend).
      unfold EventBus.connect in Hrun. rewrite Hrun.
      rewrite !drop_app_length. simpl.
      rewrite Htrace. simpl.
      replace (length ((trace (world p) ++ [EPoolConnect]) ++ [ERelease]))
        with (length (trace (world p) ++ [EPoolConnect; ERelease]))
        by (rewrite !length_app; simpl; lia).
      rewrite drop_app_length.
      destruct r as [[]|e]; simpl; (split; [done|]).
      all: rewrite ?drop_app_length; simpl.
      all: rewrite <- ?app_assoc; simpl; done.
    + run_proc. rewrite H0. simpl. rewrite H1. simpl.
      rewrite ?drop_all, ?drop_app_length; simpl.
      rewrite ?app_nil_r, <- ?app_assoc; simpl. by to_extend.
  - run_proc. rewrite H0. simpl.
      rewrite ?drop_all, ?drop_app_length; simpl.
      rewrite ?app_nil_r, <- ?app_assoc; simpl. by to_extend.
Qed.

Lemma stop_full p :
  CDC.stop env p =
  match query_outcome env (tick (world p)) with
  | Throw e =>
      (Throw e, {| world := next_tick (world p); isRunning := false; calls := calls p |})
  | Ok _ =>
      let q := {| world := next_tick (world p); isRunning := false;
                  calls := calls p ++ [PoolEnd] |} in
      match EventBus.disconnect env q with
      | (Ok _, q') =>
          (Ok tt, {| world := emit (ELog LInfo "✓ CDC Service stopped" []) (world q');
                     isRunning := isRunning q';
                     calls := calls q' ++ [stopped_log] |})
      | (Throw e, q') => (Throw e, q')
      end
  end.
Proof.
  unfold CDC.stop. unfold bindP at 1. unfold set_isRunning at 1.
  unfold bindP at 1. unfold remote at 1. simpl.
  destruct (query_outcome env (tick (world p))) as [[]|e]; simpl.
  - unfold bindP at 1.
    destruct (EventBus.disconnect env _) as [[[]|e] q']; [|done].
    rewrite lift_logger. done.
  - by rewrite app_nil_r.
Qed.

Lemma StartPolling_not_effect (es : list effect) (cs : list call) :
  StartPolling ∉ cs -> StartPolling ∉ (Effect <$> es) ++ cs.
Proof.
  intros Hcs [Hin|Hin]%elem_of_app; [|done].
  apply list_elem_of_fmap in Hin as (e & He & _). discriminate.
Qed.

(** X17.  [start] of the change-capture service.  When it returns
    normally the service is running over a connected bus, the client it
    checked out for the probe was released before the bus was contacted,
    and launching the polling loop is the last thing it did, once.  When it
    throws, [isRunning] is as it was, the polling loop was not launched and
    the last thing it did is to log the failure. *)
Theorem X17_start_is_all_or_nothing (p : Process) :
  let run := CDC.start env config in
  let p' := snd (run p) in
  match fst (run p) with
  | Ok _ =>
      isRunning p' = true
      /\ isConnected (bus (world p')) = true
      /\ take 3 (calls_of run p) = [Effect EPoolConnect; QueryProbe; Effect ERelease]
      /\ exists cs, calls_of run p = cs ++ [started_log; StartPolling]
                    /\ (StartPolling ∉ cs)
  | Throw e =>
      isRunning p' = isRunning p
      /\ (StartPolling ∉ calls_of run p)
      /\ last (calls_of run p) = Some start_failed_log
  end.
Proof.
  intros run p'. unfold p', run, calls_of.
  pose proof (start_full p) as H. cbv zeta in H.
  assert (Hopened : forall es cs, StartPolling ∉ cs ->
            StartPolling ∉ Effect EPoolConnect :: QueryProbe :: Effect ERelease
                             :: (Effect <$> es) ++ cs).
  { intros es cs Hcs. repeat (apply not_elem_of_cons; split; [done|]).
    by apply StartPolling_not_effect. }
  destruct (query_outcome env (tick (world p))) as [[]|e0].
  - destruct (query_outcome env (S (tick (world p)))) as [[]|e1].
    + destruct H as (r & es & w1 & Hrun & Hcase).
      destruct r as [[]|e]; destruct Hcase as [Hc ->]; simpl.
      all: rewrite drop_app_length.
      * split_and!; try done.
        exists ([Effect EPoolConnect; QueryProbe; Effect ERelease] ++ (Effect <$> es)).
        split; [by rewrite <- app_assoc|].
        specialize (Hopened es [] (not_elem_of_nil _)). by rewrite app_nil_r in Hopened.
      * split_and!; try done.
        -- apply Hopened. unfold start_failed_log.
           apply not_elem_of_cons. split; [done|apply not_elem_of_nil].
        -- change (last (([Effect EPoolConnect; QueryProbe; Effect ERelease]
                            ++ (Effect <$> es)) ++ [start_failed_log])
                   = Some start_failed_log).
           apply last_snoc.
    + rewrite H. simpl. rewrite drop_app_length. split_and!; try done.
      unfold start_failed_log.
      repeat (apply not_elem_of_cons; split; [done|]). apply not_elem_of_nil.
  - rewrite H. simpl. rewrite drop_app_length. split_and!; try done.
    unfold start_failed_log.
    repeat (apply not_elem_of_cons; split; [done|]). apply not_elem_of_nil.
Qed.

(** X18.  When the pool hands out a client and the [SELECT 1] probe on it
    rejects, [start] throws that error with the client still checked out:
    [release] is never called (it is not in a [finally] block, unlike in
    [checkForChanges]), and the bus and the broker are not touched. *)
Theorem X18_failed_probe_keeps_the_client (p : Process) (e : error) :
  query_outcome env (tick (world p)) = Ok tt ->
  query_outcome env (S (tick (world p))) = Throw e ->
  let run := CDC.start env config in
  fst (run p) = Throw e
  /\ calls_of run p = [Effect EPoolConnect; start_failed_log]
  /\ bus (world (snd (run p))) = bus (world p)
  /\ broker (world (snd (run p))) = broker (world p).
Proof.
  intros H0 H1 run. unfold run, calls_of.
  pose proof (start_full p) as H. cbv zeta in H. rewrite H0, H1 in H.
  rewrite H. simpl. by rewrite drop_app_length.
Qed.

(** X19.  [stop] clears [isRunning] first, whatever follows.  When
    [pool.end()] rejects, [stop] rejects with that error, has done nothing
    else and leaves the bus as it was, still connected if it was.
    Otherwise the pool is ended before the bus is touched, and [stop] ends
    as [disconnect] of the event bus does: with its error, or normally, and
    then, and only then, the last thing it does is to log that the service
    stopped. *)
Theorem X19_stop_order (p : Process) :
  let run := CDC.stop env in
  let p' := snd (run p) in
  let ended := {| world := next_tick (world p); isRunning := false;
                  calls := calls p ++ [PoolEnd] |} in
  isRunning p' = false
  /\ (fst (run p) = Ok tt <-> last (calls_of run p) = Some stopped_log)
  /\ match query_outcome env (tick (world p)) with
     | Throw e =>
         fst (run p) = Throw e
         /\ calls_of run p = []
         /\ bus (world p') = bus (world p)
     | Ok _ =>
         head (calls_of run p) = Some PoolEnd
         /\ fst (run p) = fst (EventBus.disconnect env ended)
         /\ bus (world p') = bus (world (snd (EventBus.disconnect env ended)))
     end.
Proof.
  intros run p' ended. unfold p', run, calls_of. rewrite stop_full.
  destruct (query_outcome env (tick (world p))) as [[]|e0]; simpl.
  - fold ended. rewrite event_disconnect_eq. cbv zeta.
    destruct (close_failure env ended) as [e|]; simpl.
    all: rewrite <- ?app_assoc, drop_app_length; simpl.
    all: split_and!; try done.
    + destruct (has_channel ended && negb (is_ok (rpc_outcome env (S (tick (world p))))));
        [|destruct (has_channel ended)]; simpl; split; discriminate.
    + destruct (has_channel ended), (has_connection ended); simpl; done.
  - rewrite drop_all. split_and!; try done.
Qed.

End ServiceFacts.


(** X18, run: the probe of a fresh service rejects. *)
Lemma X18_failed_probe_keeps_the_client_witness :
  fst (CDC.start probe_fails_env cdc_config (process_of fresh_world)) = Throw "probe failed"
  /\ calls_of (CDC.start probe_fails_env cdc_config) (process_of fresh_world)
     = [Effect EPoolConnect; start_failed_log].
Proof.
  destruct (X18_failed_probe_keeps_the_client probe_fails_env cdc_config
              (process_of fresh_world) "probe failed")
    as (Hthrows & Hcalls & _).
  - reflexivity.
  - reflexivity.
  - split; [exact Hthrows | exact Hcalls].
Defined.

(** ** What draining the dead-letter queue leaves behind *)

Section DrainMore.
Variable env : Env.


End DrainMore.


(** ** The gateway: start, stop and pagination *)

Section GatewayFacts.
Variable env : Env.
Variable config : ApiGateway.AppConfig.

Lemma gateway_start_full p :
  let t := tick (world p) in
  let testing := Effect (ELog LInfo "Testing database connection..." []) in
  match query_outcome env t with
  | Throw e =>
      ApiGateway.start env config p =
      (Throw e,
       {| world := extend 1 [ELog LInfo "Testing database connection..." [];
                             ELog LError "Failed to start API Gateway" []] (world p);
          isRunning := isRunning p;
          calls := calls p ++ [testing; gateway_failed_log] |})
  | Ok _ =>
      match query_outcome env (S t) with
      | Throw e =>
          ApiGateway.start env config p =
          (Throw e,
           {| world := extend 2 [ELog LInfo "Testing database connection..." [];
                                 EPoolConnect;
                                 ELog LError "Failed to start API Gateway" []] (world p);
              isRunning := isRunning p;
              calls := calls p ++ [testing; Effect EPoolConnect; gateway_failed_log] |})
      | Ok _ =>
          exists r es w1,
            let opened := [testing; Effect EPoolConnect; QueryProbe; Effect ERelease;
                           Effect (ELog LInfo "✓ Database connected" [])] in
            EventBus.connect env (ApiGateway.eventBusConfig config)
              (extend 2 [ELog LInfo "Testing database connection..." [];
                         EPoolConnect; ERelease;
                         ELog LInfo "✓ Database connected" []] (world p)) = (r, w1)
            /\ match r with
               | Ok _ =>
                   isConnected (bus w1) = true
                   /\ ApiGateway.start env config p =
                      (Ok tt,
                       {| world := w1;
                          isRunning := isRunning p;
                          calls := calls p ++ opened ++ (Effect <$> es)
                                     ++ [Listen (ApiGateway.port config)] |})
               | Throw e =>
                   e = msg_failed EventBus.names
                   /\ ApiGateway.start env config p =
                      (Throw e,
                       {| world := emit (ELog LError "Failed to start API Gateway" []) w1;
                          isRunning := isRunning p;
                          calls := calls p ++ opened ++ (Effect <$> es)
                                     ++ [gateway_failed_log] |})
               end
      end
  end.
Proof.
  cbv zeta. unfold ApiGateway.start, CDC.pool_connect.
  destruct (query_outcome env (tick (world p))) as [[]|e0] eqn:H0.
  - destruct (query_outcome env (S (tick (world p)))) as [[]|e1] eqn:H1.
    + destruct (connect_shape env (ApiGateway.eventBusConfig config) EventBus.names
                  (extend 2 [ELog LInfo "Testing database connection..." [];
                         EPoolConnect; ERelease;
                         ELog LInfo "✓ Database connected" []] (world p)))
        as (r & es & w1 & Hrun & Htrace & Hcase).
      exists r, es, w1. split; [done|].
      unfold EventBus.connect.
      run_proc. rewrite H0. simpl. rewrite H1. simpl.
      match goal with |- context [connect _ _ _ ?w] =>
        replace w with (extend 2 [ELog LInfo "Testing database connection..." [];
                         EPoolConnect; ERelease;
                         ELog LInfo "✓ Database connected" []] (world p))
          by (unfold extend, emit, next_tick; simpl; f_equal; by rewrite <- ?app_assoc)
      end.
      unfold EventBus.connect in Hrun. rewrite Hrun.
      rewrite !drop_app_length. simpl.
      rewrite Htrace. simpl.
      match goal with |- context [drop (length ?l) ((trace (world p) ++ ?a) ++ es)] =>
        replace (length l) with (length (trace (world p) ++ a))
          by (rewrite !length_app; simpl; lia)
      end.
      rewrite drop_app_length.
      destruct r as [[]|e]; simpl; (split; [done|]).
      all: rewrite ?drop_app_length; simpl.
      all: rewrite <- ?app_assoc; simpl; done.
    + run_proc. rewrite H0. simpl. rewrite H1. simpl.
      rewrite ?drop_all, ?drop_app_length; simpl.
      rewrite ?app_nil_r, <- ?app_assoc; simpl.
      to_extend. simpl. by rewrite <- ?app_assoc.
  - run_proc. rewrite H0. simpl.
    rewrite ?drop_all, ?drop_app_length; simpl.
    rewrite ?app_nil_r, <- ?app_assoc; simpl.
    to_extend. simpl. by rewrite <- ?app_assoc.
Qed.
End GatewayFacts.

Section GatewayTheorems.
Variable env : Env.
Variable config : ApiGateway.AppConfig.

Lemma gateway_stop_full p :
  ApiGateway.stop env p =
  match EventBus.disconnect env p with
  | (Throw e, q) => (Throw e, q)
  | (Ok _, q) =>
      match query_outcome env (tick (world q)) with
      | Throw e =>
          (Throw e, {| world := next_tick (world q); isRunning := isRunning q;
                       calls := calls q |})
      | Ok _ =>
          (Ok tt, {| world := emit (ELog LInfo "✓ API Gateway stopped" []) (next_tick (world q));
                     isRunning := isRunning q;
                     calls := calls q ++ [PoolEnd; gateway_stopped_log] |})
      end
  end.
Proof.
  unfold ApiGateway.stop. unfold bindP at 1.
  destruct (EventBus.disconnect env p) as [[[]|e] q]; [|done].
  unfold bindP, remote. simpl.
  destruct (query_outcome env (tick (world q))) as [[]|e]; simpl.
  - rewrite lift_logger. simpl. by rewrite <- app_assoc.
  - by rewrite app_nil_r.
Qed.

Lemma not_listen_effects (es : list effect) :
  Forall (fun c => is_listen c = false) (Effect <$> es).
Proof. apply Forall_fmap. by apply Forall_true. Qed.

(** X21.  [start] of the gateway.  When it returns normally the bus is
    connected and opening the HTTP port is the last thing it did, once,
    after the database answered the probe (the client was released) and
    the bus connected.  When it throws, the port was never opened and the
    last thing it did is to log the failure. *)
Theorem X21_gateway_listens_last (p : Process) :
  let run := ApiGateway.start env config in
  let p' := snd (run p) in
  match fst (run p) with
  | Ok _ =>
      isConnected (bus (world p')) = true
      /\ take 5 (calls_of run p)
         = [Effect (ELog LInfo "Testing database connection..." []);
            Effect EPoolConnect; QueryProbe; Effect ERelease;
            Effect (ELog LInfo "✓ Database connected" [])]
      /\ exists cs, calls_of run p = cs ++ [Listen (ApiGateway.port config)]
                    /\ Forall (fun c => is_listen c = false) cs
  | Throw e =>
      Forall (fun c => is_listen c = false) (calls_of run p)
      /\ last (calls_of run p) = Some gateway_failed_log
  end.
Proof.
  intros run p'. unfold p', run.
  pose proof (gateway_start_full env config p) as H. cbv zeta in H.
  destruct (query_outcome env (tick (world p))) as [[]|e0].
  - destruct (query_outcome env (S (tick (world p)))) as [[]|e1].
    + destruct H as (r & es & w1 & Hrun & Hcase). unfold calls_of.
      destruct r as [[]|e]; destruct Hcase as [Hc ->]; simpl.
      all: rewrite drop_app_length.
      * split_and!; try done.
        exists ([Effect (ELog LInfo "Testing database connection..." []);
                 Effect EPoolConnect; QueryProbe; Effect ERelease;
                 Effect (ELog LInfo "✓ Database connected" [])] ++ (Effect <$> es)).
        split; [by rewrite <- app_assoc|].
        apply Forall_app. split; [by repeat constructor | apply not_listen_effects].
      * split.
        -- do 5 (constructor; [done|]).
           apply Forall_app. split; [apply not_listen_effects | by repeat constructor].
        -- change (last (([Effect (ELog LInfo "Testing database connection..." []);
                           Effect EPoolConnect; QueryProbe; Effect ERelease;
                           Effect (ELog LInfo "✓ Database connected" [])]
                            ++ (Effect <$> es)) ++ [gateway_failed_log])
                   = Some gateway_failed_log).
           apply last_snoc.
    + unfold calls_of. rewrite H. simpl. rewrite drop_app_length.
      split; [by repeat constructor | done].
  - unfold calls_of. rewrite H. simpl. rewrite drop_app_length.
    split; [by repeat constructor | done].
Qed.

(** X22.  [stop] of the gateway disconnects the bus first and ends the
    pool after it, the other way round than [stop] of the change-capture
    service.  When a close of the bus rejects, [stop] rejects with that
    error and the pool is never ended.  Otherwise the bus is marked
    disconnected whatever the pool does, [stop] ends as [pool.end()] does,
    and the pool is ended exactly when [stop] returns normally, which is
    also exactly when its last act is to log that the gateway stopped. *)
Theorem X22_gateway_stop_order (p : Process) :
  let run := ApiGateway.stop env in
  let p' := snd (run p) in
  let q := snd (EventBus.disconnect env p) in
  (fst (run p) = Ok tt <-> last (calls_of run p) = Some gateway_stopped_log)
  /\ match close_failure env p with
     | Some e =>
         fst (run p) = Throw e
         /\ (PoolEnd ∉ calls_of run p)
         /\ isConnected (bus (world p')) = isConnected (bus (world p))
     | None =>
         isConnected (bus (world p')) = false
         /\ fst (run p) = query_outcome env (tick (world q))
         /\ (PoolEnd ∈ calls_of run p <-> fst (run p) = Ok tt)
     end.
Proof.
  intros run p' q. unfold p', run, q, calls_of. rewrite gateway_stop_full.
  rewrite event_disconnect_eq. cbv zeta.
  destruct (close_failure env p) as [e|]; simpl.
  - rewrite drop_app_length. split_and!; try done.
    all: destruct (has_channel p && negb (is_ok (rpc_outcome env (tick (world p)))));
           [|destruct (has_channel p)]; simpl.
    all: rewrite ?elem_of_cons, ?elem_of_nil.
    all: try (split; discriminate).
    all: intros H; repeat destruct H as [H|H]; done.
  - destruct (query_outcome env _) as [[]|e]; simpl.
    all: rewrite <- ?app_assoc, drop_app_length.
    all: split_and!; try done.
    all: destruct (has_channel p), (has_connection p); simpl.
    all: rewrite ?elem_of_cons, ?elem_of_nil.
    all: try (split; discriminate).
    all: try (split; [done | intros _; tauto]).
    all: split; [|done].
    all: intros H; repeat destruct H as [H|H]; done.
Qed.
End GatewayTheorems.

Section Script.
Variable env : Env.
Variable config : ApiGateway.AppConfig.




End Script.

(** X23.  Pagination of the list handlers.  The page is at least 1 and
    the limit between 1 and 100, whatever the request says: a missing or
    unreadable value gives page 1 and limit 20, and so does a limit of 0,
    while a negative limit gives 1 and a large one 100.  The offset is
    never negative, the next page starts where this one ends, and
    [hasMore] holds exactly when the rows up to the end of this page are
    fewer than the total. *)
Theorem X23_pagination_is_clamped (query_page query_limit : option Z) (total : Z) :
  exact_page query_page ->
  let p := ApiGateway.getPaginationParams query_page query_limit in
  let next := ApiGateway.getPaginationParams (Some (ApiGateway.page p + 1)) query_limit in
  1 <= ApiGateway.page p
  /\ 1 <= ApiGateway.limit p <= 100
  /\ 0 <= ApiGateway.offset p
  /\ (ApiGateway.limit p = match query_limit with
                           | None | Some 0 => 20
                           | Some n => Z.min 100 (Z.max 1 n)
                           end)
  /\ (ApiGateway.page p = match query_page with
                          | Some n => Z.max 1 n
                          | None => 1
                          end)
  /\ (ApiGateway.hasMore p total = true <-> ApiGateway.page p * ApiGateway.limit p < total)
  /\ ApiGateway.offset next = ApiGateway.offset p + ApiGateway.limit p.
Proof.
  intros _ p next. unfold next, p, ApiGateway.getPaginationParams, ApiGateway.hasMore, num_or.
  simpl.
  destruct query_page as [n|], query_limit as [m|]; simpl.
  all: repeat match goal with
       | |- context [Z.eqb ?a 0] => destruct (Z.eqb_spec a 0)
       end.
  all: rewrite ?Z.ltb_lt.
  all: split_and!; try lia.
  all: try (destruct m; try done; lia).
  all: try nia.
Qed.

(** X23, run: page 3 with a limit of 0. *)
Lemma X23_pagination_is_clamped_witness :
  ApiGateway.getPaginationParams (Some 3) (Some 0)
    = {| ApiGateway.page := 3; ApiGateway.limit := 20; ApiGateway.offset := 40 |}
  /\ (ApiGateway.hasMore (ApiGateway.getPaginationParams (Some 3) (Some 0)) 61 = true
      <-> 3 * 20 < 61).
Proof.
  destruct (X23_pagination_is_clamped (Some 3) (Some 0) 61)
    as (_ & _ & _ & _ & _ & Hmore & _).
  - intros n [= <-]. vm_compute. discriminate.
  - split; [reflexivity | exact Hmore].
Defined.

(** ** Commands: from subscribe to the handler *)

Section CommandRoute.
Variable env : Env.

(** [RabbitMQCommandBus.subscribe], one case per way it can end. *)
Lemma command_subscribe_eq handler commandType w :
  CommandBus.subscribe env handler commandType w =
  match channel (bus w) with
  | None => (Throw "Channel not initialized", w)
  | Some _ =>
      let q := command_queue env handler commandType in
      let key := binding_key env handler commandType in
      let declared := EAssertQueue q (Some "agentic.commands.dlx") None in
      let bound := EBindQueue q "agentic.commands" key in
      let failed := ELog LError "Failed to subscribe to commands" [] in
      match rpc_outcome env (tick w) with
      | Throw e => (Throw e, extend 1 [failed] w)
      | Ok _ =>
          let w1 := set_broker (fun b => with_queues (queues b ++ [q]) b) w in
          match rpc_outcome env (S (tick w)) with
          | Throw e => (Throw e, extend 2 [declared; failed] w1)
          | Ok _ =>
              let w2 := set_bus (register handler commandType)
                          (set_broker (fun b =>
                             with_bindings (bindings b ++ [(q, "agentic.commands", key)]) b) w1) in
              match rpc_outcome env (S (S (tick w))) with
              | Throw e => (Throw e, extend 3 [declared; bound; failed] w2)
              | Ok _ =>
                  (Ok tt,
                   extend 3 [declared; bound; EConsume q handler;
                             ELog LInfo "✓ Command handler subscribed" []]
                     (set_broker (fun b =>
                        with_consumers (consumers b ++ [(q, handler)]) b) w2))
              end
          end
      end
  end.
Proof.
  unfold CommandBus.subscribe. destruct (channel (bus w)) as [c|]; [|done].
  unfold rpc. run_monad.
  destruct (rpc_outcome env (tick w)) as [[]|e]; simpl; [|by to_extend].
  destruct (rpc_outcome env (S (tick w))) as [[]|e]; simpl; [|by to_extend].
  destruct (rpc_outcome env (S (S (tick w)))) as [[]|e]; simpl; by to_extend.
Qed.

(** X25.  From [subscribe] to the handler on the command bus, and past
    [unsubscribe].  After [subscribe(handler, commandType)] succeeded, a
    command for the handler's entity type and [commandType] is published
    on [agentic.commands] under exactly the key the handler's queue is
    bound with.  [unsubscribe] takes the handler out of the registry and
    leaves its consumer installed: when the published body is then
    delivered on that queue and deserializes to the command, the handler
    is still called with it, once. *)
Theorem X25_unsubscribed_handler_still_served (handler : Handler) (commandType : string)
  (command : DomainCommand) (body : string) (tag : nat) (w : World) :
  channel (bus w) <> None ->
  rpc_outcome env (tick w) = Ok tt ->
  rpc_outcome env (S (tick w)) = Ok tt ->
  rpc_outcome env (S (S (tick w))) = Ok tt ->
  e_entity command = entityType env handler ->
  e_type command = commandType ->
  JSON_stringify env command = Ok body ->
  JSON_parse_event env body = Ok command ->
  send_outcome env (3 + tick w) = SendTrue ->
  let q := command_queue env handler commandType in
  let w1 := snd (CommandBus.subscribe env handler commandType w) in
  let w2 := snd (CommandBus.unsubscribe handler commandType w1) in
  let w3 := snd (CommandBus.publish env command w2) in
  let msg := {| deliveryTag := tag; content := body |} in
  fst (CommandBus.subscribe env handler commandType w) = Ok tt
  /\ (q, "agentic.commands", routing_key command) ∈ bindings (broker w1)
  /\ (handler ∈ default [] (handlers (bus w1) !! commandType))
  /\ (handler ∉ default [] (handlers (bus w2) !! commandType))
  /\ (q, handler) ∈ consumers (broker w2)
  /\ effects_of (CommandBus.publish env command) w2 =
       [EPublish "agentic.commands" (routing_key command) body (command_headers command);
        ELog LDebug "✓ Command published" []]
  /\ filter (fun e => is_handle e = true)
       (effects_of (CommandBus.deliver env q handler msg) w3)
     = [EHandle handler command].
Proof.
  intros Hch H1 H2 H3 Hent Htyp Hstr Hparse Hsend q w1 w2 w3 msg.
  assert (Hsub : CommandBus.subscribe env handler commandType w = (Ok tt, w1)).
  { unfold w1. rewrite command_subscribe_eq.
    destruct (channel (bus w)); [|done]. by rewrite H1, H2, H3. }
  assert (Hw1 : w1 =
    extend 3 [EAssertQueue q (Some "agentic.commands.dlx") None;
              EBindQueue q "agentic.commands" (binding_key env handler commandType);
              EConsume q handler; ELog LInfo "✓ Command handler subscribed" []]
      (set_broker (fun b => with_consumers (consumers b ++ [(q, handler)]) b)
         (set_bus (register handler commandType)
            (set_broker (fun b =>
               with_bindings
                 (bindings b ++ [(q, "agentic.commands", binding_key env handler commandType)]) b)
               (set_broker (fun b => with_queues (queues b ++ [q]) b) w))))).
  { unfold w1. rewrite command_subscribe_eq.
    destruct (channel (bus w)); [|done]. by rewrite H1, H2, H3. }
  assert (Hw2 : w2 =
    extend 0 [ELog LInfo "✓ Command handler unsubscribed" []]
      (set_bus (fun b =>
         with_handlers
           (<[commandType := filter (fun h => h ≠ handler)
                               (default [] (handlers b !! commandType))]> (handlers b)) b) w1)).
  { unfold w2, CommandBus.unsubscribe. run_monad. by to_extend. }
  assert (Hkey : routing_key command = binding_key env handler commandType).
  { unfold routing_key, binding_key. by rewrite Hent, Htyp. }
  assert (Hpub : CommandBus.publish env command w2 =
    (Ok tt, extend 1 [EPublish "agentic.commands" (routing_key command) body
                        (command_headers command);
                      ELog LDebug "✓ Command published" []] w2)).
  { rewrite command_publish_eq, Hstr.
    replace (channel (bus w2)) with (channel (bus w)) by (by rewrite Hw2, Hw1).
    destruct (channel (bus w)); [|done].
    replace (tick w2) with (3 + tick w)%nat by (by rewrite Hw2, Hw1). by rewrite Hsend. }
  split; [by rewrite Hsub|]. split_and!.
  - rewrite Hw1, Hkey. simpl. apply elem_of_app. right. by left.
  - rewrite Hw1. simpl. rewrite lookup_insert_eq. simpl. apply elem_of_app. right. by left.
  - rewrite Hw2. simpl. rewrite lookup_insert_eq. simpl.
    intros Hin. apply list_elem_of_filter in Hin as [Hne _]. done.
  - rewrite Hw2, Hw1. simpl. apply elem_of_app. right. by left.
  - by rewrite (effects_of_extend _ _ _ _ _ Hpub).
  - unfold CommandBus.deliver, effects_of.
    rewrite bool_decide_eq_true_2
      by (unfold w3; rewrite Hpub, Hw2, Hw1; simpl; apply elem_of_app; right; by left).
    rewrite command_onMessage_eq. simpl. rewrite Hparse.
    destruct (handle_outcome env _ handler command) as [[]|e]; simpl.
    all: by rewrite drop_app_length.
Qed.
End CommandRoute.

(** X25, run: handler [1] subscribes to ["X"], unsubscribes, and a command
    ["E1"] of that type is sent. *)
Lemma X25_unsubscribed_handler_still_served_witness :
  (1%nat ∉ default []
     (handlers (bus (snd (CommandBus.unsubscribe 1%nat "X"
                            (snd (CommandBus.subscribe calm_env 1%nat "X" ready_world)))))
        !! "X"))
  /\ filter (fun e => is_handle e = true)
       (effects_of (CommandBus.deliver calm_env "agentic.commands.Order.X" 1%nat msg_E1)
          (snd (CommandBus.publish calm_env (envelope "E1" "X" "Order")
                  (snd (CommandBus.unsubscribe 1%nat "X"
                          (snd (CommandBus.subscribe calm_env 1%nat "X" ready_world)))))))
     = [EHandle 1%nat (envelope "E1" "X" "Order")].
Proof.
  destruct (X25_unsubscribed_handler_still_served calm_env 1%nat "X"
              (envelope "E1" "X" "Order") "E1" 7%nat ready_world)
    as (_ & _ & _ & Hgone & _ & _ & Hhandled); try reflexivity.
  - discriminate.
  - split; [exact Hgone | exact Hhandled].
Defined.

